(** * TabVault: tab tracking, stale scan and close-and-log pipeline

    A shallow embedding of the extension's service worker (background.js)
    and of the parts of its options page (options.js) that write the
    inactivity setting and render the closed-items queue as markdown.

    Asynchronous functions are embedded as computations over an explicit
    [World] (browser tabs, chrome.storage.local, alarms, the calls made so
    far) that either return or throw. Each listener runs to completion:
    interleavings at [await] points are not modelled. *)

From Stdlib Require Import ZArith Lia Ascii String.
From stdpp Require Import base option list strings pretty gmap.

(** ** JavaScript truthiness and the [||] operator *)
Module JS.

(** A string is truthy unless it is empty. *)
Definition truthy (s : string) : bool :=
  match s with
  | EmptyString => false
  | String _ _ => true
  end.

(** [a || b] on strings. *)
Definition or_str (a b : string) : string :=
  if truthy a then a else b.

(** A possibly undefined string is truthy when defined and not empty. *)
Definition truthy_opt (o : option string) : bool :=
  match o with
  | Some s => truthy s
  | None => false
  end.

(** [o || b] where [o] may be undefined. *)
Definition or_opt (o : option string) (b : string) : string :=
  match o with
  | Some s => or_str s b
  | None => b
  end.

(** [a || b] on integral numbers: 0 is the falsy one. *)
Definition or_num (a b : Z) : Z :=
  if (a =? 0)%Z then b else a.

End JS.

(** ** Data model *)

(** A [chrome.tabs.Tab], restricted to the fields the code reads. *)
Record Tab := mkTab {
  tab_id : Z;
  tab_url : option string;
  tab_title : option string;
  tab_pinned : bool
}.

(** The [changeInfo] argument of [chrome.tabs.onUpdated]. *)
Record ChangeInfo := mkChangeInfo {
  change_url : option string;
  change_title : option string;
  change_status : option string
}.

(** A value of the tab metadata map. *)
Record TabRecord := mkTabRecord {
  openedAt : Z;
  lastActiveAt : Z;
  firstUrl : string;
  currentUrl : string;
  title : string
}.

(** An element of the closed-items queue. *)
Record ClosedItem := mkClosedItem {
  item_openedAt : Z;
  item_closedAt : Z;
  item_url : string;
  item_title : string
}.

Record Alarm := mkAlarm {
  periodInMinutes : Z;
  delayInMinutes : Z
}.

(** The keys of chrome.storage.local that the extension uses. *)
Inductive StorageKey :=
| TAB_METADATA_KEY
| CLOSED_ITEMS_KEY
| INACTIVITY_THRESHOLD_KEY.

(** What a rejected promise carries. *)
Inductive JsError :=
| StorageError (k : StorageKey)
| NoSuchTab (id : Z)
| NetworkError
| NoReceiver.

(** The calls with an effect outside the service worker, in the order they
    are made. A call is recorded when it is made, whether or not it then
    fails. Reads leave no record. *)
Inductive Call :=
| CallTabsRemove (id : Z)
| CallStorageSet (k : StorageKey)
| CallFetchAppend (item : ClosedItem)
| CallSendMessage (item : ClosedItem)
| CallAlarmsCreate (name : string) (a : Alarm)
| CallSetSettingsStatus (ok : bool).

Global Instance Tab_eq_dec : EqDecision Tab.
Proof. solve_decision. Defined.
Global Instance TabRecord_eq_dec : EqDecision TabRecord.
Proof. solve_decision. Defined.
Global Instance ClosedItem_eq_dec : EqDecision ClosedItem.
Proof. solve_decision. Defined.
Global Instance Alarm_eq_dec : EqDecision Alarm.
Proof. solve_decision. Defined.
Global Instance StorageKey_eq_dec : EqDecision StorageKey.
Proof. solve_decision. Defined.
Global Instance Call_eq_dec : EqDecision Call.
Proof. solve_decision. Defined.

(** The state the code reads and writes through the chrome APIs. *)
Record World := mkWorld {
  w_ticks : nat;                                   (* readings of Date.now() so far *)
  w_tabs : list Tab;                               (* the open tabs *)
  w_tabMetadata : option (gmap string TabRecord);  (* storage: "tabMetadata" *)
  w_closedItems : option (list ClosedItem);        (* storage: "closedItems" *)
  w_inactivityThresholdHours : option Z;           (* storage: "inactivityThresholdHours" *)
  w_alarms : gmap string Alarm;                    (* chrome.alarms *)
  w_calls : list Call
}.

(** What the code does not control: the URL parser, the clock and which
    API calls fail. [url_protocol u] is the [protocol] of [new URL(u)], and
    [None] when the constructor throws. [clock n] is what the [n]-th call of
    Date.now() returns. *)
Record Env := mkEnv {
  url_protocol : string → option string;
  clock : nat → Z;
  storage_get_fails : StorageKey → bool;
  storage_set_fails : StorageKey → bool;
  tabs_get_fails : Z → bool;
  tabs_remove_fails : Z → bool;
  fetch_fails : ClosedItem → bool;
  send_fails : ClosedItem → bool
}.

(** ** Computations that return or throw *)

Inductive Completion (A : Type) :=
| Returned (a : A)
| Thrown (e : JsError).
Arguments Returned {A} a.
Arguments Thrown {A} e.

Definition M (A : Type) : Type := World → Completion A * World.

Definition ret {A} (a : A) : M A := λ w, (Returned a, w).

Definition throw {A} (e : JsError) : M A := λ w, (Thrown e, w).

Definition bind {A B} (m : M A) (k : A → M B) : M B :=
  λ w, match m w with
       | (Returned a, w') => k a w'
       | (Thrown e, w') => (Thrown e, w')
       end.

(** [try { body } catch (e) { handler }] *)
Definition try_catch {A} (body : M A) (handler : JsError → M A) : M A :=
  λ w, match body w with
       | (Returned a, w') => (Returned a, w')
       | (Thrown e, w') => handler e w'
       end.

Notation "'let*' x := m 'in' k" := (bind m (λ x, k))
  (at level 10, x name, m at level 100, k at level 200).
Notation "'do*' m 'in' k" := (bind m (λ _, k))
  (at level 10, m at level 100, k at level 200).

Definition set_ticks (n : nat) (w : World) : World :=
  mkWorld n (w_tabs w) (w_tabMetadata w) (w_closedItems w)
          (w_inactivityThresholdHours w) (w_alarms w) (w_calls w).
Definition set_tabs (ts : list Tab) (w : World) : World :=
  mkWorld (w_ticks w) ts (w_tabMetadata w) (w_closedItems w)
          (w_inactivityThresholdHours w) (w_alarms w) (w_calls w).
Definition set_tabMetadata (m : option (gmap string TabRecord)) (w : World) : World :=
  mkWorld (w_ticks w) (w_tabs w) m (w_closedItems w)
          (w_inactivityThresholdHours w) (w_alarms w) (w_calls w).
Definition set_closedItems (l : option (list ClosedItem)) (w : World) : World :=
  mkWorld (w_ticks w) (w_tabs w) (w_tabMetadata w) l
          (w_inactivityThresholdHours w) (w_alarms w) (w_calls w).
Definition set_inactivityThresholdHours (h : option Z) (w : World) : World :=
  mkWorld (w_ticks w) (w_tabs w) (w_tabMetadata w) (w_closedItems w)
          h (w_alarms w) (w_calls w).
Definition set_alarms (a : gmap string Alarm) (w : World) : World :=
  mkWorld (w_ticks w) (w_tabs w) (w_tabMetadata w) (w_closedItems w)
          (w_inactivityThresholdHours w) a (w_calls w).
Definition record_call (c : Call) (w : World) : World :=
  mkWorld (w_ticks w) (w_tabs w) (w_tabMetadata w) (w_closedItems w)
          (w_inactivityThresholdHours w) (w_alarms w) (w_calls w ++ [c]).

(** The calls made between [w] and a later world [w']. *)
Definition calls_since (w w' : World) : list Call :=
  drop (length (w_calls w)) (w_calls w').

(** ** The platform: Date, chrome.tabs, chrome.storage.local, chrome.alarms,
       fetch and chrome.runtime *)
Module Chrome.
Section WithEnv.
Variable env : Env.

Definition date_now : M Z :=
  λ w, (Returned (clock env (w_ticks w)), set_ticks (S (w_ticks w)) w).

(** chrome.tabs.query({}) *)
Definition tabs_query : M (list Tab) :=
  λ w, (Returned (w_tabs w), w).

(** chrome.tabs.get(id): rejects when no such tab is open. *)
Definition tabs_get (id : Z) : M Tab :=
  λ w, if tabs_get_fails env id then (Thrown (NoSuchTab id), w)
       else match find (λ t, bool_decide (tab_id t = id)) (w_tabs w) with
            | Some t => (Returned t, w)
            | None => (Thrown (NoSuchTab id), w)
            end.

(** chrome.tabs.remove(id): rejects when the tab is already gone. *)
Definition tabs_remove (id : Z) : M unit :=
  λ w, let w1 := record_call (CallTabsRemove id) w in
       if tabs_remove_fails env id then (Thrown (NoSuchTab id), w1)
       else if bool_decide (id ∈ tab_id <$> w_tabs w)
       then (Returned tt, set_tabs (filter (λ t, tab_id t ≠ id) (w_tabs w)) w1)
       else (Thrown (NoSuchTab id), w1).

Definition storage_get_tabMetadata : M (option (gmap string TabRecord)) :=
  λ w, if storage_get_fails env TAB_METADATA_KEY
       then (Thrown (StorageError TAB_METADATA_KEY), w)
       else (Returned (w_tabMetadata w), w).

Definition storage_set_tabMetadata (m : gmap string TabRecord) : M unit :=
  λ w, let w1 := record_call (CallStorageSet TAB_METADATA_KEY) w in
       if storage_set_fails env TAB_METADATA_KEY
       then (Thrown (StorageError TAB_METADATA_KEY), w1)
       else (Returned tt, set_tabMetadata (Some m) w1).

Definition storage_get_closedItems : M (option (list ClosedItem)) :=
  λ w, if storage_get_fails env CLOSED_ITEMS_KEY
       then (Thrown (StorageError CLOSED_ITEMS_KEY), w)
       else (Returned (w_closedItems w), w).

Definition storage_set_closedItems (l : list ClosedItem) : M unit :=
  λ w, let w1 := record_call (CallStorageSet CLOSED_ITEMS_KEY) w in
       if storage_set_fails env CLOSED_ITEMS_KEY
       then (Thrown (StorageError CLOSED_ITEMS_KEY), w1)
       else (Returned tt, set_closedItems (Some l) w1).

Definition storage_get_inactivityThresholdHours : M (option Z) :=
  λ w, if storage_get_fails env INACTIVITY_THRESHOLD_KEY
       then (Thrown (StorageError INACTIVITY_THRESHOLD_KEY), w)
       else (Returned (w_inactivityThresholdHours w), w).

Definition storage_set_inactivityThresholdHours (h : Z) : M unit :=
  λ w, let w1 := record_call (CallStorageSet INACTIVITY_THRESHOLD_KEY) w in
       if storage_set_fails env INACTIVITY_THRESHOLD_KEY
       then (Thrown (StorageError INACTIVITY_THRESHOLD_KEY), w1)
       else (Returned tt, set_inactivityThresholdHours (Some h) w1).

(** chrome.alarms.get(name) *)
Definition alarms_get (name : string) : M (option Alarm) :=
  λ w, (Returned (w_alarms w !! name), w).

(** chrome.alarms.create(name, info) *)
Definition alarms_create (name : string) (a : Alarm) : M unit :=
  λ w, (Returned tt, set_alarms (<[name := a]> (w_alarms w))
                                (record_call (CallAlarmsCreate name a) w)).

(** fetch("http://127.0.0.1:8787/append", { method: "POST", body: {items: [item]} }) *)
Definition fetch_append (item : ClosedItem) : M unit :=
  λ w, let w1 := record_call (CallFetchAppend item) w in
       if fetch_fails env item then (Thrown NetworkError, w1)
       else (Returned tt, w1).

(** chrome.runtime.sendMessage({ type: "tab-closed-logged", item }) *)
Definition runtime_sendMessage (item : ClosedItem) : M unit :=
  λ w, let w1 := record_call (CallSendMessage item) w in
       if send_fails env item then (Thrown NoReceiver, w1)
       else (Returned tt, w1).

End WithEnv.
End Chrome.


(** ** background.js *)
Module Background.
Import JS.
Section WithEnv.
Variable env : Env.

Definition STALE_THRESHOLD_MS : Z := 24 * 60 * 60 * 1000.
Definition ALARM_NAME : string := "check-stale-tabs".
Definition ALARM_PERIOD_MINUTES : Z := 30.

(** [String(id)]: the key of a tab in the metadata map. *)
Definition key_of (id : Z) : string := pretty id.

Definition loadTabMetadata : M (gmap string TabRecord) :=
  let* result := Chrome.storage_get_tabMetadata env in
  ret (default ∅ result).

Definition saveTabMetadata (map : gmap string TabRecord) : M unit :=
  Chrome.storage_set_tabMetadata env map.

Definition loadClosedItems : M (list ClosedItem) :=
  let* result := Chrome.storage_get_closedItems env in
  ret (default [] result).

Definition saveClosedItems (items : list ClosedItem) : M unit :=
  Chrome.storage_set_closedItems env items.

Definition isSupportedHttpUrl (url : option string) : bool :=
  match url with
  | None => false
  | Some u =>
      if negb (truthy u) then false
      else match url_protocol env u with
           | Some protocol =>
               bool_decide (protocol = "http:") || bool_decide (protocol = "https:")
           | None => false
           end
  end.

Definition ensureAlarm : M unit :=
  let* existing := Chrome.alarms_get ALARM_NAME in
  match existing with
  | None => Chrome.alarms_create ALARM_NAME (mkAlarm ALARM_PERIOD_MINUTES 1)
  | Some _ => ret tt
  end.

(** The [for (const tab of tabs)] loop of [initialiseExistingTabs], over the
    local [metadata] and [changed]. *)
Fixpoint initialise_loop (now : Z) (tabs : list Tab)
    (metadata : gmap string TabRecord) (changed : bool)
    : gmap string TabRecord * bool :=
  match tabs with
  | [] => (metadata, changed)
  | tab :: rest =>
      if negb (isSupportedHttpUrl (tab_url tab))
      then initialise_loop now rest metadata changed
      else
        let key := key_of (tab_id tab) in
        match metadata !! key with
        | None =>
            initialise_loop now rest
              (<[key := mkTabRecord now now
                          (or_opt (tab_url tab) "") (or_opt (tab_url tab) "")
                          (or_opt (tab_title tab) "")]> metadata)
              true
        | Some _ => initialise_loop now rest metadata changed
        end
  end.

Definition initialiseExistingTabs : M unit :=
  let* tabs := Chrome.tabs_query in
  let* metadata := loadTabMetadata in
  let* now := Chrome.date_now env in
  let result := initialise_loop now tabs metadata false in
  if result.2 then saveTabMetadata result.1 else ret tt.

Definition handleTabCreated (tab : Tab) : M unit :=
  if negb (isSupportedHttpUrl (tab_url tab)) then ret tt
  else
    let* metadata := loadTabMetadata in
    let* now := Chrome.date_now env in
    saveTabMetadata
      (<[key_of (tab_id tab) :=
           mkTabRecord now now
             (or_opt (tab_url tab) "") (or_opt (tab_url tab) "")
             (or_opt (tab_title tab) "")]> metadata).

(** [tab.title || changeInfo.title], still possibly undefined. *)
Definition or_undefined (a b : option string) : option string :=
  if truthy_opt a then a else b.

Definition handleTabUpdated (tabId : Z) (changeInfo : ChangeInfo) (tab : Tab)
    : M unit :=
  if negb (truthy_opt (change_url changeInfo))
     && negb (truthy_opt (change_title changeInfo))
     && negb (bool_decide (change_status changeInfo = Some "complete"))
  then ret tt
  else
    let* metadata := loadTabMetadata in
    let key := key_of tabId in
    match metadata !! key with
    | None =>
        if negb (isSupportedHttpUrl (tab_url tab)) then ret tt
        else
          let* now := Chrome.date_now env in
          saveTabMetadata
            (<[key :=
                 mkTabRecord now now
                   (or_opt (tab_url tab) "") (or_opt (tab_url tab) "")
                   (or_opt (or_undefined (tab_title tab) (change_title changeInfo)) "")]>
               metadata)
    | Some entry =>
        let entry1 :=
          if isSupportedHttpUrl (tab_url tab)
          then mkTabRecord (openedAt entry) (lastActiveAt entry) (firstUrl entry)
                           (or_opt (tab_url tab) (currentUrl entry)) (title entry)
          else entry in
        let entry2 :=
          if truthy_opt (or_undefined (tab_title tab) (change_title changeInfo))
          then mkTabRecord (openedAt entry1) (lastActiveAt entry1) (firstUrl entry1)
                           (currentUrl entry1)
                           (or_opt (or_undefined (tab_title tab) (change_title changeInfo))
                                   (title entry1))
          else entry1 in
        saveTabMetadata (<[key := entry2]> metadata)
    end.

Definition handleTabRemoved (tabId : Z) : M unit :=
  let* metadata := loadTabMetadata in
  let key := key_of tabId in
  match metadata !! key with
  | Some _ => saveTabMetadata (delete key metadata)
  | None => ret tt
  end.

Definition closeAndLogTab (tab : Tab) (metaEntry : option TabRecord) : M unit :=
  match metaEntry with
  | None => ret tt
  | Some metaEntry =>
      let* now := Chrome.date_now env in
      let closedItem :=
        mkClosedItem (openedAt metaEntry) now
          (or_str (currentUrl metaEntry) (firstUrl metaEntry))
          (or_str (or_str (title metaEntry) (currentUrl metaEntry)) (firstUrl metaEntry)) in
      do* try_catch (Chrome.tabs_remove env (tab_id tab)) (λ _, ret tt) in
      let* items := loadClosedItems in
      do* saveClosedItems (items ++ [closedItem]) in
      do* try_catch (Chrome.fetch_append env closedItem) (λ _, ret tt) in
      try_catch (Chrome.runtime_sendMessage env closedItem) (λ _, ret tt)
  end.

(** The [for (const tab of tabs)] loop of [checkForStaleTabs], over the
    local [metadata]. *)
Fixpoint stale_loop (now : Z) (tabs : list Tab) (metadata : gmap string TabRecord)
    : M (gmap string TabRecord) :=
  match tabs with
  | [] => ret metadata
  | tab :: rest =>
      if tab_pinned tab then stale_loop now rest metadata
      else if negb (isSupportedHttpUrl (tab_url tab)) then stale_loop now rest metadata
      else
        let key := key_of (tab_id tab) in
        let entry :=
          match metadata !! key with
          | Some entry => entry
          | None => mkTabRecord now now
                      (or_opt (tab_url tab) "") (or_opt (tab_url tab) "")
                      (or_opt (tab_title tab) "")
          end in
        let metadata :=
          match metadata !! key with
          | Some _ => metadata
          | None => <[key := entry]> metadata
          end in
        let lastActiveAt := or_num (or_num (lastActiveAt entry) (openedAt entry)) now in
        let inactiveDuration := (now - lastActiveAt)%Z in
        if (STALE_THRESHOLD_MS <=? inactiveDuration)%Z
        then
          do* closeAndLogTab tab (Some entry) in
          stale_loop now rest (delete key metadata)
        else stale_loop now rest metadata
  end.

Definition checkForStaleTabs : M unit :=
  let* tabs := Chrome.tabs_query in
  let* metadata := loadTabMetadata in
  let* now := Chrome.date_now env in
  let* metadata := stale_loop now tabs metadata in
  saveTabMetadata metadata.

(** chrome.runtime.onInstalled and chrome.runtime.onStartup *)
Definition onInstalled : M unit :=
  do* ensureAlarm in initialiseExistingTabs.

Definition onStartup : M unit :=
  do* ensureAlarm in initialiseExistingTabs.

(** chrome.alarms.onAlarm *)
Definition onAlarm (name : string) : M unit :=
  if bool_decide (name = ALARM_NAME) then checkForStaleTabs else ret tt.

(** chrome.tabs.onActivated. The [return]s inside [try] leave the listener:
    the block yields [None] for them and the map to save otherwise. *)
Definition onActivated (tabId : Z) : M unit :=
  let* metadata := loadTabMetadata in
  let key := key_of tabId in
  let* now := Chrome.date_now env in
  match metadata !! key with
  | None =>
      let* created :=
        try_catch
          (let* tab := Chrome.tabs_get env tabId in
           if negb (isSupportedHttpUrl (tab_url tab)) then ret None
           else ret (Some (<[key := mkTabRecord now now
                                      (or_opt (tab_url tab) "") (or_opt (tab_url tab) "")
                                      (or_opt (tab_title tab) "")]> metadata)))
          (λ _, ret None) in
      match created with
      | None => ret tt
      | Some metadata => saveTabMetadata metadata
      end
  | Some entry =>
      saveTabMetadata
        (<[key := mkTabRecord (openedAt entry) now (firstUrl entry)
                              (currentUrl entry) (title entry)]> metadata)
  end.

(** What the browser delivers to the service worker. [BrowserTabs] is the
    user (or anything else) changing the set of open tabs. *)
Inductive Event :=
| Installed
| Startup
| AlarmFired (name : string)
| TabCreated (tab : Tab)
| TabActivated (tabId : Z)
| TabUpdated (tabId : Z) (changeInfo : ChangeInfo) (tab : Tab)
| TabRemoved (tabId : Z)
| BrowserTabs (tabs : list Tab).

(** A listener's promise is dropped by the dispatcher: only the world it
    leaves behind is seen. *)
Definition dispatch (ev : Event) (w : World) : World :=
  match ev with
  | Installed => (onInstalled w).2
  | Startup => (onStartup w).2
  | AlarmFired name => (onAlarm name w).2
  | TabCreated tab => (handleTabCreated tab w).2
  | TabActivated tabId => (onActivated tabId w).2
  | TabUpdated tabId changeInfo tab => (handleTabUpdated tabId changeInfo tab w).2
  | TabRemoved tabId => (handleTabRemoved tabId w).2
  | BrowserTabs tabs => set_tabs tabs w
  end.

Definition run (evs : list Event) (w : World) : World :=
  foldl (λ w ev, dispatch ev w) w evs.

End WithEnv.
End Background.


(** ** options.js *)
Module Options.
Import JS.

(** [s.replace(/c/g, by)] for a single character [c]. *)
Fixpoint replace_char (c : Ascii.ascii) (by_ : string) (s : string) : string :=
  match s with
  | EmptyString => EmptyString
  | String a rest =>
      if Ascii.eqb a c then by_ +:+ replace_char c by_ rest
      else String a (replace_char c by_ rest)
  end.

Definition escapeMarkdownLinkText (text : option string) : string :=
  replace_char "]"%char "\]" (replace_char "["%char "\[" (or_opt text "")).

Section Markdown.
(** [Date] is the platform's: [formatDateISO] and [formatTime] depend on it
    (and on the time zone) and are taken as given, as is the reading of
    Date.now() that stands in for a missing [closedAt]. *)
Variable formatDateISO : Z → string.
Variable formatTime : Z → string.
Variable date_now : Z.

(** [map.get(day).push(item)] on a [Map], which keeps insertion order. *)
Fixpoint push_day (day : string) (item : ClosedItem)
    (map : list (string * list ClosedItem)) : list (string * list ClosedItem) :=
  match map with
  | [] => [(day, [item])]
  | (d, its) :: rest =>
      if String.eqb d day then (d, its ++ [item]) :: rest
      else (d, its) :: push_day day item rest
  end.

Definition groupByDate (items : list ClosedItem) : list (string * list ClosedItem) :=
  foldl (λ map item,
           push_day (formatDateISO (or_num (item_closedAt item) date_now)) item map)
        [] items.

(** The two lines and the blank line pushed for one item. *)
Definition item_lines (item : ClosedItem) : list string :=
  let title :=
    escapeMarkdownLinkText
      (Some (or_str (or_str (item_title item) (item_url item)) "Untitled")) in
  let url := or_str (item_url item) "" in
  let closedTime := formatTime (or_num (item_closedAt item) date_now) in
  [ "- [ ] [" +:+ title +:+ "](" +:+ url +:+ ")  ";
    "  Closed at: " +:+ closedTime;
    "" ].

Definition newline : string := String (Ascii.ascii_of_nat 10) EmptyString.

Definition buildMarkdownFromItems (items : list ClosedItem) : string :=
  match items with
  | [] => ""
  | _ =>
      let grouped := groupByDate items in
      let sections :=
        concat (map (λ '(day, dayItems),
                       ["## " +:+ day; ""] ++ concat (map item_lines dayItems))
                    grouped) in
      String.concat newline sections
  end.

End Markdown.

Section Settings.
Variable env : Env.

Definition setSettingsStatus (ok : bool) : M unit :=
  λ w, (Returned tt, record_call (CallSetSettingsStatus ok) w).

(** [hours] is the stored value when it is a number, the select element then
    shows it; otherwise the select shows the default. The value shown is
    returned; a failed read leaves the select as it was. *)
Definition loadInactivityThreshold : M (option Z) :=
  try_catch
    (let* hours := Chrome.storage_get_inactivityThresholdHours env in
     match hours with
     | Some hours => do* setSettingsStatus true in ret (Some hours)
     | None => do* setSettingsStatus true in ret (Some 24%Z)
     end)
    (λ _, do* setSettingsStatus false in ret None).

(** [hours] is [Number(inactivitySelectEl.value)], [None] for NaN. *)
Definition saveInactivityThreshold (hours : option Z) : M unit :=
  match hours with
  | None => setSettingsStatus false
  | Some hours =>
      if (hours =? 0)%Z || (hours <=? 0)%Z then setSettingsStatus false
      else
        try_catch
          (do* Chrome.storage_set_inactivityThresholdHours env hours in
           setSettingsStatus true)
          (λ _, setSettingsStatus false)
  end.

End Settings.
End Options.

(** * What the claims speak of *)
Module Spec.
Import JS Background.

(** The ClosedItem of a record, closed at [now]: [url] is
    [currentUrl || firstUrl] and [title] is [title || url]. *)
Definition closedItem_of (e : TabRecord) (now : Z) : ClosedItem :=
  let url := or_str (currentUrl e) (firstUrl e) in
  mkClosedItem (openedAt e) now url (or_str (title e) url).

(** The open tabs after chrome.tabs.remove(id) was called. *)
Definition tabs_after_remove (env : Env) (id : Z) (tabs : list Tab) : list Tab :=
  if tabs_remove_fails env id then tabs
  else if bool_decide (id ∈ tab_id <$> tabs) then filter (λ t, tab_id t ≠ id) tabs
  else tabs.

(** The four calls of one pipeline run, in order. *)
Definition pipeline_calls (id : Z) (item : ClosedItem) : list Call :=
  [CallTabsRemove id; CallStorageSet CLOSED_ITEMS_KEY;
   CallFetchAppend item; CallSendMessage item].

(** The world a complete pipeline run leaves behind. *)
Definition pipeline_world (env : Env) (tab : Tab) (e : TabRecord) (w : World) : World :=
  let item := closedItem_of e (clock env (w_ticks w)) in
  mkWorld (S (w_ticks w))
          (tabs_after_remove env (tab_id tab) (w_tabs w))
          (w_tabMetadata w)
          (Some (default [] (w_closedItems w) ++ [item]))
          (w_inactivityThresholdHours w)
          (w_alarms w)
          (w_calls w ++ pipeline_calls (tab_id tab) item).

(** [env] with a network push that always succeeds. *)
Definition with_reachable_sink (env : Env) : Env :=
  mkEnv (url_protocol env) (clock env) (storage_get_fails env) (storage_set_fails env)
        (tabs_get_fails env) (tabs_remove_fails env) (λ _, false) (send_fails env).

(** The metadata map as [loadTabMetadata] sees it. *)
Definition stored_metadata (w : World) : gmap string TabRecord :=
  default ∅ (w_tabMetadata w).

(** The queue as [loadClosedItems] sees it. *)
Definition stored_closedItems (w : World) : list ClosedItem :=
  default [] (w_closedItems w).

(** [m] runs the same in a world changed by [f], and leaves the world it
    would have left, changed by [f]: it neither reads nor writes what [f]
    changes. *)
Definition commutes_with (f : World → World) {A} (m : M A) : Prop :=
  ∀ w, m (f w) = ((m w).1, f (m w).2).

(** The world in which the tabs with identifier [id] are not open. *)
Definition without (id : Z) (w : World) : World :=
  set_tabs (filter (λ t, tab_id t ≠ id) (w_tabs w)) w.

(** [m] makes no call of chrome.tabs.remove([id]) and closes no tab with
    that identifier. *)
Definition spares (id : Z) {A} (m : M A) : Prop :=
  ∀ w, (∃ l, w_calls (m w).2 = w_calls w ++ l ∧ CallTabsRemove id ∉ l) ∧
       (∀ t, tab_id t = id → t ∈ w_tabs w → t ∈ w_tabs (m w).2).

(** A record whose timestamps are in order and not later than [bound]. *)
Definition record_ok (bound : Z) (e : TabRecord) : Prop :=
  (openedAt e ≤ lastActiveAt e)%Z ∧ (lastActiveAt e ≤ bound)%Z.

Definition all_ok (bound : Z) (md : gmap string TabRecord) : Prop :=
  map_Forall (λ _, record_ok bound) md.

(** Every stored record is in order and not later than the next reading of
    the clock. *)
Definition store_ok (env : Env) (w : World) : Prop :=
  all_ok (clock env (w_ticks w)) (stored_metadata w).

Definition clock_monotone (env : Env) : Prop :=
  ∀ m n : nat, m ≤ n → (clock env m ≤ clock env n)%Z.

(** A computation that leaves the stored metadata alone and does not turn
    the clock back. *)
Definition keeps_metadata {A} (m : M A) : Prop :=
  ∀ w, w_tabMetadata (m w).2 = w_tabMetadata w ∧ w_ticks w ≤ w_ticks (m w).2.

(** No inactivity threshold other than the default of 24 hours is stored. *)
Definition default_threshold_applies (w : World) : Prop :=
  w_inactivityThresholdHours w = None ∨ w_inactivityThresholdHours w = Some 24%Z.

(** The test of the scan on a record: [now - (lastActiveAt || openedAt || now)]
    against the threshold. *)
Definition is_stale_record (now : Z) (e : TabRecord) : bool :=
  (STALE_THRESHOLD_MS <=? now - or_num (or_num (lastActiveAt e) (openedAt e)) now)%Z.

(** A tab that is not pinned, qualifies and has a stale record, with that
    record. *)
Definition stale_entry (env : Env) (now : Z) (md : gmap string TabRecord) (t : Tab)
    : option (Tab * TabRecord) :=
  if tab_pinned t then None
  else if negb (isSupportedHttpUrl env (tab_url t)) then None
  else match md !! key_of (tab_id t) with
       | Some e => if is_stale_record now e then Some (t, e) else None
       | None => None
       end.

(** The stale tabs among [tabs], in the order of [tabs]. *)
Definition stale_entries (env : Env) (now : Z) (md : gmap string TabRecord)
    (tabs : list Tab) : list (Tab * TabRecord) :=
  omap (stale_entry env now md) tabs.

(** The ClosedItems of successive pipeline runs, the first of which reads
    the clock for the [tick]-th time. *)
Fixpoint items_of (env : Env) (tick : nat) (ses : list (Tab * TabRecord))
    : list ClosedItem :=
  match ses with
  | [] => []
  | (_, e) :: rest => closedItem_of e (clock env tick) :: items_of env (S tick) rest
  end.

(** The calls of these runs. *)
Fixpoint calls_of (env : Env) (tick : nat) (ses : list (Tab * TabRecord))
    : list Call :=
  match ses with
  | [] => []
  | (t, e) :: rest =>
      pipeline_calls (tab_id t) (closedItem_of e (clock env tick))
        ++ calls_of env (S tick) rest
  end.

(** The reads and writes of the two keys of the service worker succeed. *)
Definition storage_works (env : Env) : Prop :=
  storage_get_fails env TAB_METADATA_KEY = false ∧
  storage_set_fails env TAB_METADATA_KEY = false ∧
  storage_get_fails env CLOSED_ITEMS_KEY = false ∧
  storage_set_fails env CLOSED_ITEMS_KEY = false.

(** What the loop of the scan over [tabs], started with the local map [md]
    in the world [w], has done when it ends with [md'] in [w']. *)
Definition scan_post (env : Env) (tabs : list Tab) (md : gmap string TabRecord)
    (w : World) (ses : list (Tab * TabRecord))
    (md' : gmap string TabRecord) (w' : World) : Prop :=
  w_ticks w' = w_ticks w + length ses ∧
  stored_closedItems w' = stored_closedItems w ++ items_of env (w_ticks w) ses ∧
  w_calls w' = w_calls w ++ calls_of env (w_ticks w) ses ∧
  w_tabMetadata w' = w_tabMetadata w ∧
  (∀ k, (∀ t, t ∈ tabs → key_of (tab_id t) ≠ k) → md' !! k = md !! k) ∧
  (∀ t e, (t, e) ∈ ses → md' !! key_of (tab_id t) = None) ∧
  (∀ t, t ∈ w_tabs w' → t ∈ w_tabs w) ∧
  (∀ t e, (t, e) ∈ ses → tabs_remove_fails env (tab_id t) = false →
          ∀ t', t' ∈ w_tabs w' → tab_id t' ≠ tab_id t).

(** Every tab of [tabs] with the identifier [id] is pinned. *)
Definition all_pinned (id : Z) (tabs : list Tab) : Prop :=
  ∀ t, t ∈ tabs → tab_id t = id → tab_pinned t = true.

(** Every qualifying tab of [tabs] has a record in [md]. *)
Definition covered (env : Env) (tabs : list Tab) (md : gmap string TabRecord) : Prop :=
  ∀ t, t ∈ tabs → isSupportedHttpUrl env (tab_url t) = true →
       is_Some (md !! key_of (tab_id t)).

End Spec.

(** * Markdown link text *)
Module Markdown.

Definition backslash : Ascii.ascii := Ascii.ascii_of_nat 92.

(** The escaping of options.js in one pass over the text. *)
Fixpoint escape_brackets (s : string) : string :=
  match s with
  | EmptyString => EmptyString
  | String a rest =>
      if Ascii.eqb a "["%char then String backslash (String "["%char (escape_brackets rest))
      else if Ascii.eqb a "]"%char then String backslash (String "]"%char (escape_brackets rest))
      else String a (escape_brackets rest)
  end.

(** Reads an escaped text back: a backslash directly before a bracket is
    dropped. *)
Fixpoint unescape_brackets (s : string) : string :=
  match s with
  | EmptyString => EmptyString
  | String a rest =>
      match rest with
      | String c rest' =>
          if Ascii.eqb a backslash && (Ascii.eqb c "["%char || Ascii.eqb c "]"%char)
          then String c (unescape_brackets rest')
          else String a (unescape_brackets rest)
      | EmptyString => String a EmptyString
      end
  end.

(** The text of a markdown link [[text](url)], as CommonMark reads it: a
    backslash escapes the character after it, and the brackets that are not
    escaped have to be balanced. [depth] counts the open brackets, [escaped]
    tells that the character before was an escaping backslash. *)
Fixpoint link_text_ok (depth : nat) (escaped : bool) (s : string) : bool :=
  match s with
  | EmptyString => Nat.eqb depth 0
  | String c rest =>
      if escaped then link_text_ok depth false rest
      else if Ascii.eqb c backslash then link_text_ok depth true rest
      else if Ascii.eqb c "["%char then link_text_ok (S depth) false rest
      else if Ascii.eqb c "]"%char then
        match depth with
        | O => false
        | S d => link_text_ok d false rest
        end
      else link_text_ok depth false rest
  end.

Definition valid_link_text (s : string) : bool := link_text_ok 0 false s.

Fixpoint has_backslash (s : string) : bool :=
  match s with
  | EmptyString => false
  | String a rest => Ascii.eqb a backslash || has_backslash rest
  end.

End Markdown.

(** * Relations between the world before and after a computation *)
Module Relations.
Import JS Background Spec.

(** Every run of [m] takes a world to one related to it by [R], whether it
    returns or throws. *)
Definition steps (R : World → World → Prop) {A} (m : M A) : Prop :=
  ∀ w, R w (m w).2.

(** The queue only grows at its end. *)
Definition queue_grows (w w' : World) : Prop :=
  stored_closedItems w `prefix_of` stored_closedItems w'.

(** The queue is left as it is. *)
Definition queue_kept (w w' : World) : Prop :=
  w_closedItems w' = w_closedItems w.

(** An alarm that exists under [ALARM_NAME] is left as it is. *)
Definition alarm_kept (w w' : World) : Prop :=
  ∀ a, w_alarms w !! ALARM_NAME = Some a → w_alarms w' !! ALARM_NAME = Some a.

(** No tab is closed: the open tabs are the same and no call of
    chrome.tabs.remove was made. *)
Definition no_tab_closed (w w' : World) : Prop :=
  w_tabs w' = w_tabs w ∧
  ∃ l, w_calls w' = w_calls w ++ l ∧ ∀ id, CallTabsRemove id ∉ l.

(** No write of the tab metadata was made. *)
Definition no_metadata_write (w w' : World) : Prop :=
  ∃ l, w_calls w' = w_calls w ++ l ∧ CallStorageSet TAB_METADATA_KEY ∉ l.

(** The records under other keys than [key] are left as they are. *)
Definition other_records_kept (key : string) (w w' : World) : Prop :=
  ∀ k, k ≠ key → stored_metadata w' !! k = stored_metadata w !! k.

(** No ClosedItem was closed before it was opened. *)
Definition queue_ok (w : World) : Prop :=
  Forall (λ item, (item_openedAt item ≤ item_closedAt item)%Z) (stored_closedItems w).

(** The record the scan judges for [tab]: the stored one, or a new one made
    at [now]. *)
Definition judged_record (now : Z) (md : gmap string TabRecord) (tab : Tab)
    : TabRecord :=
  match md !! key_of (tab_id tab) with
  | Some e => e
  | None => mkTabRecord now now (or_opt (tab_url tab) "") (or_opt (tab_url tab) "")
                        (or_opt (tab_title tab) "")
  end.

(** The scan looks at [tab]: it is not pinned and its URL qualifies. *)
Definition scanned (env : Env) (tab : Tab) : bool :=
  negb (tab_pinned tab) && isSupportedHttpUrl env (tab_url tab).

End Relations.

(** * How the timestamps of a record change *)
Module Ageing.
Import JS Background Spec.

(** A record made at [now]: both timestamps are [now]. *)
Definition made_at (now : Z) (e : TabRecord) : Prop :=
  openedAt e = now ∧ lastActiveAt e = now.

(** [e'] is [e] later on: openedAt is kept and lastActiveAt is kept or set
    to [now]. *)
Definition aged (now : Z) (e e' : TabRecord) : Prop :=
  openedAt e' = openedAt e ∧
  (lastActiveAt e' = lastActiveAt e ∨ lastActiveAt e' = now).

(** Every record of [md'] was made at [now] or is the record of [md] under
    its key, later on. *)
Definition evolves (now : Z) (md md' : gmap string TabRecord) : Prop :=
  ∀ k e', md' !! k = Some e' →
    made_at now e' ∨ ∃ e, md !! k = Some e ∧ aged now e e'.

(** Under the keys in [P], a record of [md] that has a successor in [md']
    keeps its openedAt. *)
Definition keeps_openedAt (P : string → Prop) (md md' : gmap string TabRecord)
    : Prop :=
  ∀ k e e', P k → md !! k = Some e → md' !! k = Some e' → openedAt e' = openedAt e.

Definition store_step (now : Z) (P : string → Prop)
    (md md' : gmap string TabRecord) : Prop :=
  evolves now md md' ∧ keeps_openedAt P md md'.

(** The keys under which [ev] may replace a record by a new one: all but the
    key of the tab of a chrome.tabs.onCreated event. *)
Definition not_created_by (ev : Event) (k : string) : Prop :=
  ∀ tab, ev = TabCreated tab → key_of (tab_id tab) ≠ k.

End Ageing.

(** * Grouping by day *)
Module Grouping.
Import JS Options.

(** The day an item is filed under. *)
Definition day_of (formatDateISO : Z → string) (date_now : Z) (item : ClosedItem)
    : string :=
  formatDateISO (or_num (item_closedAt item) date_now).

(** [map.get(day)], or the empty list when the map has no such day. *)
Fixpoint group_of (day : string) (map : list (string * list ClosedItem))
    : list ClosedItem :=
  match map with
  | [] => []
  | (d, its) :: rest => if String.eqb d day then its else group_of day rest
  end.

(** The text has neither [[] nor []]. *)
Fixpoint no_bracket (s : string) : bool :=
  match s with
  | EmptyString => true
  | String a rest =>
      negb (Ascii.eqb a "["%char) && negb (Ascii.eqb a "]"%char) && no_bracket rest
  end.

End Grouping.

(** ** A concrete environment for the scenarios *)
Module Scenario.

(** Agrees with [new URL(u).protocol] on the URLs of the scenarios. *)
Definition protocol_of (u : string) : option string :=
  if String.prefix "http://" u then Some "http:"
  else if String.prefix "https://" u then Some "https:"
  else if String.prefix "chrome://" u then Some "chrome:"
  else None.

Definition HOUR : Z := 60 * 60 * 1000.

(** Nothing fails, and every reading of the clock is [now]. *)
Definition calm (now : Z) : Env :=
  mkEnv protocol_of (λ _, now)
        (λ _, false) (λ _, false) (λ _, false) (λ _, false) (λ _, false) (λ _, false).

Definition world (tabs : list Tab) (metadata : option (gmap string TabRecord))
    (closed : option (list ClosedItem)) (hours : option Z) : World :=
  mkWorld 0 tabs metadata closed hours ∅ [].

Definition tab_x : Tab := mkTab 7 (Some "http://x") (Some "X") false.

(** The record of [tab_x] when it was created at [t] and never focused. *)
Definition record_x (t : Z) : TabRecord :=
  mkTabRecord t t "http://x" "http://x" "X".

Definition metadata_x (t : Z) : gmap string TabRecord :=
  {[ Background.key_of 7 := record_x t ]}.

(** The write of the closed-items queue is refused (the quota is used up);
    everything else works. *)
Definition queue_write_refused (now : Z) : Env :=
  mkEnv protocol_of (λ _, now)
        (λ _, false) (λ k, bool_decide (k = CLOSED_ITEMS_KEY))
        (λ _, false) (λ _, false) (λ _, false) (λ _, false).

(** Storage works; the tab is already gone, the local sink is not running
    and no page listens. *)
Definition only_storage_works (now : Z) : Env :=
  mkEnv protocol_of (λ _, now)
        (λ _, false) (λ _, false) (λ _, true) (λ _, true) (λ _, true) (λ _, true).

(** Connection refused by the local sink; everything else works. *)
Definition connection_refused (now : Z) : Env :=
  mkEnv protocol_of (λ _, now)
        (λ _, false) (λ _, false) (λ _, false) (λ _, false) (λ _, true) (λ _, false).

(** Tab 7 after the user went from http://x to the settings page. *)
Definition tab_settings : Tab :=
  mkTab 7 (Some "chrome://settings") (Some "Settings") false.

(** Nothing fails, and the clock advances by a second at every reading. *)
Definition ticking : Env :=
  mkEnv protocol_of (λ n, 1000 * (Z.of_nat n + 1))%Z
        (λ _, false) (λ _, false) (λ _, false) (λ _, false) (λ _, false) (λ _, false).

(** Nothing fails, and the clock advances by an hour at every reading. *)
Definition hourly : Env :=
  mkEnv protocol_of (λ n, HOUR * (Z.of_nat n + 1))%Z
        (λ _, false) (λ _, false) (λ _, false) (λ _, false) (λ _, false) (λ _, false).

(** A pinned tab that was created at the first millisecond, as [tab_x]. *)
Definition tab_mail : Tab := mkTab 3 (Some "https://mail") (Some "Mail") true.

Definition record_mail : TabRecord :=
  mkTabRecord 1 1 "https://mail" "https://mail" "Mail".

(** [tab_mail] and [tab_x] are open, both have their record from the first
    millisecond, and the clock was read 24 times. *)
Definition day_later : World :=
  mkWorld 24 [tab_mail; tab_x]
          (Some (<[Background.key_of 3 := record_mail]> (metadata_x 1)))
          None None ∅ [].

(** As [day_later], another day later: the clock was read 48 times. *)
Definition two_days_later : World :=
  mkWorld 48 [tab_mail; tab_x]
          (Some (<[Background.key_of 3 := record_mail]> (metadata_x 1)))
          None None ∅ [].

End Scenario.

(** ** More scenarios *)
Module ScenarioMore.
Import Scenario.

(** Scenario B: [tab_x] was focused at 23 hours, and the clock was read 23
    times, so that the next reading is 24 hours. *)
Definition focused_recently : World :=
  mkWorld 23 [tab_mail; tab_x]
          (Some {[ Background.key_of 7 :=
                     mkTabRecord 1 (23 * HOUR) "http://x" "http://x" "X" ]})
          None None ∅ [].

(** A tab the worker has not seen yet. *)
Definition tab_news : Tab := mkTab 9 (Some "https://news") (Some "News") false.

Definition unknown_tab_open : World :=
  mkWorld 23 [tab_news; tab_x] (Some (metadata_x 1)) None None ∅ [].

(** Tab 99 was closed while the worker was not running: its record is still
    stored, and only [tab_x] is open. *)
Definition record_left_behind : World :=
  mkWorld 24 [tab_x]
          (Some (<[Background.key_of 99 :=
                     mkTabRecord 1 1 "http://old" "http://old" "Old"]> (metadata_x 1)))
          None None ∅ [].

End ScenarioMore.

(** * Properties *)

Module JSFacts.
Import JS.

Lemma or_str_assoc a b c : or_str (or_str a b) c = or_str a (or_str b c).
Proof. unfold or_str. destruct a; simpl; [destruct b|]; reflexivity. Qed.

Lemma or_num_nonzero a b : a ≠ 0%Z → or_num a b = a.
Proof. intros H. unfold or_num. destruct (Z.eqb_spec a 0); [contradiction|reflexivity]. Qed.

End JSFacts.

(** ** The close-and-log pipeline *)
Module Pipeline.
Import JS JSFacts Background Spec.

Lemma calls_since_app w w' l :
  w_calls w' = w_calls w ++ l → calls_since w w' = l.
Proof. intros H. unfold calls_since. by rewrite H, drop_app_length. Qed.

(** Closes a goal [c ∉ l] for an explicit list [l] of other calls. *)
Ltac not_among_calls :=
  let Hin := fresh "Hin" in
  intros Hin;
  repeat (apply elem_of_cons in Hin as [Hin|Hin]; [discriminate Hin|]);
  by apply elem_of_nil in Hin.

Ltac unfold_pipeline :=
  unfold closeAndLogTab, loadClosedItems, saveClosedItems, bind, try_catch, ret,
    Chrome.date_now, Chrome.tabs_remove, Chrome.storage_get_closedItems,
    Chrome.storage_set_closedItems, Chrome.fetch_append, Chrome.runtime_sendMessage.

(** A run whose queue read and write succeed goes through all steps,
    whatever the other calls do. *)
Lemma closeAndLogTab_run env tab e w :
  storage_get_fails env CLOSED_ITEMS_KEY = false →
  storage_set_fails env CLOSED_ITEMS_KEY = false →
  closeAndLogTab env tab (Some e) w = (Returned tt, pipeline_world env tab e w).
Proof.
  intros Hget Hset. unfold_pipeline.
  unfold pipeline_world, tabs_after_remove, pipeline_calls, closedItem_of.
  rewrite or_str_assoc. simpl. rewrite Hget, Hset.
  destruct (tabs_remove_fails env (tab_id tab)); simpl;
    [| destruct (bool_decide (tab_id tab ∈ tab_id <$> w_tabs w)); simpl ];
    destruct (fetch_fails env _); simpl; destruct (send_fails env _); simpl;
    unfold record_call, set_closedItems, set_tabs, set_ticks; simpl;
    rewrite <- ?app_assoc; reflexivity.
Qed.

(** A run whose queue read or write fails stops there. *)
Lemma closeAndLogTab_storage_failure env tab e w :
  storage_get_fails env CLOSED_ITEMS_KEY = true ∨
  storage_set_fails env CLOSED_ITEMS_KEY = true →
  let r := closeAndLogTab env tab (Some e) w in
  r.1 = Thrown (StorageError CLOSED_ITEMS_KEY) ∧
  w_closedItems r.2 = w_closedItems w ∧
  w_tabMetadata r.2 = w_tabMetadata w ∧
  (∀ item, CallFetchAppend item ∉ calls_since w r.2) ∧
  (∀ item, CallSendMessage item ∉ calls_since w r.2).
Proof.
  intros H. unfold_pipeline. simpl.
  destruct (storage_get_fails env CLOSED_ITEMS_KEY) eqn:Hget.
  - destruct (tabs_remove_fails env (tab_id tab)); simpl;
      [| destruct (bool_decide _); simpl ];
      (repeat split; intros item;
       erewrite calls_since_app by (simpl; reflexivity); not_among_calls).
  - destruct H as [H|H]; [discriminate|]. rewrite H.
    destruct (tabs_remove_fails env (tab_id tab)); simpl;
      [| destruct (bool_decide _); simpl ];
      (repeat split; intros item;
       erewrite calls_since_app by (simpl; rewrite <- ?app_assoc; reflexivity);
       not_among_calls).
Qed.

(** C10: with an absent record the pipeline returns at once: no tab is
    closed, nothing is appended, pushed or broadcast, and the world is left
    as it was. *)
Theorem closeAndLogTab_absent_record_noop env tab w :
  closeAndLogTab env tab None w = (Returned tt, w) ∧
  calls_since w (closeAndLogTab env tab None w).2 = [].
Proof.
  split; [reflexivity|]. simpl. apply calls_since_app. by rewrite app_nil_r.
Qed.

(** C3, as stated, fails: when the write of the queue is refused, the
    pipeline stops after closing the tab, makes neither the push nor the
    broadcast, and throws to its caller. *)
Lemma closeAndLogTab_append_failure_aborts :
  let w := Scenario.world [Scenario.tab_x] (Some (Scenario.metadata_x 1)) None None in
  let r := closeAndLogTab (Scenario.queue_write_refused 5) Scenario.tab_x
                          (Some (Scenario.record_x 1)) w in
  r.1 = Thrown (StorageError CLOSED_ITEMS_KEY) ∧
  calls_since w r.2 = [CallTabsRemove 7; CallStorageSet CLOSED_ITEMS_KEY] ∧
  w_closedItems r.2 = None.
Proof. vm_compute. auto. Qed.

(** C3, amended: once the ClosedItem is built, and provided the read and
    the write of the queue succeed, a failure of closing the tab, of the
    network push or of the broadcast stops nothing: the pipeline makes its
    four calls in order, the item is appended, and it returns normally. *)
Theorem closeAndLogTab_isolates_close_push_broadcast env tab e w :
  storage_get_fails env CLOSED_ITEMS_KEY = false →
  storage_set_fails env CLOSED_ITEMS_KEY = false →
  let item := closedItem_of e (clock env (w_ticks w)) in
  let r := closeAndLogTab env tab (Some e) w in
  r.1 = Returned tt ∧
  calls_since w r.2 = pipeline_calls (tab_id tab) item ∧
  stored_closedItems r.2 = stored_closedItems w ++ [item].
Proof.
  intros Hget Hset item r. subst r.
  rewrite (closeAndLogTab_run env tab e w Hget Hset). simpl.
  split; [reflexivity|]. split; [|reflexivity].
  by apply calls_since_app.
Qed.

Lemma closeAndLogTab_isolates_close_push_broadcast_witness :
  let env := Scenario.only_storage_works 5 in
  let w := Scenario.world [] (Some (Scenario.metadata_x 1)) None None in
  let item := closedItem_of (Scenario.record_x 1) 5 in
  let r := closeAndLogTab env Scenario.tab_x (Some (Scenario.record_x 1)) w in
  r.1 = Returned tt ∧
  calls_since w r.2 = pipeline_calls 7 item ∧
  stored_closedItems r.2 = stored_closedItems w ++ [item].
Proof.
  apply (closeAndLogTab_isolates_close_push_broadcast
           (Scenario.only_storage_works 5) Scenario.tab_x (Scenario.record_x 1)
           (Scenario.world [] (Some (Scenario.metadata_x 1)) None None));
    reflexivity.
Defined.

(** C7: Scenario D.  When the queue can be read and written and the network
    sink refuses the push, the pipeline returns normally, the ClosedItem is
    in the queue, the calls are the close, the queue write, the push and
    then the broadcast, and the whole run is the one of an environment that
    differs only in that the sink is reachable. *)
Theorem closeAndLogTab_push_failure_harmless env tab e w :
  let item := closedItem_of e (clock env (w_ticks w)) in
  let r := closeAndLogTab env tab (Some e) w in
  storage_get_fails env CLOSED_ITEMS_KEY = false →
  storage_set_fails env CLOSED_ITEMS_KEY = false →
  fetch_fails env item = true →
  r.1 = Returned tt ∧
  stored_closedItems r.2 = stored_closedItems w ++ [item] ∧
  calls_since w r.2 = pipeline_calls (tab_id tab) item ∧
  closeAndLogTab (with_reachable_sink env) tab (Some e) w = r.
Proof.
  intros item r Hget Hset _. subst r.
  rewrite (closeAndLogTab_run env tab e w Hget Hset).
  rewrite (closeAndLogTab_run (with_reachable_sink env) tab e w Hget Hset).
  simpl. repeat split. by apply calls_since_app.
Qed.

Lemma closeAndLogTab_push_failure_harmless_witness :
  let env := Scenario.connection_refused 5 in
  let w := Scenario.world [Scenario.tab_x] (Some (Scenario.metadata_x 1)) None None in
  let item := closedItem_of (Scenario.record_x 1) 5 in
  let r := closeAndLogTab env Scenario.tab_x (Some (Scenario.record_x 1)) w in
  r.1 = Returned tt ∧
  stored_closedItems r.2 = stored_closedItems w ++ [item] ∧
  calls_since w r.2 = pipeline_calls 7 item ∧
  closeAndLogTab (with_reachable_sink env) Scenario.tab_x
                 (Some (Scenario.record_x 1)) w = r.
Proof.
  apply (closeAndLogTab_push_failure_harmless
           (Scenario.connection_refused 5) Scenario.tab_x (Scenario.record_x 1)
           (Scenario.world [Scenario.tab_x] (Some (Scenario.metadata_x 1)) None None));
    reflexivity.
Defined.

End Pipeline.

(** ** The inactivity threshold *)
Module Threshold.
Import JS Background Spec.

Section Commute.
Variable f : World → World.

Lemma commutes_ret {A} (a : A) : commutes_with f (ret a).
Proof. intros w. reflexivity. Qed.

Lemma commutes_bind {A B} (m : M A) (k : A → M B) :
  commutes_with f m → (∀ a, commutes_with f (k a)) → commutes_with f (bind m k).
Proof.
  intros Hm Hk w. unfold bind. rewrite Hm.
  destruct (m w) as [[a|e] w']; simpl; [apply Hk | reflexivity].
Qed.

Lemma commutes_try_catch {A} (m : M A) (k : JsError → M A) :
  commutes_with f m → (∀ e, commutes_with f (k e)) → commutes_with f (try_catch m k).
Proof.
  intros Hm Hk w. unfold try_catch. rewrite Hm.
  destruct (m w) as [[a|e] w']; simpl; [reflexivity | apply Hk].
Qed.

End Commute.

(** All that the pipeline and the scan call, but chrome.tabs.remove, touches
    neither the stored threshold nor the open tabs. *)
Section Untouched.
Variable f : World → World.
Variable env : Env.
Hypothesis f_ticks : ∀ w, w_ticks (f w) = w_ticks w.
Hypothesis f_tabMetadata : ∀ w, w_tabMetadata (f w) = w_tabMetadata w.
Hypothesis f_closedItems : ∀ w, w_closedItems (f w) = w_closedItems w.
Hypothesis f_set_ticks : ∀ n w, f (set_ticks n w) = set_ticks n (f w).
Hypothesis f_set_tabMetadata : ∀ m w, f (set_tabMetadata m w) = set_tabMetadata m (f w).
Hypothesis f_set_closedItems : ∀ l w, f (set_closedItems l w) = set_closedItems l (f w).
Hypothesis f_record_call : ∀ c w, f (record_call c w) = record_call c (f w).

Lemma commutes_date_now : commutes_with f (Chrome.date_now env).
Proof. intros w. unfold Chrome.date_now. simpl. by rewrite f_ticks, f_set_ticks. Qed.

Lemma commutes_loadTabMetadata : commutes_with f (loadTabMetadata env).
Proof.
  intros w. unfold loadTabMetadata, Chrome.storage_get_tabMetadata; unfold bind, ret.
  destruct (storage_get_fails env _); simpl; by rewrite ?f_tabMetadata.
Qed.

Lemma commutes_saveTabMetadata md : commutes_with f (saveTabMetadata env md).
Proof.
  intros w. unfold saveTabMetadata, Chrome.storage_set_tabMetadata. cbn beta zeta.
  destruct (storage_set_fails env _); simpl;
    by rewrite ?f_set_tabMetadata, f_record_call.
Qed.

Lemma commutes_loadClosedItems : commutes_with f (loadClosedItems env).
Proof.
  intros w. unfold loadClosedItems, Chrome.storage_get_closedItems; unfold bind, ret.
  destruct (storage_get_fails env _); simpl; by rewrite ?f_closedItems.
Qed.

Lemma commutes_saveClosedItems l : commutes_with f (saveClosedItems env l).
Proof.
  intros w. unfold saveClosedItems, Chrome.storage_set_closedItems. cbn beta zeta.
  destruct (storage_set_fails env _); simpl;
    by rewrite ?f_set_closedItems, f_record_call.
Qed.

Lemma commutes_fetch_append item : commutes_with f (Chrome.fetch_append env item).
Proof.
  intros w. unfold Chrome.fetch_append. cbn beta zeta.
  destruct (fetch_fails env item); simpl; by rewrite f_record_call.
Qed.

Lemma commutes_sendMessage item :
  commutes_with f (Chrome.runtime_sendMessage env item).
Proof.
  intros w. unfold Chrome.runtime_sendMessage. cbn beta zeta.
  destruct (send_fails env item); simpl; by rewrite f_record_call.
Qed.

(** The pipeline, given that closing the tab commutes too. *)
Lemma commutes_closeAndLogTab tab metaEntry :
  commutes_with f (Chrome.tabs_remove env (tab_id tab)) →
  commutes_with f (closeAndLogTab env tab metaEntry).
Proof.
  intros Hremove.
  destruct metaEntry as [e|]; unfold closeAndLogTab; [|apply commutes_ret].
  repeat first
    [ exact Hremove
    | apply commutes_ret | apply commutes_date_now | apply commutes_loadClosedItems
    | apply commutes_saveClosedItems | apply commutes_fetch_append
    | apply commutes_sendMessage
    | apply commutes_bind; [|intros ?]
    | apply commutes_try_catch; [|intros ?] ].
Qed.

End Untouched.

Lemma commutes_tabs_remove_threshold h env id :
  commutes_with (set_inactivityThresholdHours h) (Chrome.tabs_remove env id).
Proof.
  intros w. unfold Chrome.tabs_remove. simpl.
  destruct (tabs_remove_fails env id); [reflexivity|].
  destruct (bool_decide _); reflexivity.
Qed.

Lemma commutes_stale_loop_threshold h env now tabs :
  ∀ md, commutes_with (set_inactivityThresholdHours h) (stale_loop env now tabs md).
Proof.
  induction tabs as [|tab rest IH]; intros md; cbn [stale_loop]; [apply commutes_ret|].
  destruct (tab_pinned tab); [apply IH|].
  destruct (negb (isSupportedHttpUrl env (tab_url tab))); [apply IH|].
  destruct (_ <=? _)%Z; [|apply IH].
  apply commutes_bind; [|intros _; apply IH].
  apply commutes_closeAndLogTab; try reflexivity.
  apply commutes_tabs_remove_threshold.
Qed.

(** The scan runs the same whatever hours are stored: it never consults the
    key that the options page writes. *)
Lemma checkForStaleTabs_ignores_threshold h env :
  commutes_with (set_inactivityThresholdHours h) (checkForStaleTabs env).
Proof.
  unfold checkForStaleTabs.
  apply commutes_bind; [by intros w|intros tabs].
  apply commutes_bind; [by apply commutes_loadTabMetadata|intros md].
  apply commutes_bind; [by apply commutes_date_now|intros now].
  apply commutes_bind; [apply commutes_stale_loop_threshold|intros md'].
  by apply commutes_saveTabMetadata.
Qed.

(** C2, on the code: the options page saves a window of 1 hour, the tab has
    been inactive for 2 hours, and the scan closes nothing: it compares
    against the constant 24 hours. *)
Theorem stale_scan_compares_against_constant :
  let env := Scenario.calm (3 * Scenario.HOUR) in
  let w0 := Scenario.world [Scenario.tab_x]
                           (Some (Scenario.metadata_x Scenario.HOUR)) None None in
  let w1 := (Options.saveInactivityThreshold env (Some 1%Z) w0).2 in
  let r := checkForStaleTabs env w1 in
  w_inactivityThresholdHours w1 = Some 1%Z ∧
  (clock env (w_ticks w1) - lastActiveAt (Scenario.record_x Scenario.HOUR)
     >= 1 * Scenario.HOUR)%Z ∧
  r.1 = Returned tt ∧
  calls_since w1 r.2 = [CallStorageSet TAB_METADATA_KEY] ∧
  w_tabs r.2 = [Scenario.tab_x] ∧
  stored_metadata r.2 !! key_of 7 = Some (Scenario.record_x Scenario.HOUR) ∧
  w_closedItems r.2 = None.
Proof. vm_compute. repeat split; (reflexivity || discriminate). Qed.

End Threshold.

(** ** The markdown of the options page *)
Module MarkdownFacts.
Import JS Options Markdown.

Lemma or_opt_empty t : or_opt (Some t) "" = t.
Proof. destruct t; reflexivity. Qed.

Lemma app_two_chars (a b : Ascii.ascii) s :
  String a (String b EmptyString) +:+ s = String a (String b s).
Proof. reflexivity. Qed.

Lemma replace_closing_after_opening s :
  replace_char "]"%char "\]" (replace_char "["%char "\[" s) = escape_brackets s.
Proof.
  induction s as [|a rest IH]; [reflexivity|]. cbn [replace_char escape_brackets].
  destruct (Ascii.eqb_spec a "["%char) as [->|Hopen].
  - rewrite app_two_chars. cbn. by rewrite IH.
  - cbn [replace_char].
    destruct (Ascii.eqb_spec a "]"%char) as [->|Hclose];
      rewrite ?app_two_chars; cbn; by rewrite IH.
Qed.

(** Each [[] becomes [\[] and each []] becomes [\]], nothing else changes. *)
Lemma escapeMarkdownLinkText_single_pass t :
  escapeMarkdownLinkText (Some t) = escape_brackets t.
Proof.
  unfold escapeMarkdownLinkText. rewrite or_opt_empty.
  apply replace_closing_after_opening.
Qed.

Lemma escape_brackets_head_not_bracket s c rest :
  escape_brackets s = String c rest →
  Ascii.eqb c "["%char || Ascii.eqb c "]"%char = false.
Proof.
  destruct s as [|a s]; [discriminate|]. cbn [escape_brackets].
  destruct (Ascii.eqb_spec a "["%char) as [->|Hopen]; [by intros [= <- _]|].
  destruct (Ascii.eqb_spec a "]"%char) as [->|Hclose]; [by intros [= <- _]|].
  intros [= <- _].
  destruct (Ascii.eqb_spec a "["%char); [done|].
  destruct (Ascii.eqb_spec a "]"%char); done.
Qed.

(** The original title is recoverable from the escaped text. *)
Lemma unescape_escape_brackets t :
  unescape_brackets (escape_brackets t) = t.
Proof.
  induction t as [|a rest IH]; [reflexivity|]. cbn [escape_brackets].
  destruct (Ascii.eqb_spec a "["%char) as [->|Hopen]; [cbn; by rewrite IH|].
  destruct (Ascii.eqb_spec a "]"%char) as [->|Hclose]; [cbn; by rewrite IH|].
  cbn [unescape_brackets]. rewrite IH.
  destruct (escape_brackets rest) as [|c rest'] eqn:Hesc.
  - destruct rest as [|b rest]; [done|]. cbn [escape_brackets] in Hesc.
    repeat case_match; discriminate.
  - by rewrite (escape_brackets_head_not_bracket _ _ _ Hesc), andb_false_r.
Qed.

Lemma escapeMarkdownLinkText_inj t1 t2 :
  escapeMarkdownLinkText (Some t1) = escapeMarkdownLinkText (Some t2) → t1 = t2.
Proof.
  rewrite !escapeMarkdownLinkText_single_pass. intros H.
  by rewrite <- (unescape_escape_brackets t1), H, unescape_escape_brackets.
Qed.

Lemma link_text_ok_escape_brackets t :
  has_backslash t = false →
  ∀ depth, link_text_ok depth false (escape_brackets t) = Nat.eqb depth 0.
Proof.
  induction t as [|a rest IH]; intros Hbs depth; [reflexivity|].
  cbn [has_backslash] in Hbs. apply orb_false_iff in Hbs as [Ha Hrest].
  cbn [escape_brackets].
  destruct (Ascii.eqb_spec a "["%char) as [->|Hopen]; [cbn; by apply IH|].
  destruct (Ascii.eqb_spec a "]"%char) as [->|Hclose]; [cbn; by apply IH|].
  cbn [link_text_ok]. rewrite Ha.
  destruct (Ascii.eqb_spec a "["%char); [done|].
  destruct (Ascii.eqb_spec a "]"%char); [done|]. by apply IH.
Qed.

(** A title without a backslash is escaped into valid link text. *)
Lemma escaped_title_valid t :
  has_backslash t = false →
  valid_link_text (escapeMarkdownLinkText (Some t)) = true.
Proof.
  intros H. rewrite escapeMarkdownLinkText_single_pass.
  unfold valid_link_text. by rewrite link_text_ok_escape_brackets.
Qed.

(** C9, on the code: the backslash of a title is not escaped, so in the
    title [regex \]] the backslash that the escaping adds is read as escaped
    by the one before it, and the bracket closes the link text early. *)
Theorem escaped_backslash_bracket_breaks_link :
  let item := mkClosedItem 1 2 "http://x" "regex \]" in
  escapeMarkdownLinkText (Some (item_title item)) = "regex \\]" ∧
  valid_link_text (escapeMarkdownLinkText (Some (item_title item))) = false ∧
  buildMarkdownFromItems (λ _, "1970-01-01") (λ _, "10:00") 0 [item]
    = String.concat newline
        [ "## 1970-01-01"; "";
          "- [ ] [regex \\]](http://x)  ";
          "  Closed at: 10:00"; "" ].
Proof. vm_compute. repeat split; reflexivity. Qed.

End MarkdownFacts.

(** ** The listeners and tabs that do not qualify *)
Module Listeners.
Import JS Background Spec.

Lemma tabs_get_found env id w t w' :
  Chrome.tabs_get env id w = (Returned t, w') →
  w' = w ∧ t ∈ w_tabs w ∧ tab_id t = id.
Proof.
  unfold Chrome.tabs_get. destruct (tabs_get_fails env id); [discriminate|].
  destruct (find _ _) as [t'|] eqn:Hfind; [|discriminate].
  intros [= -> ->]. apply find_some in Hfind as [Hin Hid].
  split; [reflexivity|]. split; [by apply list_elem_of_In|].
  by apply bool_decide_eq_true in Hid.
Qed.

(** C4, as stated, fails: the tab that moved to chrome://settings still has
    its record retitled by onUpdated. *)
Lemma handleTabUpdated_retitles_nonqualifying :
  let env := Scenario.calm 5 in
  let tab := Scenario.tab_settings in
  let w := Scenario.world [tab] (Some (Scenario.metadata_x 1)) None None in
  let changeInfo := mkChangeInfo (Some "chrome://settings") None None in
  let w' := (handleTabUpdated env 7 changeInfo tab w).2 in
  isSupportedHttpUrl env (tab_url tab) = false ∧
  stored_metadata w !! key_of 7 = Some (mkTabRecord 1 1 "http://x" "http://x" "X") ∧
  stored_metadata w' !! key_of 7
    = Some (mkTabRecord 1 1 "http://x" "http://x" "Settings").
Proof. vm_compute. repeat split; reflexivity. Qed.

(** C4, amended: for a tab whose URL does not qualify, no listener creates a
    record; onCreated leaves the world as it is; onUpdated leaves openedAt,
    lastActiveAt, firstUrl and currentUrl of an existing record as they are
    (the title may change); onActivated leaves openedAt, firstUrl,
    currentUrl and title of an existing record as they are (lastActiveAt is
    bumped). *)
Theorem nonqualifying_tab_record_kept env tab w :
  isSupportedHttpUrl env (tab_url tab) = false →
  (∀ t, t ∈ w_tabs w → tab_id t = tab_id tab → t = tab) →
  let key := key_of (tab_id tab) in
  (handleTabCreated env tab w).2 = w ∧
  (∀ changeInfo,
     let w' := (handleTabUpdated env (tab_id tab) changeInfo tab w).2 in
     match stored_metadata w !! key with
     | None => stored_metadata w' !! key = None
     | Some e =>
         ∃ e', stored_metadata w' !! key = Some e' ∧
               openedAt e' = openedAt e ∧ lastActiveAt e' = lastActiveAt e ∧
               firstUrl e' = firstUrl e ∧ currentUrl e' = currentUrl e
     end) ∧
  (let w' := (onActivated env (tab_id tab) w).2 in
   match stored_metadata w !! key with
   | None => stored_metadata w' !! key = None
   | Some e =>
       ∃ e', stored_metadata w' !! key = Some e' ∧
             openedAt e' = openedAt e ∧ firstUrl e' = firstUrl e ∧
             currentUrl e' = currentUrl e ∧ title e' = title e
   end).
Proof.
  intros Hurl Honly key. subst key. unfold stored_metadata. split; [|split].
  - unfold handleTabCreated. by rewrite Hurl.
  - intros changeInfo. unfold handleTabUpdated.
    destruct (_ && _).
    { simpl. destruct (default ∅ (w_tabMetadata w) !! _) as [e|]; eauto 10. }
    unfold loadTabMetadata, saveTabMetadata, Chrome.storage_get_tabMetadata,
      Chrome.storage_set_tabMetadata; unfold bind, ret.
    destruct (storage_get_fails env TAB_METADATA_KEY).
    { simpl. destruct (default ∅ (w_tabMetadata w) !! _) as [e|]; eauto 10. }
    cbn beta iota.
    destruct (default ∅ (w_tabMetadata w) !! _) as [e|] eqn:Hkey; rewrite Hurl; simpl.
    + destruct (storage_set_fails env TAB_METADATA_KEY); simpl.
      * rewrite Hkey. eauto 10.
      * rewrite lookup_insert_eq.
        eexists; split; [reflexivity|]. by destruct (truthy_opt _).
    + exact Hkey.
  - unfold onActivated, loadTabMetadata, saveTabMetadata,
      Chrome.storage_get_tabMetadata, Chrome.storage_set_tabMetadata,
      Chrome.date_now; unfold bind, try_catch, ret.
    destruct (storage_get_fails env TAB_METADATA_KEY).
    { simpl. destruct (default ∅ (w_tabMetadata w) !! _) as [e|]; eauto 10. }
    cbn beta iota.
    destruct (default ∅ (w_tabMetadata w) !! _) as [e|] eqn:Hkey; simpl.
    + destruct (storage_set_fails env TAB_METADATA_KEY); simpl.
      * rewrite Hkey. eauto 10.
      * rewrite lookup_insert_eq. eauto 10.
    + destruct (Chrome.tabs_get env (tab_id tab) _) as [[t|err] w1] eqn:Hget; simpl.
      * apply tabs_get_found in Hget as (-> & Hin & Hid). simpl in Hin.
        rewrite (Honly t Hin Hid), Hurl. simpl. exact Hkey.
      * assert (w_tabMetadata w1 = w_tabMetadata w) as ->; [|exact Hkey].
        unfold Chrome.tabs_get in Hget.
        destruct (tabs_get_fails env _); [by injection Hget as _ <-|].
        destruct (find _ _); [discriminate|]. by injection Hget as _ <-.
Qed.

Lemma nonqualifying_tab_record_kept_witness :
  let env := Scenario.calm 5 in
  let tab := Scenario.tab_settings in
  let w := Scenario.world [tab] (Some (Scenario.metadata_x 1)) None None in
  ∃ e', stored_metadata
          (handleTabUpdated env 7 (mkChangeInfo (Some "chrome://settings") None None)
                            tab w).2 !! key_of 7 = Some e' ∧
        openedAt e' = 1%Z ∧ lastActiveAt e' = 1%Z ∧
        firstUrl e' = "http://x" ∧ currentUrl e' = "http://x".
Proof.
  pose proof (nonqualifying_tab_record_kept (Scenario.calm 5) Scenario.tab_settings
                (Scenario.world [Scenario.tab_settings]
                                (Some (Scenario.metadata_x 1)) None None)) as H.
  destruct H as (_ & Hupd & _).
  - reflexivity.
  - intros t Hin _. apply list_elem_of_singleton in Hin. exact Hin.
  - exact (Hupd (mkChangeInfo (Some "chrome://settings") None None)).
Defined.

End Listeners.

(** ** The order of the two timestamps *)
Module Invariant.
Import JS Background Spec.
#[local] Open Scope Z_scope.

Lemma record_ok_mono b b' e : b ≤ b' → record_ok b e → record_ok b' e.
Proof. unfold record_ok. lia. Qed.

Lemma all_ok_mono b b' md : b ≤ b' → all_ok b md → all_ok b' md.
Proof.
  intros Hb Hmd k e Hk. eapply record_ok_mono; [exact Hb | exact (Hmd k e Hk)].
Qed.

Lemma all_ok_insert b md k e : record_ok b e → all_ok b md → all_ok b (<[k:=e]> md).
Proof. intros He Hmd. by apply map_Forall_insert_2. Qed.

Lemma all_ok_delete b md k : all_ok b md → all_ok b (delete k md).
Proof. apply map_Forall_delete. Qed.

Lemma all_ok_empty b : all_ok b ∅.
Proof. apply map_Forall_empty. Qed.

Lemma record_ok_fresh now u1 u2 t : record_ok now (mkTabRecord now now u1 u2 t).
Proof. unfold record_ok. simpl. lia. Qed.

(** A world that differs in something else than the metadata and whose
    clock was read further is as good. *)
Lemma store_ok_later env w w' :
  clock_monotone env →
  w_tabMetadata w' = w_tabMetadata w → (w_ticks w ≤ w_ticks w')%nat →
  store_ok env w → store_ok env w'.
Proof.
  intros Hmono Hmeta Hticks. unfold store_ok, stored_metadata. rewrite Hmeta.
  apply all_ok_mono. by apply Hmono.
Qed.

(** Saving a good map gives a good store, whether or not the write fails. *)
Lemma store_ok_save env md w :
  store_ok env w → all_ok (clock env (w_ticks w)) md →
  store_ok env (saveTabMetadata env md w).2.
Proof.
  intros Hw Hmd. unfold saveTabMetadata, Chrome.storage_set_tabMetadata.
  destruct (storage_set_fails env TAB_METADATA_KEY); simpl; [exact Hw | exact Hmd].
Qed.

Lemma keeps_ret {A} (a : A) : keeps_metadata (ret a).
Proof. intros w. simpl. split; [reflexivity | lia]. Qed.

Lemma keeps_bind {A B} (m : M A) (k : A → M B) :
  keeps_metadata m → (∀ a, keeps_metadata (k a)) → keeps_metadata (bind m k).
Proof.
  intros Hm Hk w. unfold bind. specialize (Hm w).
  destruct (m w) as [[a|e] w1]; simpl in *; [|exact Hm].
  destruct Hm as [Hm1 Hm2], (Hk a w1) as [Hmeta Hticks]. split; [congruence | lia].
Qed.

Lemma keeps_try_catch {A} (m : M A) (k : JsError → M A) :
  keeps_metadata m → (∀ e, keeps_metadata (k e)) → keeps_metadata (try_catch m k).
Proof.
  intros Hm Hk w. unfold try_catch. specialize (Hm w).
  destruct (m w) as [[a|e] w1]; simpl in *; [exact Hm|].
  destruct Hm as [Hm1 Hm2], (Hk e w1) as [Hmeta Hticks]. split; [congruence | lia].
Qed.

Ltac keeps_primitive :=
  let w := fresh "w" in
  intros w; cbn beta iota;
  repeat match goal with
         | |- context [if ?b then _ else _] => destruct b
         end;
  simpl; split; first [reflexivity | lia].

Lemma keeps_date_now env : keeps_metadata (Chrome.date_now env).
Proof. keeps_primitive. Qed.

Lemma keeps_tabs_remove env id : keeps_metadata (Chrome.tabs_remove env id).
Proof. unfold Chrome.tabs_remove. keeps_primitive. Qed.

Lemma keeps_loadClosedItems env : keeps_metadata (loadClosedItems env).
Proof.
  unfold loadClosedItems, Chrome.storage_get_closedItems; unfold bind, ret.
  keeps_primitive.
Qed.

Lemma keeps_saveClosedItems env l : keeps_metadata (saveClosedItems env l).
Proof. unfold saveClosedItems, Chrome.storage_set_closedItems. keeps_primitive. Qed.

Lemma keeps_fetch_append env item : keeps_metadata (Chrome.fetch_append env item).
Proof. unfold Chrome.fetch_append. keeps_primitive. Qed.

Lemma keeps_sendMessage env item : keeps_metadata (Chrome.runtime_sendMessage env item).
Proof. unfold Chrome.runtime_sendMessage. keeps_primitive. Qed.

Create HintDb keeps discriminated.
#[local] Hint Resolve keeps_ret keeps_date_now keeps_tabs_remove
  keeps_loadClosedItems keeps_saveClosedItems keeps_fetch_append
  keeps_sendMessage : keeps.

Ltac keeps_step :=
  first [ solve [auto with keeps]
        | apply keeps_bind; [|intros ?]
        | apply keeps_try_catch; [|intros ?] ].

(** The pipeline never writes the metadata: the scan does that afterwards. *)
Lemma keeps_closeAndLogTab env tab metaEntry :
  keeps_metadata (closeAndLogTab env tab metaEntry).
Proof.
  destruct metaEntry as [e|]; unfold closeAndLogTab; [|apply keeps_ret].
  repeat keeps_step.
Qed.

(** Nor does the loop of the scan. *)
Lemma keeps_stale_loop env now tabs :
  ∀ md, keeps_metadata (stale_loop env now tabs md).
Proof.
  induction tabs as [|tab rest IH]; intros md; cbn [stale_loop]; [apply keeps_ret|].
  destruct (tab_pinned tab); [apply IH|].
  destruct (negb (isSupportedHttpUrl env (tab_url tab))); [apply IH|].
  destruct (_ <=? _); [|apply IH].
  apply keeps_bind; [apply keeps_closeAndLogTab | intros _; apply IH].
Qed.

(** The loop of the scan keeps the local map good and writes nothing. *)
Lemma stale_loop_ok env now tabs :
  ∀ md w, all_ok now md →
    let r := stale_loop env now tabs md w in
    w_tabMetadata r.2 = w_tabMetadata w ∧ (w_ticks w ≤ w_ticks r.2)%nat ∧
    ∀ md', r.1 = Returned md' → all_ok now md'.
Proof.
  induction tabs as [|tab rest IH]; intros md w Hmd; cbn [stale_loop].
  { simpl. split; [reflexivity|]. split; [lia|]. by intros md' [= <-]. }
  destruct (tab_pinned tab); [by apply IH|].
  destruct (negb (isSupportedHttpUrl env (tab_url tab))); [by apply IH|].
  set (key := key_of (tab_id tab)).
  set (entry := match md !! key with Some entry => entry | None => _ end).
  set (md1 := match md !! key with Some _ => md | None => _ end).
  assert (all_ok now md1) as Hmd1.
  { subst md1. destruct (md !! key); [exact Hmd|].
    apply all_ok_insert; [apply record_ok_fresh | exact Hmd]. }
  destruct (_ <=? _); [|by apply IH].
  unfold bind.
  destruct (keeps_closeAndLogTab env tab (Some entry) w) as [Hmeta Hticks].
  destruct (closeAndLogTab env tab (Some entry) w) as [[[]|err] w1]; simpl in *.
  - destruct (IH (delete key md1) w1 (all_ok_delete _ _ _ Hmd1)) as (H1 & H2 & H3).
    split; [congruence|]. split; [lia | exact H3].
  - split; [exact Hmeta|]. split; [exact Hticks | discriminate].
Qed.

Lemma initialise_loop_ok env now tabs :
  ∀ md changed, all_ok now md → all_ok now (initialise_loop env now tabs md changed).1.
Proof.
  induction tabs as [|tab rest IH]; intros md changed Hmd; cbn [initialise_loop];
    [exact Hmd|].
  destruct (negb _); [by apply IH|].
  destruct (md !! _); [by apply IH|].
  apply IH, all_ok_insert; [apply record_ok_fresh | exact Hmd].
Qed.

Section Preserved.
Variable env : Env.
Hypothesis Hmono : clock_monotone env.

Lemma clock_next (w : World) : clock env (w_ticks w) ≤ clock env (S (w_ticks w)).
Proof. apply Hmono. lia. Qed.

Lemma loaded_ok w : store_ok env w → all_ok (clock env (S (w_ticks w))) (default ∅ (w_tabMetadata w)).
Proof. apply all_ok_mono, clock_next. Qed.

Lemma fresh_ok w u1 u2 t :
  record_ok (clock env (S (w_ticks w)))
            (mkTabRecord (clock env (w_ticks w)) (clock env (w_ticks w)) u1 u2 t).
Proof. eapply record_ok_mono; [apply clock_next | apply record_ok_fresh]. Qed.

Lemma store_ok_tick w : store_ok env w → store_ok env (set_ticks (S (w_ticks w)) w).
Proof. intros H. apply (store_ok_later env w); simpl; auto. Qed.

Ltac unfold_storage :=
  unfold loadTabMetadata, Chrome.storage_get_tabMetadata, Chrome.date_now,
    Chrome.tabs_query; unfold bind, try_catch, ret; cbn beta iota.

Lemma handleTabCreated_ok tab w :
  store_ok env w → store_ok env (handleTabCreated env tab w).2.
Proof.
  intros Hw. unfold handleTabCreated. destruct (negb _); [exact Hw|].
  unfold_storage. destruct (storage_get_fails env _); [exact Hw|]. cbn beta iota.
  apply store_ok_save; [by apply store_ok_tick|]. simpl.
  apply all_ok_insert; [apply fresh_ok | by apply loaded_ok].
Qed.

Lemma handleTabUpdated_ok tabId changeInfo tab w :
  store_ok env w → store_ok env (handleTabUpdated env tabId changeInfo tab w).2.
Proof.
  intros Hw. unfold handleTabUpdated. destruct (_ && _); [exact Hw|].
  unfold_storage. destruct (storage_get_fails env _); [exact Hw|]. cbn beta iota.
  destruct (default ∅ (w_tabMetadata w) !! key_of tabId) as [e|] eqn:Hkey.
  - apply store_ok_save; [exact Hw|].
    apply all_ok_insert; [|exact Hw].
    assert (Hrec := Hw _ _ Hkey).
    destruct (isSupportedHttpUrl env _), (truthy_opt _); exact Hrec.
  - destruct (negb _); [exact Hw|]. cbn beta iota.
    apply store_ok_save; [by apply store_ok_tick|]. simpl.
    apply all_ok_insert; [apply fresh_ok | by apply loaded_ok].
Qed.

Lemma handleTabRemoved_ok tabId w :
  store_ok env w → store_ok env (handleTabRemoved env tabId w).2.
Proof.
  intros Hw. unfold handleTabRemoved.
  unfold_storage. destruct (storage_get_fails env _); [exact Hw|]. cbn beta iota.
  destruct (default ∅ (w_tabMetadata w) !! key_of tabId); [|exact Hw].
  apply store_ok_save; [exact Hw|]. by apply all_ok_delete.
Qed.

Lemma onActivated_ok tabId w :
  store_ok env w → store_ok env (onActivated env tabId w).2.
Proof.
  intros Hw. unfold onActivated.
  unfold_storage. destruct (storage_get_fails env _); [exact Hw|]. cbn beta iota.
  destruct (default ∅ (w_tabMetadata w) !! key_of tabId) as [e|] eqn:Hkey.
  - apply store_ok_save; [by apply store_ok_tick|]. simpl.
    apply all_ok_insert; [|by apply loaded_ok].
    destruct (Hw _ _ Hkey) as [H1 H2].
    pose proof (clock_next w). unfold record_ok. simpl. lia.
  - unfold Chrome.tabs_get. cbn [w_tabs set_ticks].
    destruct (tabs_get_fails env tabId); [by apply store_ok_tick|].
    destruct (find _ _) as [t|]; [|by apply store_ok_tick]. cbn beta iota.
    destruct (negb _); cbn beta iota; [by apply store_ok_tick|].
    apply store_ok_save; [by apply store_ok_tick|]. simpl.
    apply all_ok_insert; [apply fresh_ok | by apply loaded_ok].
Qed.

Lemma initialiseExistingTabs_ok w :
  store_ok env w → store_ok env (initialiseExistingTabs env w).2.
Proof.
  intros Hw. unfold initialiseExistingTabs.
  unfold_storage. destruct (storage_get_fails env _); [exact Hw|]. cbn beta iota.
  destruct (initialise_loop env _ _ _ _).2 eqn:Hchanged; [|by apply store_ok_tick].
  apply store_ok_save; [by apply store_ok_tick|]. simpl.
  eapply all_ok_mono; [apply clock_next|]. by apply initialise_loop_ok.
Qed.

Lemma ensureAlarm_keeps : keeps_metadata ensureAlarm.
Proof.
  intros w. unfold ensureAlarm, Chrome.alarms_get, Chrome.alarms_create; unfold bind, ret.
  cbn beta iota. destruct (w_alarms w !! ALARM_NAME); simpl; split; (reflexivity || lia).
Qed.

Lemma onInstalled_ok w : store_ok env w → store_ok env (onInstalled env w).2.
Proof.
  intros Hw. unfold onInstalled, bind.
  destruct (ensureAlarm_keeps w) as [Hmeta Hticks].
  destruct (ensureAlarm w) as [[[]|err] w1]; simpl in *.
  - apply initialiseExistingTabs_ok. by apply (store_ok_later env w).
  - by apply (store_ok_later env w).
Qed.

Lemma checkForStaleTabs_ok w :
  store_ok env w → store_ok env (checkForStaleTabs env w).2.
Proof.
  intros Hw. unfold checkForStaleTabs.
  unfold_storage. destruct (storage_get_fails env _); [exact Hw|]. cbn beta iota.
  set (w1 := set_ticks (S (w_ticks w)) w).
  destruct (stale_loop_ok env (clock env (w_ticks w)) (w_tabs w)
              (default ∅ (w_tabMetadata w)) w1 Hw) as (Hmeta & Hticks & Hmd).
  destruct (stale_loop env _ _ _ w1) as [[md'|err] w2]; simpl in *.
  - apply store_ok_save.
    + apply (store_ok_later env w); auto. lia.
    + eapply all_ok_mono; [|by apply Hmd]. apply Hmono. lia.
  - apply (store_ok_later env w); auto. lia.
Qed.

Lemma dispatch_ok ev w : store_ok env w → store_ok env (dispatch env ev w).
Proof.
  intros Hw. destruct ev; cbn [dispatch].
  - by apply onInstalled_ok.
  - by apply onInstalled_ok.
  - unfold onAlarm. destruct (bool_decide _); [by apply checkForStaleTabs_ok | exact Hw].
  - by apply handleTabCreated_ok.
  - by apply onActivated_ok.
  - by apply handleTabUpdated_ok.
  - by apply handleTabRemoved_ok.
  - exact Hw.
Qed.

Lemma run_ok evs : ∀ w, store_ok env w → store_ok env (run env evs w).
Proof.
  induction evs as [|ev evs IH]; intros w Hw; [exact Hw|].
  apply IH. by apply dispatch_ok.
Qed.

End Preserved.

(** With a clock that never goes back, and starting from a store with no
    metadata yet, whatever events the listeners, the initializer and the
    scan handle, every stored record has lastActiveAt >= openedAt. *)
Theorem lastActiveAt_not_before_openedAt env w0 evs k e :
  clock_monotone env →
  w_tabMetadata w0 = None →
  stored_metadata (run env evs w0) !! k = Some e →
  openedAt e ≤ lastActiveAt e.
Proof.
  intros Hmono Hfresh Hk.
  assert (store_ok env w0) as H0.
  { unfold store_ok, stored_metadata. rewrite Hfresh. apply all_ok_empty. }
  apply (run_ok env Hmono evs w0) in H0.
  by destruct (H0 _ _ Hk).
Qed.

Lemma lastActiveAt_not_before_openedAt_witness :
  let e := mkTabRecord 1000 3000 "http://x" "http://x" "X" in
  openedAt e ≤ lastActiveAt e.
Proof.
  apply (lastActiveAt_not_before_openedAt Scenario.ticking
           (Scenario.world [Scenario.tab_x] None None None)
           [TabCreated Scenario.tab_x; TabActivated 7; TabActivated 7;
            AlarmFired ALARM_NAME]
           (key_of 7)).
  - intros m n Hmn. simpl. lia.
  - reflexivity.
  - vm_compute. reflexivity.
Defined.

End Invariant.

(** ** The initializer *)
Module Initializer.
Import JS Background Spec.

Lemma initialise_loop_covered env now tabs :
  ∀ md changed, covered env tabs md →
    initialise_loop env now tabs md changed = (md, changed).
Proof.
  induction tabs as [|tab rest IH]; intros md changed Hcov; cbn [initialise_loop];
    [reflexivity|].
  assert (covered env rest md) as Hrest.
  { intros t Ht. apply Hcov. by apply list_elem_of_further. }
  destruct (isSupportedHttpUrl env (tab_url tab)) eqn:Hurl; cbn [negb];
    [|by apply IH].
  destruct (Hcov tab (list_elem_of_here _ _) Hurl) as [e ->]. by apply IH.
Qed.

Lemma initialise_loop_keeps_keys env now tabs :
  ∀ md changed k, is_Some (md !! k) →
    is_Some ((initialise_loop env now tabs md changed).1 !! k).
Proof.
  induction tabs as [|tab rest IH]; intros md changed k Hk; cbn [initialise_loop];
    [exact Hk|].
  destruct (negb _); [by apply IH|].
  destruct (md !! key_of (tab_id tab)) eqn:Hkey; [by apply IH|].
  apply IH. rewrite lookup_insert_is_Some'. by right.
Qed.

Lemma initialise_loop_covers env now tabs :
  ∀ md changed, covered env tabs (initialise_loop env now tabs md changed).1.
Proof.
  induction tabs as [|tab rest IH]; intros md changed t Ht Hurl.
  { by apply elem_of_nil in Ht. }
  cbn [initialise_loop]. apply elem_of_cons in Ht as [->|Ht].
  - rewrite Hurl. cbn [negb].
    destruct (md !! key_of (tab_id tab)) eqn:Hkey.
    + apply initialise_loop_keeps_keys. by rewrite Hkey.
    + apply initialise_loop_keeps_keys. by rewrite lookup_insert_eq.
  - destruct (negb _); [by apply IH|].
    destruct (md !! key_of (tab_id tab)); by apply IH.
Qed.

Lemma initialise_loop_changed env now tabs :
  ∀ md, (initialise_loop env now tabs md true).2 = true.
Proof.
  induction tabs as [|tab rest IH]; intros md; cbn [initialise_loop]; [reflexivity|].
  destruct (negb _); [apply IH|]. destruct (md !! _); apply IH.
Qed.

Lemma initialise_loop_unchanged env now tabs :
  ∀ md, (initialise_loop env now tabs md false).2 = false →
        (initialise_loop env now tabs md false).1 = md.
Proof.
  induction tabs as [|tab rest IH]; intros md; cbn [initialise_loop]; [reflexivity|].
  destruct (negb _); [apply IH|]. destruct (md !! _); [apply IH|].
  by rewrite initialise_loop_changed.
Qed.

(** What a reconciliation that returned has established. *)
Lemma initialiseExistingTabs_returned env w :
  (initialiseExistingTabs env w).1 = Returned tt →
  let w1 := (initialiseExistingTabs env w).2 in
  storage_get_fails env TAB_METADATA_KEY = false ∧
  w_alarms w1 = w_alarms w ∧
  w_tabs w1 = w_tabs w ∧
  covered env (w_tabs w) (stored_metadata w1).
Proof.
  unfold initialiseExistingTabs, loadTabMetadata, saveTabMetadata, Chrome.tabs_query,
    Chrome.storage_get_tabMetadata, Chrome.storage_set_tabMetadata, Chrome.date_now;
    unfold bind, ret; cbn beta iota.
  destruct (storage_get_fails env TAB_METADATA_KEY); [discriminate|]. cbn beta iota.
  pose proof (initialise_loop_covers env (clock env (w_ticks w)) (w_tabs w)
                (default ∅ (w_tabMetadata w)) false) as Hcov.
  destruct (initialise_loop env _ _ _ false).2 eqn:Hchanged.
  - destruct (storage_set_fails env TAB_METADATA_KEY); simpl; [discriminate|]. auto.
  - rewrite (initialise_loop_unchanged _ _ _ _ Hchanged) in Hcov. simpl. auto.
Qed.

Lemma ensureAlarm_run w :
  ∃ wa, ensureAlarm w = (Returned tt, wa) ∧
        is_Some (w_alarms wa !! ALARM_NAME) ∧
        w_tabs wa = w_tabs w ∧ w_tabMetadata wa = w_tabMetadata w.
Proof.
  unfold ensureAlarm, Chrome.alarms_get, Chrome.alarms_create; unfold bind, ret.
  cbn beta iota. destruct (w_alarms w !! ALARM_NAME) as [a|] eqn:Halarm.
  - exists w. by rewrite Halarm.
  - eexists. split; [reflexivity|]. simpl. by rewrite lookup_insert_eq.
Qed.

(** What a first run that returned has established. *)
Lemma onInstalled_returned env w :
  (onInstalled env w).1 = Returned tt →
  let w1 := (onInstalled env w).2 in
  storage_get_fails env TAB_METADATA_KEY = false ∧
  is_Some (w_alarms w1 !! ALARM_NAME) ∧
  w_tabs w1 = w_tabs w ∧
  covered env (w_tabs w) (stored_metadata w1).
Proof.
  unfold onInstalled, bind.
  destruct (ensureAlarm_run w) as (wa & -> & Halarm & Htabs & Hmeta).
  intros Hret. destruct (initialiseExistingTabs_returned env wa Hret)
    as (Hget & Halarms & Htabs' & Hcov).
  rewrite Halarms, Htabs', <- Htabs. auto.
Qed.

(** C6: after a run of the initializer that returned, a second run over the
    same open tabs creates no alarm, inserts no record and writes nothing:
    it makes no call at all, and leaves the world as it was but for one more
    reading of the clock. *)
Theorem initializer_idempotent env w :
  (onInstalled env w).1 = Returned tt →
  let w1 := (onInstalled env w).2 in
  onStartup env w1 = (Returned tt, set_ticks (S (w_ticks w1)) w1) ∧
  calls_since w1 (onStartup env w1).2 = [].
Proof.
  intros Hfirst w1.
  destruct (onInstalled_returned env w Hfirst) as (Hget & [a Halarm] & Htabs & Hcov).
  fold w1 in Halarm, Htabs, Hcov.
  assert (onStartup env w1 = (Returned tt, set_ticks (S (w_ticks w1)) w1)) as Hsecond.
  { unfold onStartup, ensureAlarm, initialiseExistingTabs, loadTabMetadata,
      Chrome.alarms_get, Chrome.tabs_query, Chrome.storage_get_tabMetadata,
      Chrome.date_now; unfold bind, ret; cbn beta iota.
    rewrite Halarm, Hget. cbn beta iota.
    rewrite initialise_loop_covered; [reflexivity|].
    rewrite Htabs. exact Hcov. }
  split; [exact Hsecond|]. rewrite Hsecond. simpl.
  apply Pipeline.calls_since_app. by rewrite app_nil_r.
Qed.

Lemma initializer_idempotent_witness :
  let env := Scenario.calm 5 in
  let w := Scenario.world [Scenario.tab_x; Scenario.tab_settings] None None None in
  let w1 := (onInstalled env w).2 in
  onStartup env w1 = (Returned tt, set_ticks (S (w_ticks w1)) w1) ∧
  calls_since w1 (onStartup env w1).2 = [].
Proof.
  apply (initializer_idempotent (Scenario.calm 5)
           (Scenario.world [Scenario.tab_x; Scenario.tab_settings] None None None)).
  vm_compute. reflexivity.
Defined.

End Initializer.

(** ** The stale scan *)
Module Scan.
Import JS JSFacts Background Spec Pipeline.

Lemma key_of_inj id1 id2 : key_of id1 = key_of id2 → id1 = id2.
Proof. apply (inj pretty). Qed.

Lemma threshold_positive : (0 < STALE_THRESHOLD_MS)%Z.
Proof. reflexivity. Qed.

(** With a lastActiveAt other than 0, the scan measures from it. *)
Lemma inactive_since_lastActiveAt now e :
  lastActiveAt e ≠ 0%Z →
  or_num (or_num (lastActiveAt e) (openedAt e)) now = lastActiveAt e.
Proof. intros H. rewrite (or_num_nonzero _ (openedAt e) H). by apply or_num_nonzero. Qed.

(** A record made at [now] is never stale at [now]. *)
Lemma fresh_record_not_stale now u1 u2 t :
  is_stale_record now (mkTabRecord now now u1 u2 t) = false.
Proof.
  unfold is_stale_record, or_num. simpl.
  destruct (Z.eqb_spec now 0) as [->|Hnow]; simpl.
  - reflexivity.
  - destruct (Z.eqb_spec now 0); [contradiction|].
    apply Z.leb_gt. pose proof threshold_positive. lia.
Qed.

Lemma stale_entries_ext env now md1 md2 tabs :
  (∀ t, t ∈ tabs → md1 !! key_of (tab_id t) = md2 !! key_of (tab_id t)) →
  stale_entries env now md1 tabs = stale_entries env now md2 tabs.
Proof.
  induction tabs as [|tab rest IH]; intros Hagree; [reflexivity|].
  unfold stale_entries in *. cbn [omap list_omap].
  rewrite IH by (intros t Ht; apply Hagree; by apply list_elem_of_further).
  unfold stale_entry. by rewrite (Hagree tab (list_elem_of_here _ _)).
Qed.

Lemma stale_entries_elem env now md tabs t e :
  (t, e) ∈ stale_entries env now md tabs →
  t ∈ tabs ∧ md !! key_of (tab_id t) = Some e ∧ is_stale_record now e = true.
Proof.
  unfold stale_entries. rewrite list_elem_of_omap. intros (t0 & Ht0 & Hentry).
  unfold stale_entry in Hentry.
  destruct (tab_pinned t0); [discriminate|].
  destruct (negb _); [discriminate|].
  destruct (md !! key_of (tab_id t0)) as [e0|] eqn:Hkey; [|discriminate].
  destruct (is_stale_record now e0) eqn:Hstale; [|discriminate].
  by injection Hentry as <- <-.
Qed.

Lemma tabs_after_remove_subset env id tabs t :
  t ∈ tabs_after_remove env id tabs → t ∈ tabs.
Proof.
  unfold tabs_after_remove. destruct (tabs_remove_fails env id); [done|].
  destruct (bool_decide _); [|done]. rewrite list_elem_of_filter. by intros [_ ?].
Qed.

Lemma tabs_after_remove_gone env id tabs t :
  tabs_remove_fails env id = false →
  t ∈ tabs_after_remove env id tabs → tab_id t ≠ id.
Proof.
  unfold tabs_after_remove. intros ->.
  destruct (bool_decide _) eqn:Hmem.
  - rewrite list_elem_of_filter. by intros [? _].
  - apply bool_decide_eq_false in Hmem. intros Ht Hid. apply Hmem.
    rewrite list_elem_of_fmap. by exists t.
Qed.

(** The loop of the scan, when the queue can be read and written and the
    open tabs have distinct identifiers: it runs the pipeline once for each
    stale tab, in order, and drops their records from the local map. *)
Lemma stale_loop_spec env now :
  storage_get_fails env CLOSED_ITEMS_KEY = false →
  storage_set_fails env CLOSED_ITEMS_KEY = false →
  ∀ tabs, NoDup (tab_id <$> tabs) →
  ∀ md w, ∃ md' w',
    stale_loop env now tabs md w = (Returned md', w') ∧
    scan_post env tabs md w (stale_entries env now md tabs) md' w'.
Proof.
  intros Hget Hset tabs. induction tabs as [|tab rest IH]; intros Hnodup md w.
  { exists md, w. split; [reflexivity|]. unfold scan_post. simpl.
    rewrite !app_nil_r. repeat split; auto; try lia.
    - intros t e Hin. by apply elem_of_nil in Hin.
    - intros t e Hin. by apply elem_of_nil in Hin. }
  rewrite fmap_cons in Hnodup. apply NoDup_cons in Hnodup as [Hfresh Hnodup].
  specialize (IH Hnodup).
  assert (∀ t, t ∈ rest → key_of (tab_id t) ≠ key_of (tab_id tab)) as Hkeys.
  { intros t Ht Heq. apply key_of_inj in Heq. apply Hfresh.
    rewrite list_elem_of_fmap. by exists t. }
  (* a step that runs no pipeline and goes on with [md1] *)
  assert (∀ md1, (∀ k, k ≠ key_of (tab_id tab) → md1 !! k = md !! k) →
            stale_entry env now md tab = None →
            ∃ md' w', stale_loop env now rest md1 w = (Returned md', w') ∧
                      scan_post env (tab :: rest) md w
                                (stale_entries env now md (tab :: rest)) md' w')
    as Hskip.
  { intros md1 Hmd1 Hentry.
    destruct (IH md1 w) as (md' & w' & Hrun & Hpost). exists md', w'.
    split; [exact Hrun|].
    assert (stale_entries env now md (tab :: rest) = stale_entries env now md1 rest)
      as ->.
    { unfold stale_entries at 1. cbn [omap list_omap]. rewrite Hentry.
      apply stale_entries_ext. intros t Ht. symmetry. by apply Hmd1, Hkeys. }
    destruct Hpost as (H1 & H2 & H3 & H4 & H5 & H6 & H7 & H8).
    repeat split; auto.
    intros k Hk. rewrite H5.
    - apply Hmd1. intros ->. exact (Hk tab (list_elem_of_here _ _) eq_refl).
    - intros t Ht. by apply Hk, list_elem_of_further. }
  cbn [stale_loop].
  destruct (tab_pinned tab) eqn:Hpinned.
  { apply Hskip; [done|]. unfold stale_entry. by rewrite Hpinned. }
  destruct (isSupportedHttpUrl env (tab_url tab)) eqn:Hurl; cbn [negb].
  2:{ apply Hskip; [done|]. unfold stale_entry. by rewrite Hpinned, Hurl. }
  destruct (md !! key_of (tab_id tab)) as [e|] eqn:Hkey.
  2:{ change (STALE_THRESHOLD_MS <=? _)%Z
        with (is_stale_record now
                (mkTabRecord now now (or_opt (tab_url tab) "") (or_opt (tab_url tab) "")
                             (or_opt (tab_title tab) ""))).
      rewrite fresh_record_not_stale. apply Hskip.
      - intros k Hk. by rewrite lookup_insert_ne.
      - unfold stale_entry. by rewrite Hpinned, Hurl, Hkey. }
  change (STALE_THRESHOLD_MS <=? _)%Z with (is_stale_record now e).
  destruct (is_stale_record now e) eqn:Hstale.
  2:{ apply Hskip; [done|]. unfold stale_entry. by rewrite Hpinned, Hurl, Hkey, Hstale. }
  clear Hskip. unfold bind. rewrite (closeAndLogTab_run env tab e w Hget Hset).
  destruct (IH (delete (key_of (tab_id tab)) md) (pipeline_world env tab e w))
    as (md' & w' & Hrun & Hpost).
  exists md', w'. split; [exact Hrun|].
  assert (stale_entries env now md (tab :: rest)
          = (tab, e) :: stale_entries env now (delete (key_of (tab_id tab)) md) rest)
    as ->.
  { unfold stale_entries at 1. cbn [omap list_omap]. unfold stale_entry at 1.
    rewrite Hpinned, Hurl, Hkey, Hstale. cbn [negb]. f_equal.
    apply stale_entries_ext. intros t Ht. symmetry. by apply lookup_delete_ne, not_eq_sym, Hkeys. }
  destruct Hpost as (H1 & H2 & H3 & H4 & H5 & H6 & H7 & H8).
  unfold scan_post. cbn [length items_of calls_of].
  split; [rewrite H1; simpl; lia|].
  split; [rewrite H2; unfold stored_closedItems; simpl; by rewrite <- app_assoc|].
  split; [rewrite H3; simpl; by rewrite <- app_assoc|].
  split; [by rewrite H4|].
  assert (md' !! key_of (tab_id tab) = None) as Hgone.
  { rewrite H5; [apply lookup_delete_eq | exact Hkeys]. }
  split.
  { intros k Hk. rewrite H5.
    - apply lookup_delete_ne.
      exact (Hk tab (list_elem_of_here _ _)).
    - intros t Ht. by apply Hk, list_elem_of_further. }
  split.
  { intros t0 e0 Hin. apply elem_of_cons in Hin as [[= -> ->]|Hin]; [exact Hgone|].
    by apply (H6 t0 e0). }
  split.
  { intros t Ht. apply H7 in Ht. simpl in Ht. by apply tabs_after_remove_subset in Ht. }
  intros t0 e0 Hin Hok t' Ht'.
  apply elem_of_cons in Hin as [[= -> ->]|Hin]; [|by apply (H8 t0 e0)].
  apply H7 in Ht'. simpl in Ht'. by apply (tabs_after_remove_gone env _ _ _ Hok Ht').
Qed.

Lemma items_of_lookup env ses :
  ∀ tick k t e, ses !! k = Some (t, e) →
    items_of env tick ses !! k = Some (closedItem_of e (clock env (tick + k))).
Proof.
  induction ses as [|[t0 e0] rest IH]; intros tick k t e Hk; [done|].
  destruct k as [|k]; cbn [items_of].
  - injection Hk as -> ->. by rewrite Nat.add_0_r.
  - simpl in Hk. simpl. rewrite (IH (S tick) k t e Hk). do 3 f_equal. lia.
Qed.

Lemma items_of_length env ses : ∀ tick, length (items_of env tick ses) = length ses.
Proof.
  induction ses as [|[t0 e0] rest IH]; intros tick; [done|].
  cbn [items_of length]. by rewrite IH.
Qed.

(** One call of chrome.tabs.remove for each run of the pipeline. *)
Lemma removals_of_calls env id ses :
  ∀ tick, length (filter (λ c, c = CallTabsRemove id) (calls_of env tick ses))
          = length (filter (λ p : Tab * TabRecord, tab_id p.1 = id) ses).
Proof.
  induction ses as [|[t0 e0] rest IH]; intros tick; [done|].
  cbn [calls_of]. rewrite filter_app, length_app, IH, filter_cons.
  unfold pipeline_calls. rewrite filter_cons. simpl.
  destruct (decide (CallTabsRemove (tab_id t0) = CallTabsRemove id)) as [Heq|Hne].
  - injection Heq as Heq. rewrite decide_True by exact Heq. reflexivity.
  - rewrite decide_False by (intros Heq; apply Hne; by rewrite Heq). reflexivity.
Qed.

Lemma stale_ids_nodup env now md tabs :
  NoDup (tab_id <$> tabs) →
  NoDup ((λ p : Tab * TabRecord, tab_id p.1) <$> stale_entries env now md tabs).
Proof.
  induction tabs as [|tab rest IH]; intros Hnodup; [constructor|].
  rewrite fmap_cons in Hnodup. apply NoDup_cons in Hnodup as [Hfresh Hnodup].
  unfold stale_entries. cbn [omap list_omap].
  destruct (stale_entry env now md tab) as [[t e]|] eqn:Hentry; [|by apply IH].
  assert (t = tab) as ->.
  { unfold stale_entry in Hentry. repeat case_match; congruence. }
  rewrite fmap_cons. apply NoDup_cons. split; [|by apply IH].
  rewrite list_elem_of_fmap. intros ([t' e'] & Hid & Hin). simpl in Hid.
  apply stale_entries_elem in Hin as (Hin & _). apply Hfresh.
  rewrite list_elem_of_fmap. by exists t'.
Qed.

Lemma filter_absent {A} (f : A → Z) (l : list A) (z : Z) :
  z ∉ f <$> l → filter (λ y, f y = z) l = [].
Proof.
  induction l as [|y l IH]; intros Hz; [done|].
  rewrite fmap_cons in Hz. apply not_elem_of_cons in Hz as [Hne Hz].
  rewrite filter_cons, decide_False by (intros Heq; by apply Hne).
  by apply IH.
Qed.

Lemma count_of_distinct {A} (f : A → Z) (l : list A) x :
  NoDup (f <$> l) → x ∈ l → length (filter (λ y, f y = f x) l) = 1.
Proof.
  induction l as [|y l IH]; intros Hnodup Hin; [by apply elem_of_nil in Hin|].
  rewrite fmap_cons in Hnodup. apply NoDup_cons in Hnodup as [Hfresh Hnodup].
  rewrite filter_cons. apply elem_of_cons in Hin as [->|Hin].
  - rewrite decide_True by reflexivity. by rewrite filter_absent.
  - rewrite decide_False; [by apply IH|].
    intros Heq. apply Hfresh. rewrite Heq, list_elem_of_fmap. by exists x.
Qed.

(** One run of the scan, when storage works and the open tabs have distinct
    identifiers. *)
Lemma checkForStaleTabs_spec env w :
  storage_works env →
  NoDup (tab_id <$> w_tabs w) →
  let ses := stale_entries env (clock env (w_ticks w)) (stored_metadata w) (w_tabs w) in
  ∃ w', checkForStaleTabs env w = (Returned tt, w') ∧
        stored_closedItems w'
          = stored_closedItems w ++ items_of env (S (w_ticks w)) ses ∧
        calls_since w w'
          = calls_of env (S (w_ticks w)) ses ++ [CallStorageSet TAB_METADATA_KEY] ∧
        (∀ t e, (t, e) ∈ ses → stored_metadata w' !! key_of (tab_id t) = None) ∧
        (∀ t e, (t, e) ∈ ses → tabs_remove_fails env (tab_id t) = false →
                ∀ t', t' ∈ w_tabs w' → tab_id t' ≠ tab_id t).
Proof.
  intros (Hget & Hset & Hqget & Hqset) Hnodup ses.
  unfold checkForStaleTabs, loadTabMetadata, saveTabMetadata, Chrome.tabs_query,
    Chrome.storage_get_tabMetadata, Chrome.storage_set_tabMetadata, Chrome.date_now;
    unfold bind, ret; cbn beta iota.
  rewrite Hget, Hset. cbn beta iota.
  destruct (stale_loop_spec env (clock env (w_ticks w)) Hqget Hqset (w_tabs w) Hnodup
              (default ∅ (w_tabMetadata w)) (set_ticks (S (w_ticks w)) w))
    as (md' & w1 & -> & H1 & H2 & H3 & H4 & H5 & H6 & H7 & H8).
  fold (stored_metadata w) in *. fold ses in H1, H2, H3, H6, H8.
  eexists. split; [reflexivity|]. simpl in *.
  split; [exact H2|].
  split; [apply calls_since_app; simpl; by rewrite H3, <- app_assoc|].
  split; [exact H6|]. exact H8.
Qed.

(** A record with both timestamps 0: [||] takes them as missing, the
    inactive duration is computed as 0 and the tab is kept. *)
Lemma scenario_A_tab_survives :
  let now := (24 * Scenario.HOUR + 1)%Z in
  let w := Scenario.world [Scenario.tab_x] (Some (Scenario.metadata_x 0)) None None in
  let r := checkForStaleTabs (Scenario.calm now) w in
  (now - lastActiveAt (Scenario.record_x 0) >= STALE_THRESHOLD_MS)%Z ∧
  r.1 = Returned tt ∧
  calls_since w r.2 = [CallStorageSet TAB_METADATA_KEY] ∧
  w_tabs r.2 = [Scenario.tab_x] ∧
  stored_metadata r.2 !! key_of 7 = Some (Scenario.record_x 0) ∧
  w_closedItems r.2 = None.
Proof. vm_compute. repeat split; (reflexivity || discriminate). Qed.

(** The scan on a tab that its test takes as stale, in the terms of the
    code: when storage works and the open tabs have distinct identifiers, a
    tab that is open, not pinned, has a qualifying URL and a record with
    [now - (lastActiveAt || openedAt || now)] not below the constant is
    closed by one call of chrome.tabs.remove, its record is gone from the
    store, and the queue grows by one ClosedItem for each stale tab, in
    order. *)
Theorem stale_tab_closed_and_logged env w tab e :
  storage_works env →
  NoDup (tab_id <$> w_tabs w) →
  tab ∈ w_tabs w →
  tab_pinned tab = false →
  isSupportedHttpUrl env (tab_url tab) = true →
  stored_metadata w !! key_of (tab_id tab) = Some e →
  let now := clock env (w_ticks w) in
  (STALE_THRESHOLD_MS ≤ now - or_num (or_num (lastActiveAt e) (openedAt e)) now)%Z →
  let r := checkForStaleTabs env w in
  let stale := stale_entries env now (stored_metadata w) (w_tabs w) in
  let appended := items_of env (S (w_ticks w)) stale in
  r.1 = Returned tt ∧
  length (filter (λ c, c = CallTabsRemove (tab_id tab)) (calls_since w r.2)) = 1 ∧
  (tabs_remove_fails env (tab_id tab) = false → tab ∉ w_tabs r.2) ∧
  stored_metadata r.2 !! key_of (tab_id tab) = None ∧
  stored_closedItems r.2 = stored_closedItems w ++ appended ∧
  length appended = length stale ∧
  ∃ k, stale !! k = Some (tab, e) ∧
       (∀ j e', stale !! j = Some (tab, e') → j = k) ∧
       appended !! k
         = Some (mkClosedItem (openedAt e) (clock env (S (w_ticks w) + k))
                              (or_str (currentUrl e) (firstUrl e))
                              (or_str (title e) (or_str (currentUrl e) (firstUrl e)))).
Proof.
  intros Hworks Hnodup Hopen Hpinned Hurl Hrecord now Hstale r stale appended.
  destruct (checkForStaleTabs_spec env w Hworks Hnodup)
    as (w' & Hrun & Hitems & Hcalls & Hgone & Hclosed).
  fold now in Hitems, Hcalls, Hgone, Hclosed.
  fold stale in Hitems, Hcalls, Hgone, Hclosed. fold appended in Hitems.
  subst r. rewrite Hrun. cbn [fst snd].
  assert ((tab, e) ∈ stale) as Hin.
  { unfold stale, stale_entries. rewrite list_elem_of_omap. exists tab.
    split; [exact Hopen|]. unfold stale_entry, is_stale_record.
    rewrite Hpinned, Hurl, Hrecord. cbn [negb].
    by rewrite (proj2 (Z.leb_le _ _) Hstale). }
  assert (NoDup ((λ p : Tab * TabRecord, tab_id p.1) <$> stale)) as Hdistinct
    by by apply stale_ids_nodup.
  split; [reflexivity|].
  split.
  { rewrite Hcalls, filter_app, length_app, removals_of_calls.
    pose proof (count_of_distinct (λ p : Tab * TabRecord, tab_id p.1) stale (tab, e)
                  Hdistinct Hin) as Hcount.
    simpl in Hcount. rewrite Hcount. reflexivity. }
  split.
  { intros Hok Hstill. by apply (Hclosed tab e Hin Hok tab Hstill). }
  split; [by apply (Hgone tab e)|].
  split; [exact Hitems|].
  split; [apply items_of_length|].
  destruct (list_elem_of_lookup_1 _ _ Hin) as [k Hk]. exists k.
  split; [exact Hk|]. split.
  - intros j e' Hj.
    apply (NoDup_lookup _ j k (tab_id tab) Hdistinct); rewrite list_lookup_fmap.
    + by rewrite Hj.
    + by rewrite Hk.
  - unfold appended. by rewrite (items_of_lookup env stale _ k tab e Hk).
Qed.

Lemma stale_tab_closed_and_logged_witness :
  let env := Scenario.hourly in
  let w := Scenario.day_later in
  let tab := Scenario.tab_x in
  let e := Scenario.record_x 1 in
  let r := checkForStaleTabs env w in
  let stale := stale_entries env (clock env (w_ticks w)) (stored_metadata w) (w_tabs w) in
  let appended := items_of env (S (w_ticks w)) stale in
  r.1 = Returned tt ∧
  length (filter (λ c, c = CallTabsRemove (tab_id tab)) (calls_since w r.2)) = 1 ∧
  (tabs_remove_fails env (tab_id tab) = false → tab ∉ w_tabs r.2) ∧
  stored_metadata r.2 !! key_of (tab_id tab) = None ∧
  stored_closedItems r.2 = stored_closedItems w ++ appended ∧
  length appended = length stale ∧
  ∃ k, stale !! k = Some (tab, e) ∧
       (∀ j e', stale !! j = Some (tab, e') → j = k) ∧
       appended !! k
         = Some (mkClosedItem (openedAt e) (clock env (S (w_ticks w) + k))
                              (or_str (currentUrl e) (firstUrl e))
                              (or_str (title e) (or_str (currentUrl e) (firstUrl e)))).
Proof.
  apply (stale_tab_closed_and_logged Scenario.hourly Scenario.day_later
           Scenario.tab_x (Scenario.record_x 1)).
  - repeat split; reflexivity.
  - apply (bool_decide_unpack _). vm_compute. exact I.
  - apply (bool_decide_unpack _). vm_compute. exact I.
  - reflexivity.
  - reflexivity.
  - vm_compute. reflexivity.
  - vm_compute. discriminate.
Defined.

(** The witness above, evaluated: the one stale tab is closed and logged
    with the time its pipeline read, an hour after the scan's. *)
Example day_later_scan :
  let r := checkForStaleTabs Scenario.hourly Scenario.day_later in
  r.1 = Returned tt ∧
  w_tabs r.2 = [Scenario.tab_mail] ∧
  w_closedItems r.2
    = Some [mkClosedItem 1 (26 * Scenario.HOUR) "http://x" "X"] ∧
  stored_metadata r.2 !! key_of 7 = None.
Proof. vm_compute. repeat split; reflexivity. Qed.

(** C1, as stated, fails on the stale tab of [Scenario.day_later]: open, not
    pinned, showing http://x, last focused at 1 ms and scanned at 25 h, with
    no threshold stored.  When the write of the queue is refused, the tab is
    closed by the scan and the write is tried, but no ClosedItem is
    appended, the scan throws and the record stays in the store.  When nothing fails and the clock
    advances by an hour at each reading, the ClosedItem is appended with
    closedAt = 26 h, the time the pipeline read, not the 25 h of the
    scan. *)
Lemma stale_tab_unlogged_or_logged_later :
  let w := Scenario.day_later in
  let refused := Scenario.queue_write_refused (25 * Scenario.HOUR) in
  let r1 := checkForStaleTabs refused w in
  let r2 := checkForStaleTabs Scenario.hourly w in
  w_tabs w = [Scenario.tab_mail; Scenario.tab_x] ∧
  w_inactivityThresholdHours w = None ∧
  tab_pinned Scenario.tab_x = false ∧
  isSupportedHttpUrl refused (tab_url Scenario.tab_x) = true ∧
  stored_metadata w !! key_of 7 = Some (Scenario.record_x 1) ∧
  clock refused (w_ticks w) = (25 * Scenario.HOUR)%Z ∧
  clock Scenario.hourly (w_ticks w) = (25 * Scenario.HOUR)%Z ∧
  (25 * Scenario.HOUR - lastActiveAt (Scenario.record_x 1) >= STALE_THRESHOLD_MS)%Z ∧
  (r1.1 = Thrown (StorageError CLOSED_ITEMS_KEY) ∧
   calls_since w r1.2 = [CallTabsRemove 7; CallStorageSet CLOSED_ITEMS_KEY] ∧
   w_tabs r1.2 = [Scenario.tab_mail] ∧
   w_closedItems r1.2 = None ∧
   stored_metadata r1.2 !! key_of 7 = Some (Scenario.record_x 1)) ∧
  (r2.1 = Returned tt ∧
   w_closedItems r2.2 = Some [mkClosedItem 1 (26 * Scenario.HOUR) "http://x" "X"]).
Proof. vm_compute. repeat split; (reflexivity || discriminate). Qed.

(** C1, amended: when storage works, the open tabs have distinct
    identifiers and no threshold other than the default of 24 hours is
    stored, a tab that is open, not pinned, has a qualifying URL and a
    record with a positive lastActiveAt and [now - lastActiveAt >= 24h] at
    the time [now] of the scan is closed by exactly one call of
    chrome.tabs.remove, its record is gone from the store, and the queue
    grows by one ClosedItem for each stale tab, in order, the one of this
    tab being {openedAt of the record, closedAt = the time its pipeline read
    when it started, url = currentUrl || firstUrl, title = title || url}. *)
Theorem stale_tab_evicted env w tab e :
  storage_works env →
  NoDup (tab_id <$> w_tabs w) →
  default_threshold_applies w →
  tab ∈ w_tabs w →
  tab_pinned tab = false →
  isSupportedHttpUrl env (tab_url tab) = true →
  stored_metadata w !! key_of (tab_id tab) = Some e →
  (0 < lastActiveAt e)%Z →
  let now := clock env (w_ticks w) in
  (now - lastActiveAt e >= STALE_THRESHOLD_MS)%Z →
  let r := checkForStaleTabs env w in
  let stale := stale_entries env now (stored_metadata w) (w_tabs w) in
  let appended := items_of env (S (w_ticks w)) stale in
  r.1 = Returned tt ∧
  length (filter (λ c, c = CallTabsRemove (tab_id tab)) (calls_since w r.2)) = 1 ∧
  (tabs_remove_fails env (tab_id tab) = false → tab ∉ w_tabs r.2) ∧
  stored_metadata r.2 !! key_of (tab_id tab) = None ∧
  stored_closedItems r.2 = stored_closedItems w ++ appended ∧
  length appended = length stale ∧
  ∃ k, stale !! k = Some (tab, e) ∧
       (∀ j e', stale !! j = Some (tab, e') → j = k) ∧
       appended !! k
         = Some (mkClosedItem (openedAt e) (clock env (S (w_ticks w) + k))
                              (or_str (currentUrl e) (firstUrl e))
                              (or_str (title e) (or_str (currentUrl e) (firstUrl e)))).
Proof.
  intros Hworks Hnodup _ Hopen Hpinned Hurl Hrecord Hpos now Hstale.
  apply (stale_tab_closed_and_logged env w tab e Hworks Hnodup Hopen Hpinned Hurl Hrecord).
  rewrite inactive_since_lastActiveAt by lia. fold now. lia.
Qed.

Lemma stale_tab_evicted_witness :
  let env := Scenario.hourly in
  let w := Scenario.day_later in
  let tab := Scenario.tab_x in
  let e := Scenario.record_x 1 in
  let r := checkForStaleTabs env w in
  let stale := stale_entries env (clock env (w_ticks w)) (stored_metadata w) (w_tabs w) in
  let appended := items_of env (S (w_ticks w)) stale in
  r.1 = Returned tt ∧
  length (filter (λ c, c = CallTabsRemove (tab_id tab)) (calls_since w r.2)) = 1 ∧
  (tabs_remove_fails env (tab_id tab) = false → tab ∉ w_tabs r.2) ∧
  stored_metadata r.2 !! key_of (tab_id tab) = None ∧
  stored_closedItems r.2 = stored_closedItems w ++ appended ∧
  length appended = length stale ∧
  ∃ k, stale !! k = Some (tab, e) ∧
       (∀ j e', stale !! j = Some (tab, e') → j = k) ∧
       appended !! k
         = Some (mkClosedItem (openedAt e) (clock env (S (w_ticks w) + k))
                              (or_str (currentUrl e) (firstUrl e))
                              (or_str (title e) (or_str (currentUrl e) (firstUrl e)))).
Proof.
  apply (stale_tab_evicted Scenario.hourly Scenario.day_later
           Scenario.tab_x (Scenario.record_x 1)).
  - repeat split; reflexivity.
  - apply (bool_decide_unpack _). vm_compute. exact I.
  - left. reflexivity.
  - apply (bool_decide_unpack _). vm_compute. exact I.
  - reflexivity.
  - reflexivity.
  - vm_compute. reflexivity.
  - reflexivity.
  - vm_compute. discriminate.
Defined.

(** Scenario A with the tab created at the first millisecond and a clock
    that stands still during the scan at 24 h + 1 ms after that: the tab is
    closed and logged with the time of the scan. *)
Example scenario_A_after_first_millisecond :
  let now := (24 * Scenario.HOUR + 2)%Z in
  let w := Scenario.world [Scenario.tab_x] (Some (Scenario.metadata_x 1)) None None in
  let r := checkForStaleTabs (Scenario.calm now) w in
  r.1 = Returned tt ∧
  w_tabs r.2 = [] ∧
  w_closedItems r.2 = Some [mkClosedItem 1 now "http://x" "X"] ∧
  stored_metadata r.2 !! key_of 7 = None.
Proof. vm_compute. repeat split; reflexivity. Qed.

End Scan.

(** ** Pinned tabs *)
Module Pinned.
Import JS Background Spec Pipeline Threshold Invariant Scan.

Lemma spares_ret id {A} (a : A) : spares id (ret a).
Proof.
  intros w. split; [|done]. exists []. split; [by rewrite app_nil_r|].
  by intros Hin%elem_of_nil.
Qed.

Lemma spares_bind id {A B} (m : M A) (k : A → M B) :
  spares id m → (∀ a, spares id (k a)) → spares id (bind m k).
Proof.
  intros Hm Hk w. unfold bind. destruct (Hm w) as [(l1 & Hcalls1 & Hl1) Htabs1].
  destruct (m w) as [[a|e] w1]; simpl in *; [|by eauto].
  destruct (Hk a w1) as [(l2 & Hcalls2 & Hl2) Htabs2]. split.
  - exists (l1 ++ l2). split; [by rewrite Hcalls2, Hcalls1, app_assoc|].
    rewrite elem_of_app. by intros [?|?].
  - intros t Hid Ht. by apply Htabs2, Htabs1.
Qed.

Lemma spares_try_catch id {A} (m : M A) (k : JsError → M A) :
  spares id m → (∀ e, spares id (k e)) → spares id (try_catch m k).
Proof.
  intros Hm Hk w. unfold try_catch. destruct (Hm w) as [(l1 & Hcalls1 & Hl1) Htabs1].
  destruct (m w) as [[a|e] w1]; simpl in *; [by eauto|].
  destruct (Hk e w1) as [(l2 & Hcalls2 & Hl2) Htabs2]. split.
  - exists (l1 ++ l2). split; [by rewrite Hcalls2, Hcalls1, app_assoc|].
    rewrite elem_of_app. by intros [?|?].
  - intros t Hid Ht. by apply Htabs2, Htabs1.
Qed.

(** A computation that makes at most the one call [c] and leaves the open
    tabs alone spares every tab. *)
Ltac spares_primitive c :=
  let w := fresh "w" in
  intros w; cbn beta zeta;
  repeat match goal with
         | |- context [if ?b then _ else _] => destruct b
         end;
  simpl; (split; [|done]);
  first [ exists []; split; [by rewrite app_nil_r | by intros ?%elem_of_nil]
        | exists [c]; split; [reflexivity | by intros [=]%list_elem_of_singleton] ].

Lemma spares_date_now id env : spares id (Chrome.date_now env).
Proof. unfold Chrome.date_now. spares_primitive (CallTabsRemove 0). Qed.

Lemma spares_loadClosedItems id env : spares id (loadClosedItems env).
Proof.
  unfold loadClosedItems, Chrome.storage_get_closedItems; unfold bind, ret.
  spares_primitive (CallTabsRemove 0).
Qed.

Lemma spares_saveClosedItems id env l : spares id (saveClosedItems env l).
Proof.
  unfold saveClosedItems, Chrome.storage_set_closedItems.
  spares_primitive (CallStorageSet CLOSED_ITEMS_KEY).
Qed.

Lemma spares_fetch_append id env item : spares id (Chrome.fetch_append env item).
Proof. unfold Chrome.fetch_append. spares_primitive (CallFetchAppend item). Qed.

Lemma spares_sendMessage id env item : spares id (Chrome.runtime_sendMessage env item).
Proof. unfold Chrome.runtime_sendMessage. spares_primitive (CallSendMessage item). Qed.

Lemma spares_tabs_remove id env tid : tid ≠ id → spares id (Chrome.tabs_remove env tid).
Proof.
  intros Hne w. unfold Chrome.tabs_remove. cbn beta zeta.
  assert (CallTabsRemove id ∉ [CallTabsRemove tid]) as Hcall.
  { intros [= Heq]%list_elem_of_singleton. by apply Hne. }
  destruct (tabs_remove_fails env tid); simpl; [by eauto|].
  destruct (bool_decide _); simpl; [|by eauto].
  split; [by eauto|]. intros t Hid Ht. apply list_elem_of_filter. split; [|exact Ht].
  by rewrite Hid.
Qed.

Lemma spares_closeAndLogTab id env tab metaEntry :
  tab_id tab ≠ id → spares id (closeAndLogTab env tab metaEntry).
Proof.
  intros Hne. destruct metaEntry as [e|]; unfold closeAndLogTab; [|apply spares_ret].
  repeat first
    [ apply spares_ret | apply spares_date_now | apply spares_loadClosedItems
    | apply spares_saveClosedItems | apply spares_fetch_append
    | apply spares_sendMessage | by apply spares_tabs_remove
    | apply spares_bind; [|intros ?]
    | apply spares_try_catch; [|intros ?] ].
Qed.

Lemma commutes_tabs_remove_without id env tid :
  tid ≠ id → commutes_with (without id) (Chrome.tabs_remove env tid).
Proof.
  intros Hne w. unfold Chrome.tabs_remove, without. cbn beta zeta. simpl.
  destruct (tabs_remove_fails env tid); [reflexivity|].
  rewrite (bool_decide_ext (tid ∈ tab_id <$> filter (λ t, tab_id t ≠ id) (w_tabs w))
                           (tid ∈ tab_id <$> w_tabs w)).
  2:{ rewrite !list_elem_of_fmap. split; intros (t & -> & Ht).
      - apply list_elem_of_filter in Ht as [_ Ht]. by exists t.
      - exists t. split; [done|]. by apply list_elem_of_filter. }
  destruct (bool_decide _); [|reflexivity]. simpl. unfold set_tabs. simpl.
  do 2 f_equal. rewrite !list_filter_filter. apply list_filter_iff. tauto.
Qed.

Lemma commutes_closeAndLogTab_without id env tab metaEntry :
  tab_id tab ≠ id →
  commutes_with (without id) (closeAndLogTab env tab metaEntry).
Proof.
  intros Hne. apply commutes_closeAndLogTab; try reflexivity.
  by apply commutes_tabs_remove_without.
Qed.

Section Loop.
Variable env : Env.
Variable now : Z.
Variable id : Z.

Lemma all_pinned_tail tab rest : all_pinned id (tab :: rest) → all_pinned id rest.
Proof. intros H t Ht. by apply H, list_elem_of_further. Qed.

Lemma stale_loop_without tabs :
  all_pinned id tabs →
  ∀ md, ∀ w,
    stale_loop env now (filter (λ t, tab_id t ≠ id) tabs) md (without id w)
    = ((stale_loop env now tabs md w).1, without id (stale_loop env now tabs md w).2).
Proof.
  induction tabs as [|tab rest IH]; intros Hpinned md w; [reflexivity|].
  specialize (IH (all_pinned_tail _ _ Hpinned)).
  rewrite filter_cons. destruct (decide (tab_id tab ≠ id)) as [Hne|Heq].
  - cbn [stale_loop].
    destruct (tab_pinned tab); [apply IH|].
    destruct (negb (isSupportedHttpUrl env (tab_url tab))); [apply IH|].
    destruct (_ <=? _)%Z; [|apply IH].
    unfold bind. rewrite (commutes_closeAndLogTab_without id env tab _ Hne w).
    destruct (closeAndLogTab env tab _ w) as [[[]|err] w1]; simpl; [apply IH | reflexivity].
  - cbn [stale_loop].
    rewrite (Hpinned tab (list_elem_of_here _ _)); [apply IH|].
    by destruct (decide (tab_id tab = id)).
Qed.

Lemma stale_loop_spares tabs :
  all_pinned id tabs → ∀ md, spares id (stale_loop env now tabs md).
Proof.
  induction tabs as [|tab rest IH]; intros Hpinned md; cbn [stale_loop];
    [apply spares_ret|].
  specialize (IH (all_pinned_tail _ _ Hpinned)).
  destruct (tab_pinned tab) eqn:Hpin; [apply IH|].
  destruct (negb (isSupportedHttpUrl env (tab_url tab))); [apply IH|].
  destruct (_ <=? _)%Z; [|apply IH].
  apply spares_bind; [|intros _; apply IH].
  apply spares_closeAndLogTab. intros Heq.
  rewrite (Hpinned tab (list_elem_of_here _ _) Heq) in Hpin. discriminate.
Qed.

Lemma stale_loop_key_untouched tabs :
  all_pinned id tabs →
  ∀ md w md', ((stale_loop env now tabs md w).1 = Returned md') →
              (md' !! key_of id) = (md !! key_of id).
Proof.
  induction tabs as [|tab rest IH]; intros Hpinned md w md'; cbn [stale_loop].
  { by intros [= <-]. }
  specialize (IH (all_pinned_tail _ _ Hpinned)).
  destruct (tab_pinned tab) eqn:Hpin; [apply IH|].
  assert (key_of (tab_id tab) ≠ key_of id) as Hkey.
  { intros Heq%key_of_inj.
    rewrite (Hpinned tab (list_elem_of_here _ _) Heq) in Hpin. discriminate. }
  destruct (negb (isSupportedHttpUrl env (tab_url tab))); [apply IH|].
  set (md1 := match md !! key_of (tab_id tab) with Some _ => md | None => _ end).
  assert (md1 !! key_of id = md !! key_of id) as Hmd1.
  { subst md1. destruct (md !! key_of (tab_id tab)); [done|].
    by rewrite lookup_insert_ne. }
  destruct (_ <=? _)%Z.
  - unfold bind. destruct (closeAndLogTab env tab _ w) as [[[]|err] w1]; [|discriminate].
    intros Hrun. rewrite (IH _ _ _ Hrun), lookup_delete_ne by exact Hkey. exact Hmd1.
  - intros Hrun. by rewrite (IH _ _ _ Hrun).
Qed.

End Loop.

(** C8: a pinned tab is never evicted, however long it has been inactive and
    whatever fails: the scan makes no call of chrome.tabs.remove for it, the
    tab stays open, its record is as it was, and the run is the one of the
    world in which that tab is not open, so that no ClosedItem is appended
    because of it. The identifiers of the open tabs are distinct. *)
Theorem pinned_tab_never_evicted env w p :
  NoDup (tab_id <$> w_tabs w) →
  p ∈ w_tabs w →
  tab_pinned p = true →
  let r := checkForStaleTabs env w in
  (CallTabsRemove (tab_id p) ∉ calls_since w r.2) ∧
  p ∈ w_tabs r.2 ∧
  stored_metadata r.2 !! key_of (tab_id p) = stored_metadata w !! key_of (tab_id p) ∧
  checkForStaleTabs env (without (tab_id p) w) = (r.1, without (tab_id p) r.2).
Proof.
  intros Hnodup Hopen Hpinned r.
  assert (all_pinned (tab_id p) (w_tabs w)) as Hall.
  { intros t Ht Hid. assert (t = p) as ->; [|exact Hpinned].
    apply list_elem_of_lookup_1 in Ht as [i Hi].
    apply list_elem_of_lookup_1 in Hopen as [j Hj].
    assert (i = j) as ->; [|congruence].
    apply (NoDup_lookup _ i j (tab_id p) Hnodup); rewrite list_lookup_fmap.
    - by rewrite Hi, <- Hid.
    - by rewrite Hj. }
  subst r.
  unfold checkForStaleTabs, loadTabMetadata, saveTabMetadata, Chrome.tabs_query,
    Chrome.storage_get_tabMetadata, Chrome.storage_set_tabMetadata, Chrome.date_now;
    unfold bind, ret; cbn beta iota.
  change (w_tabs (without (tab_id p) w))
    with (filter (λ t, tab_id t ≠ tab_id p) (w_tabs w)).
  change (w_tabMetadata (without (tab_id p) w)) with (w_tabMetadata w).
  change (w_ticks (without (tab_id p) w)) with (w_ticks w).
  destruct (storage_get_fails env TAB_METADATA_KEY); cbn beta iota.
  { simpl. split; [|done]. rewrite (calls_since_app w w []) by (by rewrite app_nil_r).
    by intros ?%elem_of_nil. }
  set (now := clock env (w_ticks w)). set (md := default ∅ (w_tabMetadata w)).
  set (w1 := set_ticks (S (w_ticks w)) w).
  change (clock env (w_ticks (without (tab_id p) w))) with now.
  change (set_ticks (S (w_ticks (without (tab_id p) w))) (without (tab_id p) w))
    with (without (tab_id p) w1).
  rewrite (stale_loop_without env now (tab_id p) (w_tabs w) Hall md w1).
  pose proof (stale_loop_spares env now (tab_id p) (w_tabs w) Hall md w1) as Hspares.
  pose proof (stale_loop_key_untouched env now (tab_id p) (w_tabs w) Hall md w1)
    as Hkey.
  pose proof (keeps_stale_loop env now (w_tabs w) md w1) as [Hmeta _].
  destruct (stale_loop env now (w_tabs w) md w1) as [[md'|err] w2].
  - destruct Hspares as [(l & Hcalls & Hl) Htabs]. simpl in *.
    specialize (Hkey md' eq_refl).
    destruct (storage_set_fails env TAB_METADATA_KEY); simpl.
    + split.
      { rewrite (calls_since_app w _ (l ++ [CallStorageSet TAB_METADATA_KEY]))
          by (simpl; by rewrite Hcalls, app_assoc).
        rewrite elem_of_app, list_elem_of_singleton. by intros [?|?]. }
      split; [by apply Htabs|].
      split; [|reflexivity]. unfold stored_metadata. simpl. by rewrite Hmeta.
    + split.
      { rewrite (calls_since_app w _ (l ++ [CallStorageSet TAB_METADATA_KEY]))
          by (simpl; by rewrite Hcalls, app_assoc).
        rewrite elem_of_app, list_elem_of_singleton. by intros [?|?]. }
      split; [by apply Htabs|].
      split; [exact Hkey | reflexivity].
  - destruct Hspares as [(l & Hcalls & Hl) Htabs]. simpl in *.
    split; [by rewrite (calls_since_app w _ l)|].
    split; [by apply Htabs|].
    split; [|reflexivity]. unfold stored_metadata. by rewrite Hmeta.
Qed.

Lemma pinned_tab_never_evicted_witness :
  let env := Scenario.hourly in
  let w := Scenario.two_days_later in
  let p := Scenario.tab_mail in
  let r := checkForStaleTabs env w in
  (CallTabsRemove (tab_id p) ∉ calls_since w r.2) ∧
  p ∈ w_tabs r.2 ∧
  stored_metadata r.2 !! key_of (tab_id p) = stored_metadata w !! key_of (tab_id p) ∧
  checkForStaleTabs env (without (tab_id p) w) = (r.1, without (tab_id p) r.2).
Proof.
  apply (pinned_tab_never_evicted Scenario.hourly Scenario.two_days_later
           Scenario.tab_mail).
  - apply (bool_decide_unpack _). vm_compute. exact I.
  - apply (bool_decide_unpack _). vm_compute. exact I.
  - reflexivity.
Defined.

(** The scenario of the witness, evaluated: after 49 hours without focus the
    pinned tab is open and has its record; the other tab was closed. *)
Example two_days_later_scan :
  let r := checkForStaleTabs Scenario.hourly Scenario.two_days_later in
  r.1 = Returned tt ∧
  w_tabs r.2 = [Scenario.tab_mail] ∧
  stored_metadata r.2 !! key_of 3 = Some Scenario.record_mail ∧
  w_closedItems r.2 = Some [mkClosedItem 1 (50 * Scenario.HOUR) "http://x" "X"].
Proof. vm_compute. repeat split; reflexivity. Qed.

End Pinned.

(** ** What the service worker leaves alone *)
Module Frames.
Import JS Background Spec Relations Pipeline.

Section Steps.
Context (R : World → World → Prop) `{!PreOrder R}.

Lemma steps_ret {A} (a : A) : steps R (ret a).
Proof. intros w. reflexivity. Qed.

Lemma steps_same {A} (m : M A) : (∀ w, (m w).2 = w) → steps R m.
Proof. intros Hm w. by rewrite Hm. Qed.

Lemma steps_bind {A B} (m : M A) (k : A → M B) :
  steps R m → (∀ a, steps R (k a)) → steps R (bind m k).
Proof.
  intros Hm Hk w. unfold bind. specialize (Hm w).
  destruct (m w) as [[a|e] w1]; simpl in *; [|exact Hm].
  etrans; [exact Hm | apply Hk].
Qed.

Lemma steps_try_catch {A} (m : M A) (k : JsError → M A) :
  steps R m → (∀ e, steps R (k e)) → steps R (try_catch m k).
Proof.
  intros Hm Hk w. unfold try_catch. specialize (Hm w).
  destruct (m w) as [[a|e] w1]; simpl in *; [exact Hm|].
  etrans; [exact Hm | apply Hk].
Qed.

Variable env : Env.

Lemma steps_loadTabMetadata : steps R (loadTabMetadata env).
Proof.
  apply steps_same. intros w.
  unfold loadTabMetadata, Chrome.storage_get_tabMetadata; unfold bind, ret.
  by destruct (storage_get_fails env _).
Qed.

Lemma steps_tabs_query : steps R Chrome.tabs_query.
Proof. by apply steps_same. Qed.

Lemma steps_tabs_get id : steps R (Chrome.tabs_get env id).
Proof.
  apply steps_same. intros w. unfold Chrome.tabs_get.
  destruct (tabs_get_fails env id); [done|]. by destruct (find _ _).
Qed.

Hypothesis Hnow : steps R (Chrome.date_now env).
Hypothesis Hsave : ∀ md, steps R (saveTabMetadata env md).

Ltac steps_tac :=
  cbv zeta;
  repeat first
    [ apply steps_ret | apply Hnow | apply Hsave
    | apply steps_loadTabMetadata | apply steps_tabs_query | apply steps_tabs_get
    | apply steps_bind; [|intros ?]
    | apply steps_try_catch; [|intros ?]
    | match goal with
      | |- steps _ (if ?b then _ else _) => destruct b
      | |- steps _ (match ?x with _ => _ end) => destruct x
      end ].

Lemma steps_handleTabCreated tab : steps R (handleTabCreated env tab).
Proof. unfold handleTabCreated. steps_tac. Qed.

Lemma steps_handleTabUpdated tabId changeInfo tab :
  steps R (handleTabUpdated env tabId changeInfo tab).
Proof. unfold handleTabUpdated. steps_tac. Qed.

Lemma steps_handleTabRemoved tabId : steps R (handleTabRemoved env tabId).
Proof. unfold handleTabRemoved. steps_tac. Qed.

Lemma steps_onActivated tabId : steps R (onActivated env tabId).
Proof. unfold onActivated. steps_tac. Qed.

Lemma steps_initialiseExistingTabs : steps R (initialiseExistingTabs env).
Proof. unfold initialiseExistingTabs. steps_tac. Qed.

Hypothesis Halarm : steps R ensureAlarm.

Lemma steps_onInstalled : steps R (onInstalled env).
Proof.
  unfold onInstalled. apply steps_bind; [exact Halarm|].
  intros _. apply steps_initialiseExistingTabs.
Qed.

Hypothesis Hpipe : ∀ tab metaEntry, steps R (closeAndLogTab env tab metaEntry).

Lemma steps_stale_loop now tabs : ∀ md, steps R (stale_loop env now tabs md).
Proof.
  induction tabs as [|tab rest IH]; intros md; cbn [stale_loop]; [apply steps_ret|].
  destruct (tab_pinned tab); [apply IH|].
  destruct (negb (isSupportedHttpUrl env (tab_url tab))); [apply IH|].
  destruct (_ <=? _)%Z; [|apply IH].
  apply steps_bind; [apply Hpipe | intros _; apply IH].
Qed.

Lemma steps_checkForStaleTabs : steps R (checkForStaleTabs env).
Proof.
  unfold checkForStaleTabs.
  apply steps_bind; [apply steps_tabs_query|intros tabs].
  apply steps_bind; [apply steps_loadTabMetadata|intros md].
  apply steps_bind; [apply Hnow|intros now].
  apply steps_bind; [apply steps_stale_loop|intros md']. apply Hsave.
Qed.

Hypothesis Htabs : ∀ tabs w, R w (set_tabs tabs w).

Lemma steps_dispatch ev w : R w (dispatch env ev w).
Proof.
  destruct ev; cbn [dispatch].
  - apply steps_onInstalled.
  - apply steps_onInstalled.
  - unfold onAlarm. destruct (bool_decide _); [apply steps_checkForStaleTabs|reflexivity].
  - apply steps_handleTabCreated.
  - apply steps_onActivated.
  - apply steps_handleTabUpdated.
  - apply steps_handleTabRemoved.
  - apply Htabs.
Qed.

Lemma steps_run evs : ∀ w, R w (run env evs w).
Proof.
  induction evs as [|ev evs IH]; intros w; [reflexivity|].
  etrans; [apply (steps_dispatch ev) | apply IH].
Qed.

End Steps.

#[export] Instance queue_grows_preorder : PreOrder queue_grows.
Proof.
  split.
  - intros w. unfold queue_grows. reflexivity.
  - intros w1 w2 w3. unfold queue_grows. by etrans.
Qed.

#[export] Instance queue_kept_preorder : PreOrder queue_kept.
Proof.
  split; [by intros w|]. intros w1 w2 w3 H1 H2. unfold queue_kept in *. congruence.
Qed.

#[export] Instance alarm_kept_preorder : PreOrder alarm_kept.
Proof.
  split; [by intros w a Ha|]. intros w1 w2 w3 H1 H2 a Ha. by apply H2, H1.
Qed.

#[export] Instance no_tab_closed_preorder : PreOrder no_tab_closed.
Proof.
  split.
  - intros w. split; [done|]. exists []. split; [by rewrite app_nil_r|].
    by intros id ?%elem_of_nil.
  - intros w1 w2 w3 [Ht1 (l1 & Hc1 & Hl1)] [Ht2 (l2 & Hc2 & Hl2)].
    split; [congruence|]. exists (l1 ++ l2).
    split; [by rewrite Hc2, Hc1, app_assoc|].
    intros id [?|?]%elem_of_app; [by apply (Hl1 id) | by apply (Hl2 id)].
Qed.

Lemma closeAndLogTab_queue_grows env tab metaEntry :
  steps queue_grows (closeAndLogTab env tab metaEntry).
Proof.
  intros w. destruct metaEntry as [e|]; [|reflexivity]. unfold queue_grows.
  destruct (storage_get_fails env CLOSED_ITEMS_KEY) eqn:Hget.
  { destruct (closeAndLogTab_storage_failure env tab e w (or_introl Hget))
      as (_ & Hq & _). unfold stored_closedItems. by rewrite Hq. }
  destruct (storage_set_fails env CLOSED_ITEMS_KEY) eqn:Hset.
  { destruct (closeAndLogTab_storage_failure env tab e w (or_intror Hset))
      as (_ & Hq & _). unfold stored_closedItems. by rewrite Hq. }
  rewrite (closeAndLogTab_run env tab e w Hget Hset). simpl.
  by apply prefix_app_r.
Qed.

Lemma saveTabMetadata_same env md w :
  let w' := (saveTabMetadata env md w).2 in
  w_closedItems w' = w_closedItems w ∧ w_alarms w' = w_alarms w ∧
  w_tabs w' = w_tabs w ∧
  w_calls w' = w_calls w ++ [CallStorageSet TAB_METADATA_KEY].
Proof.
  unfold saveTabMetadata, Chrome.storage_set_tabMetadata. cbv zeta.
  by destruct (storage_set_fails env _).
Qed.

Lemma ensureAlarm_same w :
  let w' := (ensureAlarm w).2 in
  w_closedItems w' = w_closedItems w ∧ w_tabs w' = w_tabs w ∧
  alarm_kept w w' ∧
  ∃ l, w_calls w' = w_calls w ++ l ∧ ∀ id, CallTabsRemove id ∉ l.
Proof.
  unfold ensureAlarm, Chrome.alarms_get, Chrome.alarms_create; unfold bind, ret.
  cbn beta iota zeta. destruct (w_alarms w !! ALARM_NAME) as [a|] eqn:Ha; simpl.
  - repeat split; [done|]. exists []. split; [by rewrite app_nil_r|].
    by intros id ?%elem_of_nil.
  - repeat split.
    + intros a Ha'. congruence.
    + eexists. split; [reflexivity|]. by intros id [=]%list_elem_of_singleton.
Qed.

(** X1: The queue is append-only for the service worker: whatever events it
    handles and whatever fails, the queue it started with is a prefix of the
    queue it ends with. *)
Theorem queue_append_only env evs w :
  stored_closedItems w `prefix_of` stored_closedItems (run env evs w).
Proof.
  apply (steps_run queue_grows env).
  - intros w0. unfold queue_grows. reflexivity.
  - intros md w0. unfold queue_grows, stored_closedItems.
    by destruct (saveTabMetadata_same env md w0) as (-> & _).
  - intros w0. unfold queue_grows, stored_closedItems.
    by destruct (ensureAlarm_same w0) as (-> & _).
  - apply closeAndLogTab_queue_grows.
  - intros tabs w0. unfold queue_grows. reflexivity.
Qed.

(** The pipeline touches neither the alarms nor the stored metadata. *)
Lemma closeAndLogTab_leaves env tab metaEntry w :
  let w' := (closeAndLogTab env tab metaEntry w).2 in
  w_alarms w' = w_alarms w ∧ w_tabMetadata w' = w_tabMetadata w.
Proof.
  destruct metaEntry as [e|]; [|done]. unfold_pipeline. cbn beta iota zeta.
  destruct (tabs_remove_fails env (tab_id tab)); simpl;
    [| destruct (bool_decide _); simpl ];
    (destruct (storage_get_fails env CLOSED_ITEMS_KEY); simpl; [done|];
     destruct (storage_set_fails env CLOSED_ITEMS_KEY); simpl; [done|];
     destruct (fetch_fails env _); simpl; by destruct (send_fails env _)).
Qed.

(** X2: An alarm that exists under the worker's name is never replaced, whatever
    its period: no event makes the worker schedule it again. *)
Theorem existing_alarm_never_replaced env evs w a :
  w_alarms w !! ALARM_NAME = Some a →
  w_alarms (run env evs w) !! ALARM_NAME = Some a.
Proof.
  intros Ha. revert a Ha. change (alarm_kept w (run env evs w)).
  apply (steps_run alarm_kept env).
  - by intros w0 a Ha.
  - intros md w0 a Ha. by destruct (saveTabMetadata_same env md w0) as (_ & -> & _).
  - intros w0. by destruct (ensureAlarm_same w0) as (_ & _ & H & _).
  - intros tab metaEntry w0 a Ha.
    by destruct (closeAndLogTab_leaves env tab metaEntry w0) as [-> _].
  - by intros tabs w0 a Ha.
Qed.

Lemma existing_alarm_never_replaced_witness :
  let a := mkAlarm 5 0 in
  let w := mkWorld 0 [Scenario.tab_x] None None None {[ ALARM_NAME := a ]} [] in
  w_alarms (run Scenario.hourly
                [Installed; Startup; TabCreated Scenario.tab_x; AlarmFired ALARM_NAME] w)
    !! ALARM_NAME = Some a.
Proof.
  apply (existing_alarm_never_replaced Scenario.hourly
           [Installed; Startup; TabCreated Scenario.tab_x; AlarmFired ALARM_NAME]
           (mkWorld 0 [Scenario.tab_x] None None None
                    {[ ALARM_NAME := mkAlarm 5 0 ]} [])).
  vm_compute. reflexivity.
Defined.

Lemma date_now_closes_no_tab env : steps no_tab_closed (Chrome.date_now env).
Proof.
  intros w. split; [done|]. exists []. split; [by rewrite app_nil_r|].
  by intros id ?%elem_of_nil.
Qed.

Lemma saveTabMetadata_closes_no_tab env md :
  steps no_tab_closed (saveTabMetadata env md).
Proof.
  intros w. destruct (saveTabMetadata_same env md w) as (_ & _ & Htabs & Hcalls).
  split; [exact Htabs|]. eexists. split; [exact Hcalls|].
  by intros id [=]%list_elem_of_singleton.
Qed.

Lemma ensureAlarm_closes_no_tab : steps no_tab_closed ensureAlarm.
Proof. intros w. by destruct (ensureAlarm_same w) as (_ & Htabs & _ & Hcalls). Qed.

(** X3: Only the scan closes tabs: the initializer and the four tab listeners
    make no call of chrome.tabs.remove and leave the open tabs as they are,
    whatever fails. *)
Theorem listeners_close_no_tab env w tab tabId changeInfo :
  no_tab_closed w (onInstalled env w).2 ∧
  no_tab_closed w (onStartup env w).2 ∧
  no_tab_closed w (handleTabCreated env tab w).2 ∧
  no_tab_closed w (handleTabUpdated env tabId changeInfo tab w).2 ∧
  no_tab_closed w (handleTabRemoved env tabId w).2 ∧
  no_tab_closed w (onActivated env tabId w).2.
Proof.
  pose proof (date_now_closes_no_tab env) as Hnow.
  pose proof (saveTabMetadata_closes_no_tab env) as Hsave.
  pose proof ensureAlarm_closes_no_tab as Halarm.
  split; [by apply (steps_onInstalled no_tab_closed env)|].
  split; [by apply (steps_onInstalled no_tab_closed env)|].
  split; [by apply (steps_handleTabCreated no_tab_closed env)|].
  split; [by apply (steps_handleTabUpdated no_tab_closed env)|].
  split; [by apply (steps_handleTabRemoved no_tab_closed env)|].
  by apply (steps_onActivated no_tab_closed env).
Qed.

End Frames.

(** ** The tab listeners *)
Module Handlers.
Import JS Background Spec Relations Pipeline Listeners.

Ltac unfold_listener :=
  unfold handleTabCreated, handleTabUpdated, handleTabRemoved, onActivated,
    loadTabMetadata, saveTabMetadata, Chrome.storage_get_tabMetadata,
    Chrome.storage_set_tabMetadata, Chrome.date_now, Chrome.tabs_get;
  unfold bind, try_catch, ret; cbn beta iota zeta.

(** X4: An event about one tab never changes the record of another: each
    listener leaves the records under all other keys as they are, whatever
    fails. *)
Theorem listeners_touch_one_record env w tab tabId changeInfo :
  other_records_kept (key_of (tab_id tab)) w (handleTabCreated env tab w).2 ∧
  other_records_kept (key_of tabId) w (handleTabUpdated env tabId changeInfo tab w).2 ∧
  other_records_kept (key_of tabId) w (handleTabRemoved env tabId w).2 ∧
  other_records_kept (key_of tabId) w (onActivated env tabId w).2.
Proof.
  unfold other_records_kept, stored_metadata.
  repeat split; intros k Hk; unfold_listener;
    repeat case_match; simplify_eq/=;
    rewrite ?lookup_insert_ne, ?lookup_delete_ne by done; done.
Qed.

(** X5: onRemoved, when storage works: the record of the tab is deleted and the
    rest of the map is the same; when there was no record nothing is
    written. *)
Theorem handleTabRemoved_deletes env tabId w :
  storage_get_fails env TAB_METADATA_KEY = false →
  storage_set_fails env TAB_METADATA_KEY = false →
  let w' := (handleTabRemoved env tabId w).2 in
  stored_metadata w' = delete (key_of tabId) (stored_metadata w) ∧
  (stored_metadata w !! key_of tabId = None → w' = w).
Proof.
  intros Hget Hset. unfold stored_metadata. unfold_listener. rewrite Hget.
  cbn beta iota. destruct (default ∅ (w_tabMetadata w) !! key_of tabId) eqn:Hkey.
  - rewrite Hset. simpl. by split.
  - simpl. split; [|done]. by rewrite delete_id.
Qed.

Lemma handleTabRemoved_deletes_witness :
  let w := Scenario.day_later in
  let w' := (handleTabRemoved Scenario.hourly 7 w).2 in
  stored_metadata w' = delete (key_of 7) (stored_metadata w) ∧
  (stored_metadata w !! key_of 7 = None → w' = w).
Proof.
  apply (handleTabRemoved_deletes Scenario.hourly 7 Scenario.day_later); reflexivity.
Defined.

(** X6: onCreated for a qualifying tab, when storage works: the map gets a
    record made at [now] under the key of the tab, in place of any record
    that was there (its openedAt is lost), and one write is made. *)
Theorem handleTabCreated_tracks env tab w :
  storage_get_fails env TAB_METADATA_KEY = false →
  storage_set_fails env TAB_METADATA_KEY = false →
  isSupportedHttpUrl env (tab_url tab) = true →
  let now := clock env (w_ticks w) in
  let w' := (handleTabCreated env tab w).2 in
  stored_metadata w'
    = <[key_of (tab_id tab) :=
          mkTabRecord now now (or_opt (tab_url tab) "") (or_opt (tab_url tab) "")
                      (or_opt (tab_title tab) "")]> (stored_metadata w) ∧
  calls_since w w' = [CallStorageSet TAB_METADATA_KEY].
Proof.
  intros Hget Hset Hurl. unfold stored_metadata. unfold_listener.
  rewrite Hurl, Hget. cbn beta iota. rewrite Hset. simpl.
  split; [reflexivity|]. by apply calls_since_app.
Qed.

Lemma handleTabCreated_tracks_witness :
  let env := Scenario.hourly in
  let w := Scenario.day_later in
  let tab := Scenario.tab_x in
  let now := clock env (w_ticks w) in
  let w' := (handleTabCreated env tab w).2 in
  stored_metadata w'
    = <[key_of (tab_id tab) :=
          mkTabRecord now now (or_opt (tab_url tab) "") (or_opt (tab_url tab) "")
                      (or_opt (tab_title tab) "")]> (stored_metadata w) ∧
  calls_since w w' = [CallStorageSet TAB_METADATA_KEY].
Proof.
  apply (handleTabCreated_tracks Scenario.hourly Scenario.tab_x Scenario.day_later);
    reflexivity.
Defined.

(** X7: onUpdated on a tracked tab, whatever fails: openedAt, lastActiveAt and
    firstUrl stay; currentUrl stays or becomes the URL of the tab, which then
    qualifies; the title stays or becomes a title that is not empty. *)
Theorem handleTabUpdated_keeps_history env tabId changeInfo tab w e :
  stored_metadata w !! key_of tabId = Some e →
  ∃ e', stored_metadata (handleTabUpdated env tabId changeInfo tab w).2 !! key_of tabId
          = Some e' ∧
        openedAt e' = openedAt e ∧ lastActiveAt e' = lastActiveAt e ∧
        firstUrl e' = firstUrl e ∧
        (currentUrl e' = currentUrl e ∨
         (isSupportedHttpUrl env (tab_url tab) = true ∧
          tab_url tab = Some (currentUrl e'))) ∧
        (title e' = title e ∨ truthy (title e') = true).
Proof.
  unfold stored_metadata. intros Hkey. unfold_listener.
  destruct (_ && _); [simpl; eauto 10|].
  destruct (storage_get_fails env TAB_METADATA_KEY); [simpl; eauto 10|].
  cbn beta iota. rewrite Hkey.
  destruct (storage_set_fails env TAB_METADATA_KEY); simpl; [eauto 10|].
  rewrite lookup_insert_eq. eexists. split; [reflexivity|].
  assert (∀ o s, truthy_opt o = true → truthy (or_opt o s) = true) as Hor.
  { intros [s0|] s H; [|discriminate]. simpl in *. unfold or_str. by rewrite H. }
  destruct (isSupportedHttpUrl env (tab_url tab)) eqn:Hurl;
    destruct (truthy_opt (or_undefined _ _)) eqn:Htitle; simpl;
    repeat split; auto.
  all: try (right; by apply Hor).
  all: right; split; [done|];
    unfold isSupportedHttpUrl in Hurl; destruct (tab_url tab) as [u|]; [|discriminate];
    simpl; unfold or_str; by destruct u.
Qed.

Lemma handleTabUpdated_keeps_history_witness :
  let tab := mkTab 7 (Some "https://y") (Some "") false in
  let changeInfo := mkChangeInfo (Some "https://y") None None in
  ∃ e', stored_metadata
          (handleTabUpdated Scenario.hourly 7 changeInfo tab Scenario.day_later).2
          !! key_of 7 = Some e' ∧
        openedAt e' = 1%Z ∧ lastActiveAt e' = 1%Z ∧ firstUrl e' = "http://x" ∧
        (currentUrl e' = "http://x" ∨
         (isSupportedHttpUrl Scenario.hourly (tab_url tab) = true ∧
          tab_url tab = Some (currentUrl e'))) ∧
        (title e' = "X" ∨ truthy (title e') = true).
Proof.
  apply (handleTabUpdated_keeps_history Scenario.hourly 7
           (mkChangeInfo (Some "https://y") None None)
           (mkTab 7 (Some "https://y") (Some "") false)
           Scenario.day_later (Scenario.record_x 1)).
  vm_compute. reflexivity.
Defined.

(** X8: Focus on a tracked tab, when storage works: lastActiveAt becomes [now]
    and nothing else changes in the record or in the map. The live tab is
    not consulted: this holds also when the tab is gone or its URL no longer
    qualifies. *)
Theorem onActivated_bumps_lastActiveAt env tabId w e :
  storage_get_fails env TAB_METADATA_KEY = false →
  storage_set_fails env TAB_METADATA_KEY = false →
  stored_metadata w !! key_of tabId = Some e →
  stored_metadata (onActivated env tabId w).2
    = <[key_of tabId :=
          mkTabRecord (openedAt e) (clock env (w_ticks w)) (firstUrl e)
                      (currentUrl e) (title e)]> (stored_metadata w).
Proof.
  unfold stored_metadata. intros Hget Hset Hkey. unfold_listener.
  rewrite Hget. cbn beta iota. rewrite Hkey, Hset. reflexivity.
Qed.

Lemma onActivated_bumps_lastActiveAt_witness :
  stored_metadata (onActivated Scenario.hourly 7 (set_tabs [] Scenario.day_later)).2
    = <[key_of 7 := mkTabRecord 1 (25 * Scenario.HOUR) "http://x" "http://x" "X"]>
        (stored_metadata Scenario.day_later).
Proof.
  apply (onActivated_bumps_lastActiveAt Scenario.hourly 7
           (set_tabs [] Scenario.day_later) (Scenario.record_x 1));
    reflexivity.
Defined.

(** X9: An untracked tab starts being tracked at the first update or focus that
    finds it with a qualifying URL, when storage works: the record is made
    at [now], with the title of the tab or, for onUpdated, else the one of
    the change. *)
Theorem untracked_tab_tracked_on_event env tab changeInfo w :
  storage_get_fails env TAB_METADATA_KEY = false →
  storage_set_fails env TAB_METADATA_KEY = false →
  isSupportedHttpUrl env (tab_url tab) = true →
  stored_metadata w !! key_of (tab_id tab) = None →
  let now := clock env (w_ticks w) in
  let url := or_opt (tab_url tab) "" in
  (truthy_opt (change_url changeInfo) = true →
   stored_metadata (handleTabUpdated env (tab_id tab) changeInfo tab w).2
     = <[key_of (tab_id tab) :=
           mkTabRecord now now url url
             (or_opt (or_undefined (tab_title tab) (change_title changeInfo)) "")]>
         (stored_metadata w)) ∧
  (Chrome.tabs_get env (tab_id tab) w = (Returned tab, w) →
   stored_metadata (onActivated env (tab_id tab) w).2
     = <[key_of (tab_id tab) := mkTabRecord now now url url (or_opt (tab_title tab) "")]>
         (stored_metadata w)).
Proof.
  intros Hget Hset Hurl Hkey now url. subst now url. unfold stored_metadata in *. split.
  - intros Hchange. unfold_listener. rewrite Hchange. simpl.
    rewrite Hget. cbn beta iota. rewrite Hkey, Hurl. simpl. by rewrite Hset.
  - intros Hlive. unfold onActivated, loadTabMetadata, saveTabMetadata,
      Chrome.storage_get_tabMetadata, Chrome.storage_set_tabMetadata, Chrome.date_now;
      unfold bind, try_catch, ret; cbn beta iota zeta.
    rewrite Hget. cbn beta iota. rewrite Hkey.
    assert (Chrome.tabs_get env (tab_id tab) (set_ticks (S (w_ticks w)) w)
            = (Returned tab, set_ticks (S (w_ticks w)) w)) as ->.
    { unfold Chrome.tabs_get in *. simpl.
      destruct (tabs_get_fails env (tab_id tab)); [discriminate|].
      destruct (find _ (w_tabs w)); [|discriminate]. by injection Hlive as ->. }
    rewrite Hurl. simpl. by rewrite Hset.
Qed.

Lemma untracked_tab_tracked_on_event_witness :
  let env := Scenario.hourly in
  let w := ScenarioMore.unknown_tab_open in
  let tab := ScenarioMore.tab_news in
  let changeInfo := mkChangeInfo (Some "https://news") (Some "Loading") None in
  let now := clock env (w_ticks w) in
  let url := or_opt (tab_url tab) "" in
  (truthy_opt (change_url changeInfo) = true →
   stored_metadata (handleTabUpdated env (tab_id tab) changeInfo tab w).2
     = <[key_of (tab_id tab) :=
           mkTabRecord now now url url
             (or_opt (or_undefined (tab_title tab) (change_title changeInfo)) "")]>
         (stored_metadata w)) ∧
  (Chrome.tabs_get env (tab_id tab) w = (Returned tab, w) →
   stored_metadata (onActivated env (tab_id tab) w).2
     = <[key_of (tab_id tab) := mkTabRecord now now url url (or_opt (tab_title tab) "")]>
         (stored_metadata w)).
Proof.
  apply (untracked_tab_tracked_on_event Scenario.hourly ScenarioMore.tab_news
           (mkChangeInfo (Some "https://news") (Some "Loading") None)
           ScenarioMore.unknown_tab_open); reflexivity.
Defined.

End Handlers.

(** ** More on the stale scan *)
Module ScanMore.
Import JS JSFacts Background Spec Relations Pipeline Invariant Scan Pinned Frames.

Lemma scanned_false env tab :
  scanned env tab = false →
  tab_pinned tab = true ∨ negb (isSupportedHttpUrl env (tab_url tab)) = true.
Proof.
  unfold scanned. destruct (tab_pinned tab); [by left|]. simpl. intros ->. by right.
Qed.

(** The loop changes the local map only under the keys of the tabs it looks
    at. *)
Lemma stale_loop_key_kept env now k tabs :
  (∀ t, t ∈ tabs → key_of (tab_id t) = k → scanned env t = false) →
  ∀ md w md', ((stale_loop env now tabs md w).1 = Returned md') →
              (md' !! k) = (md !! k).
Proof.
  induction tabs as [|tab rest IH]; intros Hk md w md'; cbn [stale_loop].
  { by intros [= <-]. }
  assert (∀ md0 w0, ((stale_loop env now rest md0 w0).1 = Returned md') →
                    (md' !! k) = (md0 !! k)) as IH'.
  { intros md0 w0. apply IH. intros t Ht. by apply Hk, list_elem_of_further. }
  destruct (tab_pinned tab) eqn:Hpin; [apply IH'|].
  destruct (isSupportedHttpUrl env (tab_url tab)) eqn:Hurl; cbn [negb]; [|apply IH'].
  assert (key_of (tab_id tab) ≠ k) as Hne.
  { intros Heq. pose proof (Hk tab (list_elem_of_here _ _) Heq) as Hs.
    unfold scanned in Hs. by rewrite Hpin, Hurl in Hs. }
  set (md1 := match md !! key_of (tab_id tab) with Some _ => md | None => _ end).
  assert (md1 !! k = md !! k) as Hmd1.
  { subst md1. destruct (md !! key_of (tab_id tab)); [done|].
    by rewrite lookup_insert_ne. }
  destruct (_ <=? _)%Z.
  - unfold bind. destruct (closeAndLogTab env tab _ w) as [[[]|err] w1]; [|discriminate].
    intros Hrun. rewrite (IH' _ _ Hrun), lookup_delete_ne by exact Hne. exact Hmd1.
  - intros Hrun. by rewrite (IH' _ _ Hrun).
Qed.

(** X10: The scan does not collect records: under a key that no open, unpinned,
    qualifying tab has (the tab was closed, is pinned or shows another kind
    of page), the stored record is left as it is, whatever fails. *)
Theorem scan_keeps_unscanned_records env w k :
  (∀ t, t ∈ w_tabs w → key_of (tab_id t) = k → scanned env t = false) →
  stored_metadata (checkForStaleTabs env w).2 !! k = stored_metadata w !! k.
Proof.
  intros Hk. unfold stored_metadata.
  unfold checkForStaleTabs, loadTabMetadata, saveTabMetadata, Chrome.tabs_query,
    Chrome.storage_get_tabMetadata, Chrome.storage_set_tabMetadata, Chrome.date_now;
    unfold bind, ret; cbn beta iota.
  destruct (storage_get_fails env TAB_METADATA_KEY); [done|]. cbn beta iota.
  set (now := clock env (w_ticks w)). set (md := default ∅ (w_tabMetadata w)).
  set (w1 := set_ticks (S (w_ticks w)) w).
  pose proof (stale_loop_key_kept env now k (w_tabs w) Hk md w1) as Hkept.
  pose proof (keeps_stale_loop env now (w_tabs w) md w1) as [Hmeta _].
  destruct (stale_loop env now (w_tabs w) md w1) as [[md'|err] w2]; simpl in *.
  - destruct (storage_set_fails env TAB_METADATA_KEY); simpl.
    + by rewrite Hmeta.
    + by apply Hkept.
  - by rewrite Hmeta.
Qed.

Lemma scan_keeps_unscanned_records_witness :
  stored_metadata (checkForStaleTabs Scenario.hourly ScenarioMore.record_left_behind).2
    !! key_of 99
  = stored_metadata ScenarioMore.record_left_behind !! key_of 99.
Proof.
  apply (scan_keeps_unscanned_records Scenario.hourly ScenarioMore.record_left_behind
           (key_of 99)).
  intros t Ht Hkey. apply list_elem_of_singleton in Ht. subst t.
  vm_compute in Hkey. discriminate Hkey.
Defined.

Lemma stale_entry_agree env now md1 md t :
  md1 !! key_of (tab_id t) = md !! key_of (tab_id t) →
  stale_entry env now md1 t = stale_entry env now md t.
Proof. intros H. unfold stale_entry. by rewrite H. Qed.

(** The loop spares the tabs for which the test of the scan fails. *)
Lemma stale_loop_spares_unstale env now id tabs :
  ∀ md, (∀ t, t ∈ tabs → tab_id t = id → stale_entry env now md t = None) →
        spares id (stale_loop env now tabs md).
Proof.
  induction tabs as [|tab rest IH]; intros md Hun; cbn [stale_loop]; [apply spares_ret|].
  assert (∀ t, t ∈ rest → tab_id t = id → stale_entry env now md t = None) as Hrest.
  { intros t Ht. by apply Hun, list_elem_of_further. }
  pose proof (Hun tab (list_elem_of_here _ _)) as Hhead. unfold stale_entry in Hhead.
  destruct (tab_pinned tab) eqn:Hpin; [by apply IH|].
  destruct (isSupportedHttpUrl env (tab_url tab)) eqn:Hurl; cbn [negb] in *;
    [|by apply IH].
  destruct (md !! key_of (tab_id tab)) as [e|] eqn:Hkey.
  - change (STALE_THRESHOLD_MS <=? _)%Z with (is_stale_record now e).
    destruct (is_stale_record now e) eqn:Hstale; [|by apply IH].
    assert (tab_id tab ≠ id) as Hne by (intros Hid; by specialize (Hhead Hid)).
    apply spares_bind; [by apply spares_closeAndLogTab|]. intros _. apply IH.
    intros t Ht Hid. rewrite <- (Hrest t Ht Hid). apply stale_entry_agree.
    apply lookup_delete_ne. rewrite Hid. intros Heq%key_of_inj. by apply Hne.
  - change (STALE_THRESHOLD_MS <=? _)%Z
      with (is_stale_record now
              (mkTabRecord now now (or_opt (tab_url tab) "") (or_opt (tab_url tab) "")
                           (or_opt (tab_title tab) ""))).
    rewrite fresh_record_not_stale. apply IH. intros t Ht Hid.
    destruct (decide (tab_id tab = id)) as [Heq|Hne].
    + unfold stale_entry. destruct (tab_pinned t); [done|]. destruct (negb _); [done|].
      by rewrite Hid, <- Heq, lookup_insert_eq, fresh_record_not_stale.
    + rewrite <- (Hrest t Ht Hid). apply stale_entry_agree.
      apply lookup_insert_ne. rewrite Hid. intros Heq%key_of_inj. by apply Hne.
Qed.

(** X11: The scan closes a tab only when it is not pinned, its URL qualifies and
    its record is stale: if that fails for the open tabs with the identifier
    [id], no call of chrome.tabs.remove([id]) is made and they stay open,
    whatever fails. Scenario B is the instance of a tab focused an hour
    ago. *)
Theorem unstale_tab_survives env w id :
  (∀ t, t ∈ w_tabs w → tab_id t = id →
        stale_entry env (clock env (w_ticks w)) (stored_metadata w) t = None) →
  let r := checkForStaleTabs env w in
  (CallTabsRemove id ∉ calls_since w r.2) ∧
  (∀ t, tab_id t = id → t ∈ w_tabs w → t ∈ w_tabs r.2).
Proof.
  intros Hun r. subst r.
  unfold checkForStaleTabs, loadTabMetadata, saveTabMetadata, Chrome.tabs_query,
    Chrome.storage_get_tabMetadata, Chrome.storage_set_tabMetadata, Chrome.date_now;
    unfold bind, ret; cbn beta iota.
  destruct (storage_get_fails env TAB_METADATA_KEY); cbn beta iota.
  { simpl. split; [|done]. rewrite (calls_since_app w w []) by (by rewrite app_nil_r).
    by intros ?%elem_of_nil. }
  destruct (stale_loop_spares_unstale env _ id (w_tabs w) _ Hun
              (set_ticks (S (w_ticks w)) w)) as [(l & Hcalls & Hl) Htabs].
  destruct (stale_loop env _ (w_tabs w) _ _) as [[md'|err] w2]; simpl in *.
  - destruct (storage_set_fails env TAB_METADATA_KEY); simpl.
    all: split; [|exact Htabs].
    all: rewrite (calls_since_app w _ (l ++ [CallStorageSet TAB_METADATA_KEY]))
           by (simpl; by rewrite Hcalls, app_assoc).
    all: rewrite elem_of_app, list_elem_of_singleton; by intros [?|?].
  - split; [|exact Htabs]. by rewrite (calls_since_app w _ l).
Qed.

Lemma unstale_tab_survives_witness :
  let r := checkForStaleTabs Scenario.hourly ScenarioMore.focused_recently in
  (CallTabsRemove 7 ∉ calls_since ScenarioMore.focused_recently r.2) ∧
  (∀ t, tab_id t = 7%Z → t ∈ w_tabs ScenarioMore.focused_recently → t ∈ w_tabs r.2).
Proof.
  apply (unstale_tab_survives Scenario.hourly ScenarioMore.focused_recently 7).
  intros t Ht Hid. apply elem_of_cons in Ht as [->|Ht]; [discriminate Hid|].
  apply list_elem_of_singleton in Ht. subst t. vm_compute. reflexivity.
Defined.

(** In the local map the loop returns, a tab it looked at and did not find
    stale has the record it was judged by. *)
Lemma stale_loop_judged_kept env now tab tabs :
  NoDup (tab_id <$> tabs) → tab ∈ tabs → scanned env tab = true →
  ∀ md w md',
    is_stale_record now (judged_record now md tab) = false →
    ((stale_loop env now tabs md w).1 = Returned md') →
    (md' !! key_of (tab_id tab)) = Some (judged_record now md tab).
Proof.
  intros Hnodup Hin Hscanned.
  apply andb_true_iff in Hscanned as [Hpin Hurl]. apply negb_true_iff in Hpin.
  induction tabs as [|head rest IH]; [by apply elem_of_nil in Hin|].
  rewrite fmap_cons in Hnodup. apply NoDup_cons in Hnodup as [Hfresh Hnodup].
  intros md w md' Hunstale. cbn [stale_loop].
  apply elem_of_cons in Hin as [<-|Hin].
  - rewrite Hpin, Hurl. cbn [negb]. unfold judged_record in *.
    assert (∀ t, t ∈ rest → key_of (tab_id t) = key_of (tab_id tab) →
                 scanned env t = false) as Hnone.
    { intros t Ht Heq%key_of_inj. exfalso. apply Hfresh.
      rewrite <- Heq, list_elem_of_fmap. by exists t. }
    destruct (md !! key_of (tab_id tab)) as [e|] eqn:Hkey.
    + change (STALE_THRESHOLD_MS <=? _)%Z with (is_stale_record now e).
      rewrite Hunstale. intros Hrun.
      by rewrite (stale_loop_key_kept env now _ rest Hnone _ _ _ Hrun).
    + change (STALE_THRESHOLD_MS <=? _)%Z
        with (is_stale_record now
                (mkTabRecord now now (or_opt (tab_url tab) "") (or_opt (tab_url tab) "")
                             (or_opt (tab_title tab) ""))).
      rewrite Hunstale. intros Hrun.
      by rewrite (stale_loop_key_kept env now _ rest Hnone _ _ _ Hrun), lookup_insert_eq.
  - assert (key_of (tab_id head) ≠ key_of (tab_id tab)) as Hne.
    { intros Heq%key_of_inj. apply Hfresh. rewrite Heq, list_elem_of_fmap. by exists tab. }
    assert (∀ md1 w1, md1 !! key_of (tab_id tab) = md !! key_of (tab_id tab) →
              ((stale_loop env now rest md1 w1).1 = Returned md') →
              (md' !! key_of (tab_id tab)) = Some (judged_record now md tab)) as IH'.
    { intros md1 w1 Hsame Hrun.
      assert (judged_record now md1 tab = judged_record now md tab) as Hj
        by (unfold judged_record; by rewrite Hsame).
      rewrite <- Hj. apply (IH Hnodup Hin md1 w1); [by rewrite Hj | exact Hrun]. }
    destruct (tab_pinned head); [by apply IH'|].
    destruct (negb (isSupportedHttpUrl env (tab_url head))); [by apply IH'|].
    set (md1 := match md !! key_of (tab_id head) with Some _ => md | None => _ end).
    assert (md1 !! key_of (tab_id tab) = md !! key_of (tab_id tab)) as Hmd1.
    { subst md1. destruct (md !! key_of (tab_id head)); [done|].
      by rewrite lookup_insert_ne. }
    destruct (_ <=? _)%Z; [|by apply IH'].
    unfold bind. destruct (closeAndLogTab env head _ w) as [[[]|err] w1]; [|discriminate].
    apply IH'. by rewrite lookup_delete_ne.
Qed.

(** X12: After a scan that returned, an open, unpinned, qualifying tab that was
    not found stale has its record in the store: the one it had, or, if the
    worker did not know the tab, a new one made at the time of the scan. The
    identifiers of the open tabs are distinct. *)
Theorem scan_records_surviving_tab env w tab :
  (checkForStaleTabs env w).1 = Returned tt →
  NoDup (tab_id <$> w_tabs w) →
  tab ∈ w_tabs w →
  scanned env tab = true →
  let now := clock env (w_ticks w) in
  let e := judged_record now (stored_metadata w) tab in
  is_stale_record now e = false →
  stored_metadata (checkForStaleTabs env w).2 !! key_of (tab_id tab) = Some e.
Proof.
  intros Hret Hnodup Hin Hscanned now e Hunstale. revert Hret.
  unfold stored_metadata in *.
  unfold checkForStaleTabs, loadTabMetadata, saveTabMetadata, Chrome.tabs_query,
    Chrome.storage_get_tabMetadata, Chrome.storage_set_tabMetadata, Chrome.date_now;
    unfold bind, ret; cbn beta iota.
  destruct (storage_get_fails env TAB_METADATA_KEY); [discriminate|]. cbn beta iota.
  pose proof (stale_loop_judged_kept env now tab (w_tabs w) Hnodup Hin Hscanned
                (default ∅ (w_tabMetadata w)) (set_ticks (S (w_ticks w)) w)) as Hkept.
  fold now.
  destruct (stale_loop env now (w_tabs w) _ _) as [[md'|err] w2]; simpl; [|discriminate].
  destruct (storage_set_fails env TAB_METADATA_KEY); simpl; [discriminate|].
  intros _. by apply Hkept.
Qed.

Lemma scan_records_surviving_tab_witness :
  let env := Scenario.hourly in
  let w := ScenarioMore.unknown_tab_open in
  stored_metadata (checkForStaleTabs env w).2 !! key_of 9
  = Some (mkTabRecord (24 * Scenario.HOUR) (24 * Scenario.HOUR)
                      "https://news" "https://news" "News").
Proof.
  apply (scan_records_surviving_tab Scenario.hourly ScenarioMore.unknown_tab_open
           ScenarioMore.tab_news).
  - reflexivity.
  - apply (bool_decide_unpack _). vm_compute. exact I.
  - apply (bool_decide_unpack _). vm_compute. exact I.
  - reflexivity.
  - reflexivity.
Defined.

#[export] Instance no_metadata_write_preorder : PreOrder no_metadata_write.
Proof.
  split.
  - intros w. exists []. split; [by rewrite app_nil_r | by intros ?%elem_of_nil].
  - intros w1 w2 w3 (l1 & Hc1 & Hl1) (l2 & Hc2 & Hl2). exists (l1 ++ l2).
    split; [by rewrite Hc2, Hc1, app_assoc|]. by intros [?|?]%elem_of_app.
Qed.

Lemma closeAndLogTab_no_metadata_write env tab metaEntry :
  steps no_metadata_write (closeAndLogTab env tab metaEntry).
Proof.
  intros w. destruct metaEntry as [e|]; [|reflexivity].
  unfold no_metadata_write. unfold_pipeline. cbn beta iota zeta.
  destruct (tabs_remove_fails env (tab_id tab)); simpl;
    [| destruct (bool_decide _); simpl ];
    (destruct (storage_get_fails env CLOSED_ITEMS_KEY); simpl;
     [eexists; split; [reflexivity | not_among_calls]|];
     destruct (storage_set_fails env CLOSED_ITEMS_KEY); simpl;
     [eexists; split; [by rewrite <- !app_assoc | not_among_calls]|];
     destruct (fetch_fails env _); simpl; destruct (send_fails env _); simpl;
     eexists; (split; [by rewrite <- !app_assoc | not_among_calls])).
Qed.

(** X13: A scan that returns has written the metadata exactly once, as its last
    call, however many tabs it closed, and also when it closed none. *)
Theorem scan_writes_metadata_once env w :
  (checkForStaleTabs env w).1 = Returned tt →
  ∃ l, calls_since w (checkForStaleTabs env w).2 = l ++ [CallStorageSet TAB_METADATA_KEY] ∧
       CallStorageSet TAB_METADATA_KEY ∉ l.
Proof.
  unfold checkForStaleTabs, loadTabMetadata, saveTabMetadata, Chrome.tabs_query,
    Chrome.storage_get_tabMetadata, Chrome.storage_set_tabMetadata, Chrome.date_now;
    unfold bind, ret; cbn beta iota.
  destruct (storage_get_fails env TAB_METADATA_KEY); [discriminate|]. cbn beta iota.
  destruct (steps_stale_loop no_metadata_write env
              (closeAndLogTab_no_metadata_write env) (clock env (w_ticks w)) (w_tabs w)
              (default ∅ (w_tabMetadata w)) (set_ticks (S (w_ticks w)) w))
    as (l & Hcalls & Hl).
  destruct (stale_loop env _ (w_tabs w) _ _) as [[md'|err] w2]; simpl in *;
    [|discriminate].
  destruct (storage_set_fails env TAB_METADATA_KEY); simpl; [discriminate|].
  intros _. exists l. split; [|exact Hl].
  apply calls_since_app. simpl. by rewrite Hcalls, app_assoc.
Qed.

Lemma scan_writes_metadata_once_witness :
  let w := Scenario.day_later in
  ∃ l, calls_since w (checkForStaleTabs Scenario.hourly w).2
         = l ++ [CallStorageSet TAB_METADATA_KEY] ∧
       CallStorageSet TAB_METADATA_KEY ∉ l.
Proof.
  apply (scan_writes_metadata_once Scenario.hourly Scenario.day_later). reflexivity.
Defined.

(** X14: A scan that throws has not touched the stored metadata: the records of
    the tabs it closed before the failure are still there. *)
Theorem failed_scan_keeps_metadata env w err :
  (checkForStaleTabs env w).1 = Thrown err →
  w_tabMetadata (checkForStaleTabs env w).2 = w_tabMetadata w.
Proof.
  unfold checkForStaleTabs, loadTabMetadata, saveTabMetadata, Chrome.tabs_query,
    Chrome.storage_get_tabMetadata, Chrome.storage_set_tabMetadata, Chrome.date_now;
    unfold bind, ret; cbn beta iota.
  destruct (storage_get_fails env TAB_METADATA_KEY); [done|]. cbn beta iota.
  pose proof (keeps_stale_loop env (clock env (w_ticks w)) (w_tabs w)
                (default ∅ (w_tabMetadata w)) (set_ticks (S (w_ticks w)) w))
    as [Hmeta _].
  destruct (stale_loop env _ (w_tabs w) _ _) as [[md'|err'] w2]; simpl in *; [|done].
  destruct (storage_set_fails env TAB_METADATA_KEY); simpl; [done | discriminate].
Qed.

Lemma failed_scan_keeps_metadata_witness :
  let r := checkForStaleTabs (Scenario.queue_write_refused (25 * Scenario.HOUR))
                             Scenario.day_later in
  r.1 = Thrown (StorageError CLOSED_ITEMS_KEY) ∧
  w_tabs r.2 = [Scenario.tab_mail] ∧
  w_tabMetadata r.2 = w_tabMetadata Scenario.day_later.
Proof.
  split; [reflexivity|]. split; [reflexivity|].
  apply (failed_scan_keeps_metadata (Scenario.queue_write_refused (25 * Scenario.HOUR))
           Scenario.day_later (StorageError CLOSED_ITEMS_KEY)).
  reflexivity.
Defined.

End ScanMore.

(** ** The order of the timestamps in the queue *)
Module QueueOrder.
Import JS JSFacts Background Spec Relations Pipeline Invariant Frames.
#[local] Open Scope Z_scope.

Lemma closeAndLogTab_queue_ok env tab e w :
  openedAt e ≤ clock env (w_ticks w) →
  queue_ok w → queue_ok (closeAndLogTab env tab (Some e) w).2.
Proof.
  intros He Hw. unfold queue_ok in *.
  destruct (storage_get_fails env CLOSED_ITEMS_KEY) eqn:Hget.
  { destruct (closeAndLogTab_storage_failure env tab e w (or_introl Hget))
      as (_ & Hq & _). unfold stored_closedItems in *. by rewrite Hq. }
  destruct (storage_set_fails env CLOSED_ITEMS_KEY) eqn:Hset.
  { destruct (closeAndLogTab_storage_failure env tab e w (or_intror Hset))
      as (_ & Hq & _). unfold stored_closedItems in *. by rewrite Hq. }
  rewrite (closeAndLogTab_run env tab e w Hget Hset). unfold stored_closedItems. simpl.
  apply Forall_app. split; [exact Hw|]. by apply Forall_singleton.
Qed.

Lemma stale_loop_queue_ok env now tabs :
  clock_monotone env →
  ∀ md w, all_ok now md → now ≤ clock env (w_ticks w) → queue_ok w →
          queue_ok (stale_loop env now tabs md w).2.
Proof.
  intros Hmono. induction tabs as [|tab rest IH]; intros md w Hmd Hnow Hw;
    cbn [stale_loop]; [exact Hw|].
  destruct (tab_pinned tab); [by apply IH|].
  destruct (negb (isSupportedHttpUrl env (tab_url tab))); [by apply IH|].
  set (key := key_of (tab_id tab)).
  set (entry := match md !! key with Some entry => entry | None => _ end).
  set (md1 := match md !! key with Some _ => md | None => _ end).
  assert (record_ok now entry) as Hentry.
  { subst entry. destruct (md !! key) eqn:Hkey; [exact (Hmd _ _ Hkey)|].
    apply record_ok_fresh. }
  assert (all_ok now md1) as Hmd1.
  { subst md1. destruct (md !! key); [exact Hmd|]. by apply all_ok_insert. }
  destruct (_ <=? _); [|by apply IH].
  unfold bind.
  pose proof (closeAndLogTab_queue_ok env tab entry w) as Hq.
  destruct (keeps_closeAndLogTab env tab (Some entry) w) as [_ Hticks].
  destruct (closeAndLogTab env tab (Some entry) w) as [[[]|err] w1]; simpl in *.
  - apply IH; [by apply all_ok_delete| |].
    + etrans; [exact Hnow|]. by apply Hmono.
    + apply Hq; [|exact Hw]. destruct Hentry. lia.
  - apply Hq; [|exact Hw]. destruct Hentry. lia.
Qed.

Lemma checkForStaleTabs_queue_ok env w :
  clock_monotone env → store_ok env w → queue_ok w →
  queue_ok (checkForStaleTabs env w).2.
Proof.
  intros Hmono Hstore Hw.
  unfold checkForStaleTabs, loadTabMetadata, saveTabMetadata, Chrome.tabs_query,
    Chrome.storage_get_tabMetadata, Chrome.storage_set_tabMetadata, Chrome.date_now;
    unfold bind, ret; cbn beta iota.
  destruct (storage_get_fails env TAB_METADATA_KEY); [exact Hw|]. cbn beta iota.
  pose proof (stale_loop_queue_ok env (clock env (w_ticks w)) (w_tabs w) Hmono
                (default ∅ (w_tabMetadata w)) (set_ticks (S (w_ticks w)) w) Hstore)
    as Hloop.
  destruct (stale_loop env _ (w_tabs w) _ _) as [[md'|err] w2]; simpl in *.
  - destruct (storage_set_fails env TAB_METADATA_KEY); simpl;
      (apply Hloop; [apply Hmono; lia | exact Hw]).
  - apply Hloop; [apply Hmono; lia | exact Hw].
Qed.

Lemma dispatch_queue_ok env ev w :
  clock_monotone env → store_ok env w → queue_ok w → queue_ok (dispatch env ev w).
Proof.
  intros Hmono Hstore Hw.
  assert (steps queue_kept (Chrome.date_now env)) as Hnow by (by intros w0).
  assert (∀ md, steps queue_kept (saveTabMetadata env md)) as Hsave.
  { intros md w0. by destruct (saveTabMetadata_same env md w0) as (H & _). }
  assert (steps queue_kept ensureAlarm) as Halarm.
  { intros w0. by destruct (ensureAlarm_same w0) as (H & _). }
  assert (∀ w', queue_kept w w' → queue_ok w') as Hkept.
  { intros w' H. unfold queue_ok, stored_closedItems in *. by rewrite H. }
  destruct ev; cbn [dispatch].
  - exact (Hkept _ (steps_onInstalled queue_kept env Hnow Hsave Halarm w)).
  - exact (Hkept _ (steps_onInstalled queue_kept env Hnow Hsave Halarm w)).
  - unfold onAlarm. destruct (bool_decide _); [|exact Hw].
    by apply checkForStaleTabs_queue_ok.
  - exact (Hkept _ (steps_handleTabCreated queue_kept env Hnow Hsave tab w)).
  - exact (Hkept _ (steps_onActivated queue_kept env Hnow Hsave tabId w)).
  - exact (Hkept _ (steps_handleTabUpdated queue_kept env Hnow Hsave tabId changeInfo tab w)).
  - exact (Hkept _ (steps_handleTabRemoved queue_kept env Hsave tabId w)).
  - exact Hw.
Qed.

Lemma run_queue_ok env evs :
  clock_monotone env →
  ∀ w, store_ok env w → queue_ok w → queue_ok (run env evs w).
Proof.
  intros Hmono. induction evs as [|ev evs IH]; intros w Hstore Hw; [exact Hw|].
  apply IH; [by apply dispatch_ok | by apply dispatch_queue_ok].
Qed.

(** X15: With a clock that never goes back, and starting with no metadata and no
    queue, every ClosedItem the worker ever logs has closedAt >= openedAt. *)
Theorem closedAt_not_before_openedAt env w0 evs item :
  clock_monotone env →
  w_tabMetadata w0 = None →
  w_closedItems w0 = None →
  item ∈ stored_closedItems (run env evs w0) →
  item_openedAt item ≤ item_closedAt item.
Proof.
  intros Hmono Hmeta Hqueue Hin.
  assert (store_ok env w0) as Hstore.
  { unfold store_ok, stored_metadata. rewrite Hmeta. apply all_ok_empty. }
  assert (queue_ok w0) as Hw.
  { unfold queue_ok, stored_closedItems. rewrite Hqueue. constructor. }
  pose proof (run_queue_ok env evs Hmono w0 Hstore Hw) as Hok.
  unfold queue_ok in Hok. rewrite Forall_forall in Hok. by apply Hok.
Qed.

Lemma closedAt_not_before_openedAt_witness :
  let item := mkClosedItem Scenario.HOUR (26 * Scenario.HOUR) "http://x" "X" in
  item_openedAt item ≤ item_closedAt item.
Proof.
  apply (closedAt_not_before_openedAt Scenario.hourly
           (Scenario.world [Scenario.tab_x] None None None)
           ([TabCreated Scenario.tab_x]
            ++ replicate 23 (TabActivated 3)
            ++ [AlarmFired ALARM_NAME])).
  - intros m n Hmn. unfold Scenario.hourly, Scenario.HOUR. cbn [clock]. lia.
  - reflexivity.
  - reflexivity.
  - apply (bool_decide_unpack _). vm_compute. exact I.
Defined.

End QueueOrder.

(** ** More on the initializer *)
Module InitializerMore.
Import JS Background Spec Relations Pipeline Initializer.

Lemma initialise_loop_keeps_records env now tabs :
  ∀ md changed k e, md !! k = Some e →
    (initialise_loop env now tabs md changed).1 !! k = Some e.
Proof.
  induction tabs as [|tab rest IH]; intros md changed k e Hk; cbn [initialise_loop];
    [exact Hk|].
  destruct (negb _); [by apply IH|].
  destruct (md !! key_of (tab_id tab)) eqn:Hkey; [by apply IH|].
  apply IH. rewrite lookup_insert_ne; [exact Hk|]. intros Heq. rewrite Heq, Hk in Hkey.
  discriminate Hkey.
Qed.

Lemma initialise_loop_new_records env now tabs :
  ∀ md changed k e,
    (initialise_loop env now tabs md changed).1 !! k = Some e → md !! k = None →
    ∃ t, t ∈ tabs ∧ isSupportedHttpUrl env (tab_url t) = true ∧
         k = key_of (tab_id t) ∧
         e = mkTabRecord now now (or_opt (tab_url t) "") (or_opt (tab_url t) "")
                         (or_opt (tab_title t) "").
Proof.
  induction tabs as [|tab rest IH]; intros md changed k e; cbn [initialise_loop].
  { simpl. intros H1 H2. rewrite H1 in H2. discriminate H2. }
  assert (∀ md0 c0, (initialise_loop env now rest md0 c0).1 !! k = Some e →
                    md0 !! k = None →
                    ∃ t, t ∈ tab :: rest ∧ isSupportedHttpUrl env (tab_url t) = true ∧
                         k = key_of (tab_id t) ∧
                         e = mkTabRecord now now (or_opt (tab_url t) "")
                               (or_opt (tab_url t) "") (or_opt (tab_title t) "")) as IH'.
  { intros md0 c0 H1 H2. destruct (IH md0 c0 k e H1 H2) as (t & Ht & Hrest).
    exists t. split; [by apply list_elem_of_further | exact Hrest]. }
  destruct (isSupportedHttpUrl env (tab_url tab)) eqn:Hurl; cbn [negb]; [|apply IH'].
  destruct (md !! key_of (tab_id tab)) eqn:Hkey; [apply IH'|].
  intros Hres Hnone. destruct (decide (k = key_of (tab_id tab))) as [->|Hne].
  - exists tab. split; [apply list_elem_of_here|]. split; [exact Hurl|]. split; [done|].
    rewrite (initialise_loop_keeps_records env now rest _ true _ _
               (lookup_insert_eq _ _ _)) in Hres.
    by injection Hres as <-.
  - apply (IH' _ _ Hres). by rewrite lookup_insert_ne.
Qed.

(** X16: The reconciliation, when storage works: every record that was stored is
    left as it is; every open tab with a qualifying URL has a record
    afterwards; a record that is new belongs to such a tab and was made at
    [now] from its URL and title; and nothing is written when no tab lacked
    a record. *)
Theorem initialiseExistingTabs_reconciles env w :
  storage_get_fails env TAB_METADATA_KEY = false →
  storage_set_fails env TAB_METADATA_KEY = false →
  let now := clock env (w_ticks w) in
  let w' := (initialiseExistingTabs env w).2 in
  (∀ k e, stored_metadata w !! k = Some e → stored_metadata w' !! k = Some e) ∧
  covered env (w_tabs w) (stored_metadata w') ∧
  (∀ k e, stored_metadata w' !! k = Some e → stored_metadata w !! k = None →
          ∃ t, t ∈ w_tabs w ∧ isSupportedHttpUrl env (tab_url t) = true ∧
               k = key_of (tab_id t) ∧
               e = mkTabRecord now now (or_opt (tab_url t) "") (or_opt (tab_url t) "")
                               (or_opt (tab_title t) "")) ∧
  (covered env (w_tabs w) (stored_metadata w) → calls_since w w' = []).
Proof.
  intros Hget Hset now w'. subst now w'. unfold stored_metadata.
  unfold initialiseExistingTabs, loadTabMetadata, saveTabMetadata, Chrome.tabs_query,
    Chrome.storage_get_tabMetadata, Chrome.storage_set_tabMetadata, Chrome.date_now;
    unfold bind, ret; cbn beta iota zeta.
  rewrite Hget. cbn beta iota.
  set (now := clock env (w_ticks w)). set (md := default ∅ (w_tabMetadata w)).
  pose proof (initialise_loop_keeps_records env now (w_tabs w) md false) as Hkeep.
  pose proof (initialise_loop_covers env now (w_tabs w) md false) as Hcov.
  pose proof (initialise_loop_new_records env now (w_tabs w) md false) as Hnew.
  pose proof (initialise_loop_unchanged env now (w_tabs w) md) as Hsame.
  pose proof (initialise_loop_covered env now (w_tabs w) md false) as Hnone.
  destruct (initialise_loop env now (w_tabs w) md false) as [md' changed]. simpl in *.
  destruct changed.
  - rewrite Hset. simpl. repeat split; auto.
    intros Hcovered. specialize (Hnone Hcovered). discriminate.
  - specialize (Hsame eq_refl). subst md'. simpl. repeat split; auto.
    intros _. apply calls_since_app. by rewrite app_nil_r.
Qed.

Lemma initialiseExistingTabs_reconciles_witness :
  let env := Scenario.hourly in
  let w := ScenarioMore.unknown_tab_open in
  let now := clock env (w_ticks w) in
  let w' := (initialiseExistingTabs env w).2 in
  (∀ k e, stored_metadata w !! k = Some e → stored_metadata w' !! k = Some e) ∧
  covered env (w_tabs w) (stored_metadata w') ∧
  (∀ k e, stored_metadata w' !! k = Some e → stored_metadata w !! k = None →
          ∃ t, t ∈ w_tabs w ∧ isSupportedHttpUrl env (tab_url t) = true ∧
               k = key_of (tab_id t) ∧
               e = mkTabRecord now now (or_opt (tab_url t) "") (or_opt (tab_url t) "")
                               (or_opt (tab_title t) "")) ∧
  (covered env (w_tabs w) (stored_metadata w) → calls_since w w' = []).
Proof.
  apply (initialiseExistingTabs_reconciles Scenario.hourly ScenarioMore.unknown_tab_open);
    reflexivity.
Defined.

End InitializerMore.

(** ** More on the options page *)
Module OptionsMore.
Import JS Options Markdown Grouping MarkdownFacts Pipeline.

(** X17: The setting round trip, when storage works: a positive number of hours
    that was saved is the one the page shows when it loads; with nothing
    stored the page shows the default 24. *)
Theorem inactivity_threshold_roundtrip env h w :
  storage_get_fails env INACTIVITY_THRESHOLD_KEY = false →
  storage_set_fails env INACTIVITY_THRESHOLD_KEY = false →
  (0 < h)%Z →
  (loadInactivityThreshold env (saveInactivityThreshold env (Some h) w).2).1
    = Returned (Some h) ∧
  (w_inactivityThresholdHours w = None →
   (loadInactivityThreshold env w).1 = Returned (Some 24%Z)).
Proof.
  intros Hget Hset Hpos.
  unfold loadInactivityThreshold, saveInactivityThreshold, setSettingsStatus,
    Chrome.storage_get_inactivityThresholdHours,
    Chrome.storage_set_inactivityThresholdHours; unfold bind, try_catch, ret.
  cbn beta iota zeta. rewrite Hget.
  destruct (Z.eqb_spec h 0) as [->|_]; [lia|].
  destruct (Z.leb_spec h 0) as [?|_]; [lia|]. simpl. rewrite Hset. simpl.
  split; [reflexivity|]. by intros ->.
Qed.

Lemma inactivity_threshold_roundtrip_witness :
  let env := Scenario.hourly in
  let w := Scenario.day_later in
  (loadInactivityThreshold env (saveInactivityThreshold env (Some 48%Z) w).2).1
    = Returned (Some 48%Z) ∧
  (w_inactivityThresholdHours w = None →
   (loadInactivityThreshold env w).1 = Returned (Some 24%Z)).
Proof.
  apply (inactivity_threshold_roundtrip Scenario.hourly 48 Scenario.day_later);
    reflexivity.
Defined.

(** X18: A value that is not a positive number (NaN, 0, negative) is never
    written: the stored setting stays and the only thing done is to show the
    error status. *)
Theorem invalid_threshold_not_saved env hours w :
  (∀ h, hours = Some h → (h ≤ 0)%Z) →
  (saveInactivityThreshold env hours w).2 = record_call (CallSetSettingsStatus false) w.
Proof.
  intros Hbad. unfold saveInactivityThreshold, setSettingsStatus.
  destruct hours as [h|]; [|reflexivity]. specialize (Hbad h eq_refl).
  destruct (Z.eqb_spec h 0); [reflexivity|].
  destruct (Z.leb_spec h 0); [reflexivity | lia].
Qed.

Lemma invalid_threshold_not_saved_witness :
  (saveInactivityThreshold Scenario.hourly (Some (-3)%Z) Scenario.day_later).2
    = record_call (CallSetSettingsStatus false) Scenario.day_later.
Proof.
  apply (invalid_threshold_not_saved Scenario.hourly (Some (-3)%Z) Scenario.day_later).
  intros h [= <-]. lia.
Defined.

(** X19: The escaping loses nothing: dropping the backslash before each bracket
    of the escaped text gives the text back, for every text. *)
Theorem escapeMarkdownLinkText_recoverable t :
  unescape_brackets (escapeMarkdownLinkText (Some t)) = t.
Proof. rewrite escapeMarkdownLinkText_single_pass. apply unescape_escape_brackets. Qed.

Lemma escape_brackets_plain t : no_bracket t = true → escape_brackets t = t.
Proof.
  induction t as [|a rest IH]; [done|]. cbn [no_bracket escape_brackets].
  intros [[Hopen Hclose]%andb_true_iff Hrest]%andb_true_iff.
  apply negb_true_iff in Hopen, Hclose. rewrite Hopen, Hclose. by rewrite IH.
Qed.

(** X20: A text without brackets is returned as it is, and an undefined text
    gives the empty text. *)
Theorem escapeMarkdownLinkText_plain t :
  no_bracket t = true →
  escapeMarkdownLinkText (Some t) = t ∧ escapeMarkdownLinkText None = "".
Proof.
  intros H. split; [|reflexivity].
  rewrite escapeMarkdownLinkText_single_pass. by apply escape_brackets_plain.
Qed.

Lemma escapeMarkdownLinkText_plain_witness :
  escapeMarkdownLinkText (Some "C:\temp (draft)") = "C:\temp (draft)" ∧
  escapeMarkdownLinkText None = "".
Proof. apply (escapeMarkdownLinkText_plain "C:\temp (draft)"). reflexivity. Defined.

Section Groups.
Variable formatDateISO : Z → string.
Variable formatTime : Z → string.
Variable date_now : Z.

Lemma groupByDate_snoc items x :
  groupByDate formatDateISO date_now (items ++ [x]) = push_day (day_of formatDateISO date_now x) x (groupByDate formatDateISO date_now items).
Proof. unfold groupByDate. by rewrite foldl_app. Qed.

Lemma group_of_push_day d x map d' :
  group_of d' (push_day d x map)
  = if decide (d' = d) then group_of d map ++ [x] else group_of d' map.
Proof.
  induction map as [|[d0 its] rest IH]; cbn [push_day group_of].
  - destruct (String.eqb_spec d d'), (decide (d' = d)); simpl; congruence.
  - destruct (String.eqb_spec d0 d) as [->|Hne]; cbn [group_of].
    + destruct (String.eqb_spec d d'), (decide (d' = d)); simpl; congruence.
    + rewrite IH. destruct (String.eqb_spec d0 d'), (decide (d' = d)); simpl; congruence.
Qed.

Lemma keys_push_day d x map :
  (push_day d x map).*1 = if decide (d ∈ map.*1) then map.*1 else map.*1 ++ [d].
Proof.
  induction map as [|[d0 its] rest IH]; cbn [push_day].
  - rewrite decide_False; [done|]. by intros ?%elem_of_nil.
  - destruct (String.eqb_spec d0 d) as [->|Hne].
    + rewrite !fmap_cons. cbn [fst]. rewrite decide_True; [done|]. apply list_elem_of_here.
    + rewrite !fmap_cons, IH. cbn [fst]. destruct (decide (d ∈ rest.*1)) as [Hin|Hnin].
      * rewrite decide_True; [done|]. by apply list_elem_of_further.
      * rewrite decide_False; [done|]. intros [?|?]%elem_of_cons; congruence.
Qed.

Lemma push_day_nonempty d x map :
  Forall (λ g, g.2 ≠ []) map → Forall (λ g, g.2 ≠ []) (push_day d x map).
Proof.
  induction map as [|[d0 its] rest IH]; intros Hmap; cbn [push_day].
  - repeat constructor. done.
  - apply Forall_cons in Hmap as [H0 Hrest].
    destruct (String.eqb d0 d); constructor; auto.
    simpl. by intros [? _]%app_eq_nil.
Qed.

Lemma group_of_elem map d its :
  NoDup map.*1 → (d, its) ∈ map → group_of d map = its.
Proof.
  induction map as [|[d0 its0] rest IH]; intros Hnodup Hin;
    [by apply elem_of_nil in Hin|].
  simpl in Hnodup. apply NoDup_cons in Hnodup as [Hfresh Hnodup]. cbn [group_of].
  apply elem_of_cons in Hin as [[= <- <-]|Hin].
  - by rewrite String.eqb_refl.
  - destruct (String.eqb_spec d0 d) as [->|_]; [|by apply IH].
    exfalso. apply Hfresh. rewrite list_elem_of_fmap. by exists (d, its).
Qed.

Lemma groupByDate_facts items :
  NoDup (groupByDate formatDateISO date_now items).*1 ∧
  Forall (λ g, g.2 ≠ []) (groupByDate formatDateISO date_now items) ∧
  (∀ d, group_of d (groupByDate formatDateISO date_now items) = filter (λ it, day_of formatDateISO date_now it = d) items) ∧
  (∀ it, it ∈ items → day_of formatDateISO date_now it ∈ (groupByDate formatDateISO date_now items).*1).
Proof.
  induction items as [|x items (Hnodup & Hne & Hgroup & Hdays)] using rev_ind.
  { repeat split; [apply NoDup_nil_2 | apply Forall_nil_2 | by intros it ?%elem_of_nil]. }
  rewrite groupByDate_snoc. split; [|split; [|split]].
  - rewrite keys_push_day. destruct (decide _) as [Hin|Hnin]; [done|].
    apply NoDup_app. split; [done|]. split; [|apply NoDup_singleton].
    intros d Hd ->%list_elem_of_singleton. by apply Hnin.
  - by apply push_day_nonempty.
  - intros d. rewrite group_of_push_day, filter_app, Hgroup.
    rewrite filter_cons, filter_nil.
    destruct (decide (d = day_of formatDateISO date_now x)) as [->|Hd].
    + by rewrite decide_True.
    + rewrite decide_False by done. by rewrite app_nil_r.
  - intros it Hit. rewrite keys_push_day.
    apply elem_of_app in Hit as [Hit|Hit].
    2:{ apply list_elem_of_singleton in Hit. subst it.
        destruct (decide _) as [Hin|Hnin]; [done|]. apply elem_of_app. right.
        apply list_elem_of_here. }
    specialize (Hdays it Hit). destruct (decide _); [done|].
    apply elem_of_app. by left.
Qed.

(** X21: The grouping is a partition by day that keeps the order: the days of the
    groups are distinct, the day of every item has a group, and each group
    is not empty and holds exactly the items of its day, in the order of the
    queue. *)
Theorem groupByDate_partitions items :
  NoDup (groupByDate formatDateISO date_now items).*1 ∧
  (∀ it, it ∈ items → day_of formatDateISO date_now it ∈ (groupByDate formatDateISO date_now items).*1) ∧
  (∀ d its, (d, its) ∈ groupByDate formatDateISO date_now items →
            its ≠ [] ∧ its = filter (λ it, day_of formatDateISO date_now it = d) items).
Proof.
  destruct (groupByDate_facts items) as (Hnodup & Hne & Hgroup & Hdays).
  split; [exact Hnodup|]. split; [exact Hdays|].
  intros d its Hin. split.
  - rewrite Forall_forall in Hne. exact (Hne (d, its) Hin).
  - by rewrite <- Hgroup, (group_of_elem _ d its Hnodup Hin).
Qed.

Lemma string_concat_cons_nonempty sep a s rest :
  String.concat sep (String a s :: rest) ≠ "".
Proof. destruct rest as [|r rest]; simpl; discriminate. Qed.

Lemma string_concat_heading sep d rest :
  String.concat sep (("## " +:+ d) :: rest) ≠ "".
Proof.
  change ("## " +:+ d) with (String "#" (String "#" (String " " d))).
  apply string_concat_cons_nonempty.
Qed.

(** X22: The generated markdown is empty exactly when there is no item: the copy
    button, which is disabled on empty markdown, is enabled for every
    queue that is not empty. *)
Theorem buildMarkdownFromItems_empty_iff items :
  buildMarkdownFromItems formatDateISO formatTime date_now items = "" ↔ items = [].
Proof.
  split; [|by intros ->].
  destruct items as [|x items]; [done|]. intros Hempty. exfalso.
  unfold buildMarkdownFromItems in Hempty.
  destruct (groupByDate_facts (x :: items)) as (_ & _ & _ & Hdays).
  destruct (groupByDate formatDateISO date_now (x :: items)) as [|[d its] rest] eqn:Hgroups.
  - specialize (Hdays x (list_elem_of_here _ _)). by apply elem_of_nil in Hdays.
  - cbn [map concat app] in Hempty. by apply string_concat_heading in Hempty.
Qed.

End Groups.

End OptionsMore.

(** ** How the two timestamps of a record change *)
Module Timestamps.
Import JS Background Spec Relations Ageing.
#[local] Open Scope Z_scope.

Lemma evolves_refl now md : evolves now md md.
Proof.
  intros k e' Hk. right. exists e'. split; [exact Hk|]. split; [reflexivity | by left].
Qed.

Lemma evolves_trans now md1 md2 md3 :
  evolves now md1 md2 → evolves now md2 md3 → evolves now md1 md3.
Proof.
  intros H12 H23 k e3 Hk.
  destruct (H23 k e3 Hk) as [Hnew | (e2 & Hk2 & Ho & Hl)]; [by left|].
  destruct (H12 k e2 Hk2) as [[Ho2 Hl2] | (e1 & Hk1 & Ho1 & Hl1)].
  - left. split; [congruence | destruct Hl; congruence].
  - right. exists e1. split; [exact Hk1|]. split; [congruence|].
    destruct Hl as [Hl|Hl]; [|by right]. destruct Hl1; [left | right]; congruence.
Qed.

Lemma evolves_insert_fresh now md k e : made_at now e → evolves now md (<[k:=e]> md).
Proof.
  intros He k' e' Hk'. destruct (decide (k' = k)) as [->|Hne].
  - rewrite lookup_insert_eq in Hk'. injection Hk' as <-. by left.
  - rewrite lookup_insert_ne in Hk' by done. by apply evolves_refl.
Qed.

Lemma evolves_insert_aged now md k e0 e :
  md !! k = Some e0 → aged now e0 e → evolves now md (<[k:=e]> md).
Proof.
  intros Hk He k' e' Hk'. destruct (decide (k' = k)) as [->|Hne].
  - rewrite lookup_insert_eq in Hk'. injection Hk' as <-. right. by exists e0.
  - rewrite lookup_insert_ne in Hk' by done. by apply evolves_refl.
Qed.

Lemma evolves_delete now md k : evolves now md (delete k md).
Proof.
  intros k' e' Hk'. apply evolves_refl.
  destruct (decide (k' = k)) as [->|Hne].
  - by rewrite lookup_delete_eq in Hk'.
  - by rewrite lookup_delete_ne in Hk'.
Qed.

Lemma step_refl now P md : store_step now P md md.
Proof. split; [apply evolves_refl|]. intros k e e' _ Hk Hk'. congruence. Qed.

(** A new record under a key that had none, or that [P] leaves out. *)
Lemma step_insert_fresh now (P : string → Prop) md k e :
  made_at now e → (P k → md !! k = None) → store_step now P md (<[k:=e]> md).
Proof.
  intros He Hk. split; [by apply evolves_insert_fresh|].
  intros k' e1 e2 HP H1 H2. destruct (decide (k' = k)) as [->|Hne].
  - rewrite (Hk HP) in H1. discriminate H1.
  - rewrite lookup_insert_ne in H2 by done. congruence.
Qed.

Lemma step_insert_aged now P md k e0 e :
  md !! k = Some e0 → aged now e0 e → store_step now P md (<[k:=e]> md).
Proof.
  intros Hk He. split; [by apply (evolves_insert_aged now md k e0)|].
  intros k' e1 e2 _ H1 H2. destruct (decide (k' = k)) as [->|Hne].
  - rewrite lookup_insert_eq in H2. injection H2 as <-.
    rewrite Hk in H1. injection H1 as <-. apply He.
  - rewrite lookup_insert_ne in H2 by done. congruence.
Qed.

Lemma step_delete now P md k : store_step now P md (delete k md).
Proof.
  split; [apply evolves_delete|].
  intros k' e1 e2 _ H1 H2. destruct (decide (k' = k)) as [->|Hne].
  - by rewrite lookup_delete_eq in H2.
  - rewrite lookup_delete_ne in H2 by done. congruence.
Qed.

(** Saving a map leaves the stored one or puts the new one in its place. *)
Lemma step_save env now P md0 md w :
  stored_metadata w = md0 → store_step now P md0 md →
  store_step now P md0 (stored_metadata (saveTabMetadata env md w).2).
Proof.
  intros <- Hmd. unfold saveTabMetadata, Chrome.storage_set_tabMetadata.
  destruct (storage_set_fails env TAB_METADATA_KEY); cbn [snd].
  - apply step_refl.
  - exact Hmd.
Qed.

Lemma step_same now P w w' :
  w_tabMetadata w' = w_tabMetadata w →
  store_step now P (stored_metadata w) (stored_metadata w').
Proof. intros H. unfold stored_metadata. rewrite H. apply step_refl. Qed.

Lemma made_at_fresh now u1 u2 t : made_at now (mkTabRecord now now u1 u2 t).
Proof. by split. Qed.

(** The loop of the initializer only adds records made at [now]. *)
Lemma initialise_loop_step env now tabs :
  ∀ md changed,
    store_step now (λ _, True) md (initialise_loop env now tabs md changed).1.
Proof.
  intros md changed. split.
  - revert md changed.
    induction tabs as [|tab rest IH]; intros md changed; cbn [initialise_loop];
      [apply evolves_refl|].
    destruct (negb _); [apply IH|].
    destruct (md !! _); [apply IH|].
    eapply evolves_trans; [|apply IH].
    apply evolves_insert_fresh, made_at_fresh.
  - intros k e e' _ Hk Hk'.
    rewrite (InitializerMore.initialise_loop_keeps_records env now tabs md changed k e Hk)
      in Hk'.
    congruence.
Qed.

(** So does the loop of the scan, which also drops records. *)
Lemma stale_loop_evolves env now tabs :
  ∀ md w md', (stale_loop env now tabs md w).1 = Returned md' → evolves now md md'.
Proof.
  induction tabs as [|tab rest IH]; intros md w md'; cbn [stale_loop].
  { intros [= <-]. apply evolves_refl. }
  destruct (tab_pinned tab); [apply IH|].
  destruct (negb (isSupportedHttpUrl env (tab_url tab))); [apply IH|].
  set (key := key_of (tab_id tab)).
  set (entry := match md !! key with Some entry => entry | None => _ end).
  set (md1 := match md !! key with Some _ => md | None => _ end).
  assert (evolves now md md1) as Hmd1.
  { subst md1. destruct (md !! key); [apply evolves_refl|].
    apply evolves_insert_fresh, made_at_fresh. }
  destruct (_ <=? _).
  - unfold bind. destruct (closeAndLogTab env tab (Some entry) w) as [[[]|err] w1];
      [|discriminate].
    intros Hrun. eapply evolves_trans; [exact Hmd1|].
    eapply evolves_trans; [apply evolves_delete | exact (IH _ _ _ Hrun)].
  - intros Hrun. eapply evolves_trans; [exact Hmd1 | exact (IH _ _ _ Hrun)].
Qed.

(** When the open tabs have distinct identifiers, a record that the loop of
    the scan was given and that is there afterwards is the same record. *)
Lemma stale_loop_same_record env now tabs :
  NoDup (tab_id <$> tabs) →
  ∀ md w md' k e e',
    (stale_loop env now tabs md w).1 = Returned md' →
    md !! k = Some e → md' !! k = Some e' → e' = e.
Proof.
  induction tabs as [|tab rest IH]; intros Hnodup md w md' k e e'; cbn [stale_loop].
  { intros [= <-] H1 H2. congruence. }
  rewrite fmap_cons in Hnodup. apply NoDup_cons in Hnodup as [Hfirst Hrest].
  specialize (IH Hrest).
  destruct (tab_pinned tab); [apply IH|].
  destruct (negb (isSupportedHttpUrl env (tab_url tab))); [apply IH|].
  set (key := key_of (tab_id tab)).
  set (entry := match md !! key with Some entry => entry | None => _ end).
  set (md1 := match md !! key with Some _ => md | None => _ end).
  assert (∀ md0 w0, (stale_loop env now rest md0 w0).1 = Returned md' →
                    k = key → md' !! k = md0 !! k) as Hrest_kept.
  { intros md0 w0 Hrun ->. apply (ScanMore.stale_loop_key_kept env now key rest)
      with (w := w0); [|exact Hrun].
    intros t Ht Hkey. exfalso. apply Hfirst.
    apply Scan.key_of_inj in Hkey. rewrite <- Hkey.
    apply list_elem_of_fmap. by exists t. }
  assert (md !! k = Some e → md1 !! k = Some e) as Hmd1.
  { intros Hk. subst md1. destruct (md !! key) eqn:Hkey; [exact Hk|].
    rewrite lookup_insert_ne; [exact Hk|]. intros <-. congruence. }
  destruct (_ <=? _).
  - unfold bind. destruct (closeAndLogTab env tab (Some entry) w) as [[[]|err] w1];
      [|discriminate].
    intros Hrun Hk Hk'. destruct (decide (k = key)) as [Heq|Hne].
    + rewrite (Hrest_kept _ _ Hrun Heq), Heq, lookup_delete_eq in Hk'. discriminate Hk'.
    + apply (IH _ _ _ k e e' Hrun); [|exact Hk'].
      rewrite lookup_delete_ne by done. by apply Hmd1.
  - intros Hrun Hk Hk'. apply (IH _ _ _ k e e' Hrun); [by apply Hmd1 | exact Hk'].
Qed.

Section Steps.
Variable env : Env.

Ltac unfold_storage :=
  unfold loadTabMetadata, Chrome.storage_get_tabMetadata, Chrome.date_now,
    Chrome.tabs_query; unfold bind, try_catch, ret; cbn beta iota.

Lemma handleTabCreated_step tab w :
  store_step (clock env (w_ticks w)) (λ k, key_of (tab_id tab) ≠ k)
             (stored_metadata w) (stored_metadata (handleTabCreated env tab w).2).
Proof.
  unfold handleTabCreated. destruct (negb _); [apply step_refl|].
  unfold_storage. destruct (storage_get_fails env _); [apply step_refl|]. cbn beta iota.
  apply step_save; [reflexivity|].
  apply step_insert_fresh; [apply made_at_fresh | done].
Qed.

Lemma handleTabUpdated_step tabId changeInfo tab w :
  store_step (clock env (w_ticks w)) (λ _, True)
             (stored_metadata w)
             (stored_metadata (handleTabUpdated env tabId changeInfo tab w).2).
Proof.
  unfold handleTabUpdated. destruct (_ && _); [apply step_refl|].
  unfold_storage. destruct (storage_get_fails env _); [apply step_refl|]. cbn beta iota.
  destruct (default ∅ (w_tabMetadata w) !! key_of tabId) as [e|] eqn:Hkey.
  - apply step_save; [reflexivity|].
    apply (step_insert_aged _ _ _ _ e); [exact Hkey|].
    destruct (isSupportedHttpUrl env _), (truthy_opt _); split; simpl; auto.
  - destruct (negb _); [apply step_refl|]. cbn beta iota.
    apply step_save; [reflexivity|].
    apply step_insert_fresh; [apply made_at_fresh | done].
Qed.

Lemma handleTabRemoved_step tabId w :
  store_step (clock env (w_ticks w)) (λ _, True)
             (stored_metadata w) (stored_metadata (handleTabRemoved env tabId w).2).
Proof.
  unfold handleTabRemoved.
  unfold_storage. destruct (storage_get_fails env _); [apply step_refl|]. cbn beta iota.
  destruct (default ∅ (w_tabMetadata w) !! key_of tabId); [|apply step_refl].
  apply step_save; [reflexivity | apply step_delete].
Qed.

Lemma onActivated_step tabId w :
  store_step (clock env (w_ticks w)) (λ _, True)
             (stored_metadata w) (stored_metadata (onActivated env tabId w).2).
Proof.
  unfold onActivated.
  unfold_storage. destruct (storage_get_fails env _); [apply step_refl|]. cbn beta iota.
  destruct (default ∅ (w_tabMetadata w) !! key_of tabId) as [e|] eqn:Hkey.
  - apply step_save; [reflexivity|].
    apply (step_insert_aged _ _ _ _ e); [exact Hkey|]. split; simpl; auto.
  - unfold Chrome.tabs_get. cbn [w_tabs set_ticks].
    destruct (tabs_get_fails env tabId); [by apply step_same|].
    destruct (find _ _) as [t|]; [|by apply step_same]. cbn beta iota.
    destruct (negb _); cbn beta iota; [by apply step_same|].
    apply step_save; [reflexivity|].
    apply step_insert_fresh; [apply made_at_fresh | done].
Qed.

Lemma initialiseExistingTabs_step w :
  store_step (clock env (w_ticks w)) (λ _, True)
             (stored_metadata w) (stored_metadata (initialiseExistingTabs env w).2).
Proof.
  unfold initialiseExistingTabs.
  unfold_storage. destruct (storage_get_fails env _); [apply step_refl|]. cbn beta iota.
  destruct (initialise_loop env _ _ _ _).2 eqn:Hchanged; [|by apply step_same].
  apply step_save; [reflexivity | apply initialise_loop_step].
Qed.

Lemma onInstalled_step w :
  store_step (clock env (w_ticks w)) (λ _, True)
             (stored_metadata w) (stored_metadata (onInstalled env w).2).
Proof.
  unfold onInstalled, bind.
  pose proof (initialiseExistingTabs_step (ensureAlarm w).2) as Hstep.
  unfold ensureAlarm, Chrome.alarms_get, Chrome.alarms_create in *; unfold bind, ret in *.
  cbn beta iota in *. destruct (w_alarms w !! ALARM_NAME); exact Hstep.
Qed.

Lemma checkForStaleTabs_step w :
  NoDup (tab_id <$> w_tabs w) →
  store_step (clock env (w_ticks w)) (λ _, True)
             (stored_metadata w) (stored_metadata (checkForStaleTabs env w).2).
Proof.
  intros Hnodup. unfold checkForStaleTabs.
  unfold_storage. destruct (storage_get_fails env _); [apply step_refl|]. cbn beta iota.
  set (w1 := set_ticks (S (w_ticks w)) w).
  set (now := clock env (w_ticks w)).
  destruct (Invariant.keeps_stale_loop env now (w_tabs w) (default ∅ (w_tabMetadata w)) w1)
    as [Hmeta _].
  pose proof (stale_loop_evolves env now (w_tabs w) (default ∅ (w_tabMetadata w)) w1)
    as Hevolves.
  pose proof (stale_loop_same_record env now (w_tabs w) Hnodup
                (default ∅ (w_tabMetadata w)) w1) as Hsame.
  destruct (stale_loop env _ _ _ w1) as [[md'|err] w2]; simpl in *.
  - apply step_save; [unfold stored_metadata; by rewrite Hmeta|].
    split; [by apply Hevolves|].
    intros k e e' _ Hk Hk'. by rewrite (Hsame md' k e e' eq_refl Hk Hk').
  - by apply step_same.
Qed.

(** Without the assumption on the identifiers, the scan still only makes
    records at [now], keeps them or drops them. *)
Lemma checkForStaleTabs_evolves w :
  evolves (clock env (w_ticks w))
          (stored_metadata w) (stored_metadata (checkForStaleTabs env w).2).
Proof.
  unfold checkForStaleTabs.
  unfold_storage. destruct (storage_get_fails env _); [apply evolves_refl|]. cbn beta iota.
  set (w1 := set_ticks (S (w_ticks w)) w).
  set (now := clock env (w_ticks w)).
  destruct (Invariant.keeps_stale_loop env now (w_tabs w) (default ∅ (w_tabMetadata w)) w1)
    as [Hmeta _].
  pose proof (stale_loop_evolves env now (w_tabs w) (default ∅ (w_tabMetadata w)) w1)
    as Hevolves.
  destruct (stale_loop env _ _ _ w1) as [[md'|err] w2]; cbn [fst snd] in *.
  - unfold saveTabMetadata, Chrome.storage_set_tabMetadata.
    destruct (storage_set_fails env TAB_METADATA_KEY); cbn [snd].
    + unfold stored_metadata. cbn [w_tabMetadata record_call]. rewrite Hmeta.
      apply evolves_refl.
    + by apply Hevolves.
  - unfold stored_metadata. rewrite Hmeta. apply evolves_refl.
Qed.

(** One event. *)
Lemma dispatch_evolves ev w :
  evolves (clock env (w_ticks w))
          (stored_metadata w) (stored_metadata (dispatch env ev w)).
Proof.
  destruct ev; cbn [dispatch].
  - apply onInstalled_step.
  - apply onInstalled_step.
  - unfold onAlarm. destruct (bool_decide _); [apply checkForStaleTabs_evolves|].
    apply evolves_refl.
  - apply handleTabCreated_step.
  - apply onActivated_step.
  - apply handleTabUpdated_step.
  - apply handleTabRemoved_step.
  - apply evolves_refl.
Qed.

Lemma dispatch_keeps_openedAt ev w :
  NoDup (tab_id <$> w_tabs w) →
  keeps_openedAt (not_created_by ev)
                 (stored_metadata w) (stored_metadata (dispatch env ev w)).
Proof.
  intros Hnodup k e e' Hev.
  assert (∀ w', keeps_openedAt (λ _, True) (stored_metadata w) (stored_metadata w') →
                stored_metadata w !! k = Some e → stored_metadata w' !! k = Some e' →
                openedAt e' = openedAt e) as Hall.
  { intros w' H. by apply H. }
  destruct ev; cbn [dispatch].
  - apply Hall, onInstalled_step.
  - apply Hall, onInstalled_step.
  - unfold onAlarm. destruct (bool_decide _); [by apply Hall, checkForStaleTabs_step|].
    apply (Hall w), (step_refl 0).
  - apply (proj2 (handleTabCreated_step tab w)). by apply Hev.
  - apply Hall, onActivated_step.
  - apply Hall, handleTabUpdated_step.
  - apply Hall, handleTabRemoved_step.
  - apply (Hall w), (step_refl 0).
Qed.

End Steps.

(** C5, as stated, fails on its last clause: chrome.tabs.onCreated for a tab
    that has a record already (the identifier was used before) replaces the
    record, and openedAt goes from the first hour to the second. *)
Lemma onCreated_raises_openedAt :
  let env := Scenario.hourly in
  let w := run env [TabCreated Scenario.tab_x]
               (Scenario.world [Scenario.tab_x] None None None) in
  let w' := dispatch env (TabCreated Scenario.tab_x) w in
  stored_metadata w !! key_of 7 = Some (Scenario.record_x Scenario.HOUR) ∧
  stored_metadata w' !! key_of 7 = Some (Scenario.record_x (2 * Scenario.HOUR)) ∧
  openedAt (Scenario.record_x Scenario.HOUR)
    < openedAt (Scenario.record_x (2 * Scenario.HOUR)).
Proof. vm_compute. repeat split; reflexivity. Qed.

(** C5, amended: with a clock that never goes back, and starting from a store
    with no metadata yet, after whatever events every stored record has
    lastActiveAt >= openedAt, and one more event changes the records as
    follows.  A record under a key that had none has both timestamps equal to
    the time [now] the event read.  A record under a key that had one has a
    lastActiveAt that is not smaller, and either the same openedAt or both
    timestamps equal to [now] (the record was replaced by a new one); it has
    the same openedAt whenever the open tabs have distinct identifiers and
    the event is not chrome.tabs.onCreated for the tab of that key. *)
Theorem timestamps_in_order env w0 evs ev :
  clock_monotone env →
  w_tabMetadata w0 = None →
  let w := run env evs w0 in
  let w' := dispatch env ev w in
  let now := clock env (w_ticks w) in
  (∀ k e, stored_metadata w !! k = Some e → openedAt e ≤ lastActiveAt e) ∧
  (∀ k e', stored_metadata w !! k = None → stored_metadata w' !! k = Some e' →
           openedAt e' = now ∧ lastActiveAt e' = now) ∧
  (∀ k e e', stored_metadata w !! k = Some e → stored_metadata w' !! k = Some e' →
             lastActiveAt e ≤ lastActiveAt e' ∧
             (openedAt e' = openedAt e ∨ (openedAt e' = now ∧ lastActiveAt e' = now)) ∧
             (NoDup (tab_id <$> w_tabs w) →
              (∀ tab, ev = TabCreated tab → key_of (tab_id tab) ≠ k) →
              openedAt e' = openedAt e)).
Proof.
  intros Hmono Hfresh w w' now.
  assert (store_ok env w) as Hok.
  { apply (Invariant.run_ok env Hmono). unfold store_ok, stored_metadata.
    rewrite Hfresh. apply Invariant.all_ok_empty. }
  pose proof (dispatch_evolves env ev w) as Hevolves. fold w' now in Hevolves.
  split; [|split].
  - intros k e Hk. by destruct (Hok k e Hk).
  - intros k e' Hnone Hk'.
    destruct (Hevolves k e' Hk') as [Hnew | (e & Hk & _)]; [exact Hnew|]. congruence.
  - intros k e e' Hk Hk'. destruct (Hok k e Hk) as [_ Hbound]. fold now in Hbound.
    split; [|split].
    + destruct (Hevolves k e' Hk') as [[_ Hl] | (e0 & Hk0 & _ & Hl)]; [lia|].
      assert (e0 = e) as -> by congruence. destruct Hl; lia.
    + destruct (Hevolves k e' Hk') as [Hnew | (e0 & Hk0 & Ho & _)]; [by right|].
      left. congruence.
    + intros Hnodup Hev.
      by apply (dispatch_keeps_openedAt env ev w Hnodup k e e' Hev).
Qed.

Lemma timestamps_in_order_witness :
  let env := Scenario.ticking in
  let w := run env [TabCreated Scenario.tab_x]
               (Scenario.world [Scenario.tab_x] None None None) in
  let w' := dispatch env (TabActivated 7) w in
  let now := clock env (w_ticks w) in
  (∀ k e, stored_metadata w !! k = Some e → openedAt e ≤ lastActiveAt e) ∧
  (∀ k e', stored_metadata w !! k = None → stored_metadata w' !! k = Some e' →
           openedAt e' = now ∧ lastActiveAt e' = now) ∧
  (∀ k e e', stored_metadata w !! k = Some e → stored_metadata w' !! k = Some e' →
             lastActiveAt e ≤ lastActiveAt e' ∧
             (openedAt e' = openedAt e ∨ (openedAt e' = now ∧ lastActiveAt e' = now)) ∧
             (NoDup (tab_id <$> w_tabs w) →
              (∀ tab, TabActivated 7 = TabCreated tab → key_of (tab_id tab) ≠ k) →
              openedAt e' = openedAt e)).
Proof.
  apply (timestamps_in_order Scenario.ticking
           (Scenario.world [Scenario.tab_x] None None None)
           [TabCreated Scenario.tab_x] (TabActivated 7)).
  - intros m n Hmn. simpl. lia.
  - reflexivity.
Defined.

(** The records of the witness: activation keeps openedAt at the first
    second and moves lastActiveAt to the second one. *)
Example activation_after_creation :
  let env := Scenario.ticking in
  let w := run env [TabCreated Scenario.tab_x]
               (Scenario.world [Scenario.tab_x] None None None) in
  stored_metadata w !! key_of 7 = Some (Scenario.record_x 1000) ∧
  stored_metadata (dispatch env (TabActivated 7) w) !! key_of 7
    = Some (mkTabRecord 1000 2000 "http://x" "http://x" "X").
Proof. vm_compute. split; reflexivity. Qed.

End Timestamps.
